(** * Aura Lofi IA: the canvas editor, the image service and the message store

    A shallow embedding of the parts of the repository that the
    specification makes testable statements about:

    - [MaskHistory]   the mask undo/redo stack of [ImageEditorModal]
                      (src/components/ImageViewerModal.tsx, second component);
    - [GeminiService] the response handling of generateImage, editImage,
                      enhanceImage and removeBackground (services/geminiService);
    - [MessageStore]  the IndexedDB message store of src/utils/db.ts;
    - [ConversationHistory]
                      the hook that keeps the screen and the store in step
                      (src/hooks/useConversationHistory.ts), and the delete
                      button of a message bubble;
    - [SessionId]     getSessionId of src/utils/sessionId.ts;
    - [DataUrl]       images as data URLs: fileToImageData and the handlers
                      and the download button of a message bubble;
    - [App]           handleSendMessage and handleDownloadAll of src/App.tsx;
    - [ImageDetails]  the prompt that ImageDetailsModal shows with an image;
    - [Canvas2D]      the part of the 2D canvas API that the editor draws with;
    - [Crop]          the crop box and its drag handles;
    - [Editor]        fit-to-container layout, zoom, bake and crop apply of
                      [ImageEditorModal];
    - [Viewer]        the wheel zoom, the zoom buttons and the panning of
                      [ImageViewerModal].

    JavaScript numbers that carry pixel coordinates, scales and angles are
    modelled as real numbers: IEEE rounding is not part of the model.
    Counters, array indices and record keys are integers. *)

From Stdlib Require Import ZArith List String Ascii Reals Lra Lia.
From stdpp Require Import gmap strings list fin_maps sorting pretty.

Open Scope Z_scope.

(** ** JavaScript helpers shared by the components *)

(** [arr[i]] for a number [i]: [undefined] outside [0 .. length-1]. *)
Definition js_index {A} (arr : list A) (i : Z) : option A :=
  if i <? 0 then None else nth_error arr (Z.to_nat i).

(** [arr.slice(0, e)]: a negative [e] counts from the end of the array. *)
Definition js_slice0 {A} (arr : list A) (e : Z) : list A :=
  let len := Z.of_nat (length arr) in
  let k := if e <? 0 then Z.max (len + e) 0 else Z.min e len in
  firstn (Z.to_nat k) arr.

(** [s.startsWith(p)] together with the rest of [s] after [p]. *)
Fixpoint strip_prefix (p s : string) : option string :=
  match p, s with
  | EmptyString, _ => Some s
  | String a p', String b s' =>
      if Ascii.eqb a b then strip_prefix p' s' else None
  | String _ _, EmptyString => None
  end.

Lemma strip_prefix_app (p s : string) : strip_prefix p (p +:+ s) = Some s.
Proof.
  induction p as [|a p IH]; simpl; [reflexivity|].
  rewrite Ascii.eqb_refl. exact IH.
Qed.

Lemma js_slice0_all {A} (arr : list A) :
  js_slice0 arr (Z.of_nat (length arr)) = arr.
Proof.
  unfold js_slice0.
  destruct (Z.ltb_spec (Z.of_nat (length arr)) 0) as [H|H]; [lia|].
  rewrite Z.min_id, Nat2Z.id. apply firstn_all.
Qed.

Lemma js_slice0_firstn {A} (arr : list A) (n : nat) :
  (n <= length arr)%nat -> js_slice0 arr (Z.of_nat n) = firstn n arr.
Proof.
  intros Hn. unfold js_slice0.
  destruct (Z.ltb_spec (Z.of_nat n) 0) as [H|H]; [lia|].
  rewrite Z.min_l by lia. now rewrite Nat2Z.id.
Qed.

Lemma js_slice0_nonneg {A} (arr : list A) (e : Z) :
  0 <= e <= Z.of_nat (length arr) ->
  js_slice0 arr e = firstn (Z.to_nat e) arr.
Proof.
  intros He. unfold js_slice0.
  destruct (Z.ltb_spec e 0) as [H|H]; [lia|].
  now rewrite Z.min_l by lia.
Qed.

(** ** Mask layer: snapshots, cursor, undo and redo *)

Module MaskHistory.

(** The drawing canvas. A canvas one of whose dimensions is zero has no
    pixels; otherwise [content] stands for its pixel data (the payload that
    its PNG encoding carries). *)
Inductive Canvas :=
| NoPixels
| Pixels (content : string).

Definition png_prefix : string := "data:image/png;base64,".

(** [canvas.toDataURL()]: the string ["data:,"] for a canvas without pixels
    (the value the editor tests for before it seeds the history). *)
Definition toDataURL (c : Canvas) : string :=
  match c with
  | NoPixels => "data:,"
  | Pixels p => png_prefix +:+ p
  end.

(** The state the mask handlers read and write:
    [history], [historyIndex] and [drawingCanvasRef.current]. *)
Record Editor := mkEditor {
  history : list string;
  historyIndex : Z;
  drawingCanvas : option Canvas
}.

Section Session.

(** The pixel data of a fully transparent drawing canvas. *)
Variable blank : string.

(** [ctx.clearRect(0, 0, width, height)]. *)
Definition clearRect (c : Canvas) : Canvas :=
  match c with
  | NoPixels => NoPixels
  | Pixels _ => Pixels blank
  end.

(** [ctx.drawImage(img, 0, 0, width, height)] on a cleared canvas, for an
    image decoded from a snapshot of the same canvas. *)
Definition drawImage (payload : string) (c : Canvas) : Canvas :=
  match c with
  | NoPixels => NoPixels
  | Pixels _ => Pixels payload
  end.

(** A brush stroke (startDrawing, draw, ..., before stopDrawing commits):
    [f] is what the stroked segments do to the pixel data. *)
Definition paint (f : string -> string) (c : Canvas) : Canvas :=
  match c with
  | NoPixels => NoPixels
  | Pixels p => Pixels (f p)
  end.

(** useState initial values, also what resetAllState installs. *)
Definition initial (c : option Canvas) : Editor :=
  {| history := []; historyIndex := -1; drawingCanvas := c |}.

(** redrawMask: clear, then draw the snapshot under the cursor if there is
    one. An image whose source is not an image data URL never fires onload. *)
Definition redrawMask (st : Editor) : Editor :=
  match drawingCanvas st with
  | None => st
  | Some c =>
      let cleared := clearRect c in
      let c' :=
        match js_index (history st) (historyIndex st) with
        | Some dataUrl =>
            match strip_prefix png_prefix dataUrl with
            | Some payload => drawImage payload cleared
            | None => cleared
            end
        | None => cleared
        end in
      {| history := history st; historyIndex := historyIndex st;
         drawingCanvas := Some c' |}
  end.

(** The effect on [historyIndex, redrawMask]: it runs after a render in
    which the history or the cursor changed. *)
Definition redrawEffect (st : Editor) : Editor :=
  if 0 <=? historyIndex st then redrawMask st else st.

(** The effect that seeds the history with the blank snapshot once the
    committed image is there (the 50 ms timeout). *)
Definition seedBlank (st : Editor) : Editor :=
  match history st, drawingCanvas st with
  | [], Some c =>
      let blankData := toDataURL c in
      if String.eqb blankData "data:," then st
      else redrawEffect {| history := [blankData]; historyIndex := 0;
                           drawingCanvas := Some c |}
  | _, _ => st
  end.

Definition saveState (st : Editor) : Editor :=
  match drawingCanvas st with
  | None => st
  | Some c =>
      let newHistory :=
        js_slice0 (history st) (historyIndex st + 1) ++ [toDataURL c] in
      redrawEffect
        {| history := newHistory;
           historyIndex := Z.of_nat (length newHistory) - 1;
           drawingCanvas := Some c |}
  end.

Definition undo (st : Editor) : Editor :=
  if 0 <? historyIndex st then
    redrawEffect {| history := history st;
                    historyIndex := historyIndex st - 1;
                    drawingCanvas := drawingCanvas st |}
  else st.

Definition redo (st : Editor) : Editor :=
  if historyIndex st <? Z.of_nat (length (history st)) - 1 then
    redrawEffect {| history := history st;
                    historyIndex := historyIndex st + 1;
                    drawingCanvas := drawingCanvas st |}
  else st.

(** startDrawing, draw and stopDrawing of one stroke: without a drawing
    context the stroke never starts, so nothing is committed. *)
Definition stroke (f : string -> string) (st : Editor) : Editor :=
  match drawingCanvas st with
  | None => st
  | Some c =>
      saveState {| history := history st; historyIndex := historyIndex st;
                   drawingCanvas := Some (paint f c) |}
  end.

Definition handleClearMask (st : Editor) : Editor :=
  match drawingCanvas st with
  | None => st
  | Some c =>
      saveState {| history := history st; historyIndex := historyIndex st;
                   drawingCanvas := Some (clearRect c) |}
  end.

(** The mask operations of a session. *)
Inductive MaskOp :=
| Stroke (f : string -> string)
| Undo
| Redo
| Clear.

Definition apply (op : MaskOp) (st : Editor) : Editor :=
  match op with
  | Stroke f => stroke f st
  | Undo => undo st
  | Redo => redo st
  | Clear => handleClearMask st
  end.

Definition run (ops : list MaskOp) (st : Editor) : Editor :=
  fold_left (fun s op => apply op s) ops st.

Definition strokes (fs : list (string -> string)) (st : Editor) : Editor :=
  run (map Stroke fs) st.

(** The editor just after the blank snapshot was seeded. *)
Definition seeded : Editor := seedBlank (initial (Some (Pixels blank))).

(** What the drawing canvas shows, as a data URL. *)
Definition displayed (st : Editor) : option string :=
  toDataURL <$> drawingCanvas st.

(** The cursor invariant of the specification. *)
Definition cursor_ok (st : Editor) : Prop :=
  0 <= historyIndex st < Z.of_nat (length (history st)) /\
  js_index (history st) 0 = Some (png_prefix +:+ blank).

(** Pixel data after each of the strokes [fs], starting from [p]. *)
Fixpoint contents (p : string) (fs : list (string -> string)) : list string :=
  match fs with
  | [] => []
  | f :: fs' => f p :: contents (f p) fs'
  end.

(** The canvas has pixels and shows the snapshot under the cursor. *)
Definition synced (st : Editor) : Prop :=
  exists p, drawingCanvas st = Some (Pixels p) /\
            js_index (history st) (historyIndex st) = Some (png_prefix +:+ p).

(** Every snapshot is the PNG encoding of some pixel data. *)
Definition encoded (st : Editor) : Prop :=
  Forall (fun u => exists q, u = png_prefix +:+ q) (history st).

End Session.

Arguments synced st : clear implicits.
Arguments encoded st : clear implicits.

Abbreviation enc p := (png_prefix +:+ p) (only parsing).

Lemma js_index_snoc {A} (l : list A) (x : A) :
  js_index (l ++ [x]) (Z.of_nat (length l)) = Some x.
Proof.
  unfold js_index.
  destruct (Z.ltb_spec (Z.of_nat (length l)) 0) as [H|H]; [lia|].
  rewrite Nat2Z.id, nth_error_app2 by lia.
  now rewrite Nat.sub_diag.
Qed.

Lemma js_index_Some_lt {A} (l : list A) (i : Z) (x : A) :
  js_index l i = Some x -> 0 <= i < Z.of_nat (length l).
Proof.
  unfold js_index. destruct (Z.ltb_spec i 0) as [H|H]; [discriminate|].
  intros Hn. assert (Hlt : (Z.to_nat i < length l)%nat).
  { apply nth_error_Some. congruence. }
  lia.
Qed.

Lemma redrawEffect_history blank st :
  history (redrawEffect blank st) = history st.
Proof.
  unfold redrawEffect, redrawMask.
  destruct (0 <=? historyIndex st); [|reflexivity].
  now destruct (drawingCanvas st).
Qed.

Lemma redrawEffect_index blank st :
  historyIndex (redrawEffect blank st) = historyIndex st.
Proof.
  unfold redrawEffect, redrawMask.
  destruct (0 <=? historyIndex st); [|reflexivity].
  now destruct (drawingCanvas st).
Qed.

Lemma redrawEffect_canvas_None blank st :
  drawingCanvas st = None -> redrawEffect blank st = st.
Proof.
  intros H. unfold redrawEffect, redrawMask. rewrite H.
  now destruct (0 <=? historyIndex st).
Qed.

(** Redrawing from an encoded snapshot under the cursor shows that snapshot. *)
Lemma redrawEffect_shows blank h i p q :
  js_index h i = Some (enc q) ->
  redrawEffect blank (mkEditor h i (Some (Pixels p))) =
  mkEditor h i (Some (Pixels q)).
Proof.
  intros Hq. pose proof (js_index_Some_lt _ _ _ Hq) as Hi.
  unfold redrawEffect, redrawMask; cbn [history historyIndex drawingCanvas].
  destruct (Z.leb_spec 0 i) as [_|H]; [|lia].
  now rewrite Hq, strip_prefix_app.
Qed.

(** One committed stroke on a canvas with pixels. *)
Lemma stroke_spec blank f st p :
  drawingCanvas st = Some (Pixels p) ->
  -1 <= historyIndex st < Z.of_nat (length (history st)) ->
  stroke blank f st =
  mkEditor (firstn (Z.to_nat (historyIndex st + 1)) (history st) ++ [enc (f p)])
           (historyIndex st + 1) (Some (Pixels (f p))).
Proof.
  intros Hc Hi. unfold stroke, saveState. rewrite Hc.
  cbn [history historyIndex drawingCanvas paint toDataURL].
  rewrite !js_slice0_nonneg by lia.
  set (h := firstn (Z.to_nat (historyIndex st + 1)) (history st)).
  assert (Hlen : length h = Z.to_nat (historyIndex st + 1)).
  { unfold h. rewrite length_firstn. lia. }
  rewrite length_app, Hlen. cbn [length].
  replace (Z.of_nat (Z.to_nat (historyIndex st + 1) + 1) - 1)
    with (historyIndex st + 1) by lia.
  apply redrawEffect_shows.
  replace (historyIndex st + 1) with (Z.of_nat (length h)) by lia.
  apply js_index_snoc.
Qed.

Lemma seeded_eq blank :
  seeded blank = mkEditor [enc blank] 0 (Some (Pixels blank)).
Proof.
  unfold seeded, seedBlank, initial; cbn [history drawingCanvas toDataURL].
  replace (String.eqb (enc blank) "data:,") with false by reflexivity.
  apply redrawEffect_shows. reflexivity.
Qed.

Lemma last_nonempty_default {A} (l : list A) (x d d' : A) :
  List.last (x :: l) d = List.last (x :: l) d'.
Proof.
  revert x. induction l as [|y l IH]; intros x; [reflexivity|].
  change (List.last (y :: l) d = List.last (y :: l) d'). apply IH.
Qed.

(** Strokes committed with the cursor on the newest snapshot only append. *)
Lemma strokes_append blank fs : forall h i p,
  i = Z.of_nat (length h) - 1 ->
  strokes blank fs (mkEditor h i (Some (Pixels p))) =
  mkEditor (h ++ map (fun q => enc q) (contents p fs))
           (i + Z.of_nat (length fs))
           (Some (Pixels (List.last (contents p fs) p))).
Proof.
  induction fs as [|f fs IH]; intros h i p Hi.
  - cbn. now rewrite app_nil_r, Z.add_0_r.
  - unfold strokes, run in *. cbn [map fold_left apply].
    rewrite (stroke_spec blank f _ p) by (cbn; auto; lia).
    cbn [history historyIndex].
    replace (Z.to_nat (i + 1)) with (length h) by lia.
    rewrite firstn_all, IH by (rewrite length_app; cbn; lia).
    rewrite <- app_assoc. cbn [contents map app length List.last].
    f_equal; [lia|].
    destruct (contents (f p) fs); [reflexivity|].
    f_equal; f_equal. apply last_nonempty_default.
Qed.

Lemma encoded_lookup h i :
  Forall (fun u => exists q, u = enc q) h ->
  0 <= i < Z.of_nat (length h) ->
  exists q, js_index h i = Some (enc q).
Proof.
  intros He Hi. unfold js_index.
  destruct (Z.ltb_spec i 0) as [H|_]; [lia|].
  destruct (nth_error h (Z.to_nat i)) as [u|] eqn:Hu.
  - rewrite List.Forall_forall in He.
    destruct (He u (nth_error_In _ _ Hu)) as [q ->]. now exists q.
  - apply nth_error_None in Hu. lia.
Qed.

(** An effective undo moves the cursor down and shows the snapshot there. *)
Lemma undo_spec blank h i p :
  Forall (fun u => exists q, u = enc q) h ->
  0 < i < Z.of_nat (length h) ->
  exists q, js_index h (i - 1) = Some (enc q) /\
            undo blank (mkEditor h i (Some (Pixels p))) =
            mkEditor h (i - 1) (Some (Pixels q)).
Proof.
  intros He Hi.
  destruct (encoded_lookup h (i - 1) He) as [q Hq]; [lia|].
  exists q; split; [exact Hq|].
  unfold undo; cbn [history historyIndex drawingCanvas].
  destruct (Z.ltb_spec 0 i) as [_|H]; [|lia].
  now apply redrawEffect_shows.
Qed.

Lemma undos_spec blank h (K : nat) : forall i p,
  Forall (fun u => exists q, u = enc q) h ->
  Z.of_nat K <= i < Z.of_nat (length h) ->
  js_index h i = Some (enc p) ->
  exists q, js_index h (i - Z.of_nat K) = Some (enc q) /\
            Nat.iter K (undo blank) (mkEditor h i (Some (Pixels p))) =
            mkEditor h (i - Z.of_nat K) (Some (Pixels q)).
Proof.
  induction K as [|K IH]; intros i p He Hi Hp.
  - exists p. unfold Nat.iter; cbn [nat_rect]. rewrite Z.sub_0_r. now split.
  - destruct (IH i p He ltac:(lia) Hp) as (q & Hq & Hiter).
    rewrite Nat.iter_succ, Hiter.
    destruct (undo_spec blank h (i - Z.of_nat K) q He ltac:(lia))
      as (q' & Hq' & Hundo).
    exists q'. rewrite Hundo.
    replace (i - Z.of_nat (S K)) with (i - Z.of_nat K - 1) by lia.
    now split.
Qed.

Lemma redo_at_top blank st :
  historyIndex st = Z.of_nat (length (history st)) - 1 -> redo blank st = st.
Proof.
  intros H. unfold redo.
  destruct (Z.ltb_spec (historyIndex st) (Z.of_nat (length (history st)) - 1));
    [lia|reflexivity].
Qed.

Lemma redrawEffect_canvas_Some blank st :
  drawingCanvas st <> None -> drawingCanvas (redrawEffect blank st) <> None.
Proof.
  intros H. unfold redrawEffect, redrawMask.
  destruct (0 <=? historyIndex st); [|exact H].
  destruct (drawingCanvas st); [discriminate|contradiction].
Qed.

(** saveState keeps the snapshots up to the cursor and appends the canvas. *)
Lemma saveState_shape blank st c :
  drawingCanvas st = Some c ->
  -1 <= historyIndex st < Z.of_nat (length (history st)) ->
  history (saveState blank st) =
    firstn (Z.to_nat (historyIndex st + 1)) (history st) ++ [toDataURL c] /\
  historyIndex (saveState blank st) = historyIndex st + 1 /\
  drawingCanvas (saveState blank st) <> None.
Proof.
  intros Hc Hi. unfold saveState. rewrite Hc.
  rewrite redrawEffect_history, redrawEffect_index.
  cbn [history historyIndex].
  rewrite !js_slice0_nonneg by lia.
  split; [reflexivity|]. split.
  - rewrite length_app, length_firstn. cbn [length]. lia.
  - apply redrawEffect_canvas_Some. discriminate.
Qed.

Lemma stroke_shape blank f st :
  drawingCanvas st <> None ->
  -1 <= historyIndex st < Z.of_nat (length (history st)) ->
  (exists snap, history (stroke blank f st) =
     firstn (Z.to_nat (historyIndex st + 1)) (history st) ++ [snap]) /\
  historyIndex (stroke blank f st) = historyIndex st + 1 /\
  drawingCanvas (stroke blank f st) <> None.
Proof.
  intros Hc Hi. unfold stroke.
  destruct (drawingCanvas st) as [c|] eqn:Ec; [|contradiction].
  destruct (saveState_shape blank
              (mkEditor (history st) (historyIndex st) (Some (paint f c)))
              (paint f c) eq_refl Hi) as (Hh & Hx & Hn).
  cbn [history historyIndex] in Hh, Hx. eauto.
Qed.

Lemma clear_shape blank st :
  drawingCanvas st <> None ->
  -1 <= historyIndex st < Z.of_nat (length (history st)) ->
  (exists snap, history (handleClearMask blank st) =
     firstn (Z.to_nat (historyIndex st + 1)) (history st) ++ [snap]) /\
  historyIndex (handleClearMask blank st) = historyIndex st + 1 /\
  drawingCanvas (handleClearMask blank st) <> None.
Proof.
  intros Hc Hi. unfold handleClearMask.
  destruct (drawingCanvas st) as [c|] eqn:Ec; [|contradiction].
  destruct (saveState_shape blank
              (mkEditor (history st) (historyIndex st) (Some (clearRect blank c)))
              (clearRect blank c) eq_refl Hi) as (Hh & Hx & Hn).
  cbn [history historyIndex] in Hh, Hx. eauto.
Qed.

Lemma undo_shape blank st :
  history (undo blank st) = history st /\
  historyIndex (undo blank st) =
    (if 0 <? historyIndex st then historyIndex st - 1 else historyIndex st) /\
  (drawingCanvas st <> None -> drawingCanvas (undo blank st) <> None).
Proof.
  unfold undo. destruct (0 <? historyIndex st); [|tauto].
  rewrite redrawEffect_history, redrawEffect_index. cbn.
  repeat split. intros H. now apply redrawEffect_canvas_Some.
Qed.

Lemma redo_shape blank st :
  history (redo blank st) = history st /\
  historyIndex (redo blank st) =
    (if historyIndex st <? Z.of_nat (length (history st)) - 1
     then historyIndex st + 1 else historyIndex st).
Proof.
  unfold redo.
  destruct (historyIndex st <? Z.of_nat (length (history st)) - 1); [|tauto].
  rewrite redrawEffect_history, redrawEffect_index. now cbn.
Qed.

Lemma js_index_0_firstn_snoc {A} (h : list A) (n : nat) (x y : A) :
  (0 < n)%nat -> js_index h 0 = Some x ->
  js_index (firstn n h ++ [y]) 0 = Some x.
Proof.
  intros Hn. unfold js_index; cbn.
  destruct h as [|a h]; [discriminate|].
  destruct n as [|n]; [lia|]. now cbn.
Qed.

Lemma nth_contents_last fs : forall b,
  nth_error (b :: contents b fs) (length fs) =
  Some (List.last (contents b fs) b).
Proof.
  induction fs as [|f fs IH]; intros b; [reflexivity|].
  cbn [contents length nth_error]. rewrite IH.
  destruct (contents (f b) fs) as [|x l]; [reflexivity|].
  f_equal. change (List.last (f b :: x :: l) b) with (List.last (x :: l) b).
  apply last_nonempty_default.
Qed.

Lemma encoded_contents (b : string) fs :
  Forall (fun u => exists q, u = enc q)
         (enc b :: map (fun q => enc q) (contents b fs)).
Proof.
  constructor; [now exists b|].
  apply List.Forall_forall. intros u Hu.
  apply in_map_iff in Hu. destruct Hu as (q & <- & _). now exists q.
Qed.

(** C1 (amended). After N committed strokes on the seeded editor and K <= N
    undos, the cursor is N-K, no snapshot was lost and the canvas shows the
    snapshot at index N-K. A further stroke keeps the snapshots up to the
    cursor, appends its own and leaves the cursor on the last snapshot, so
    redo does nothing. Painting a stroke, undoing once and painting again
    leaves a history whose length is the cursor before the undo plus one. *)
Theorem mask_undo_redo (blank : string) (fs : list (string -> string))
    (K : nat) (g : string -> string) :
  (K <= length fs)%nat ->
  let N := length fs in
  let st1 := strokes blank fs (seeded blank) in
  let st2 := Nat.iter K (undo blank) st1 in
  let st3 := stroke blank g st2 in
  history st1 = enc blank :: map (fun q => enc q) (contents blank fs) /\
  history st2 = history st1 /\
  historyIndex st2 = Z.of_nat (N - K) /\
  displayed st2 = js_index (history st1) (Z.of_nat (N - K)) /\
  (exists snap, history st3 = firstn (N - K + 1) (history st1) ++ [snap]) /\
  historyIndex st3 = Z.of_nat (length (history st3)) - 1 /\
  redo blank st3 = st3 /\
  (forall st f g',
     drawingCanvas st <> None ->
     0 <= historyIndex st < Z.of_nat (length (history st)) ->
     let s1 := stroke blank f st in
     let s3 := stroke blank g' (undo blank s1) in
     Z.of_nat (length (history s3)) = historyIndex s1 + 1).
Proof.
  intros HK N st1 st2 st3. change (K <= N)%nat in HK.
  assert (E1 : st1 = mkEditor
                 (enc blank :: map (fun q => enc q) (contents blank fs))
                 (Z.of_nat N)
                 (Some (Pixels (List.last (contents blank fs) blank)))).
  { unfold st1. rewrite seeded_eq, strokes_append by reflexivity.
    cbn [app]. f_equal. }
  set (h := enc blank :: map (fun q => enc q) (contents blank fs)) in *.
  assert (Hlen : length h = S N).
  { unfold h, N. cbn [length]. rewrite length_map. f_equal.
    clear. generalize blank. induction fs as [|f fs IH]; intros b; cbn;
      [reflexivity|now rewrite IH]. }
  assert (He : Forall (fun u => exists q, u = enc q) h)
    by apply encoded_contents.
  assert (Htop : js_index h (Z.of_nat N) =
                 Some (enc (List.last (contents blank fs) blank))).
  { unfold js_index. destruct (Z.ltb_spec (Z.of_nat N) 0); [lia|].
    rewrite Nat2Z.id. unfold h, N.
    change (enc blank :: map (fun q => enc q) (contents blank fs))
      with (map (fun q => enc q) (blank :: contents blank fs)).
    now rewrite nth_error_map, nth_contents_last. }
  assert (HKh : Z.of_nat K <= Z.of_nat N < Z.of_nat (length h)).
  { lia. }
  destruct (undos_spec blank h K (Z.of_nat N) _ He HKh Htop)
    as (q & Hq & Hiter).
  assert (E2 : st2 = mkEditor h (Z.of_nat (N - K)) (Some (Pixels q))).
  { unfold st2. rewrite E1, Hiter. f_equal. lia. }
  replace (Z.of_nat N - Z.of_nat K) with (Z.of_nat (N - K)) in Hq by lia.
  assert (E3 : st3 = mkEditor (firstn (N - K + 1) h ++ [enc (g q)])
                              (Z.of_nat (N - K) + 1) (Some (Pixels (g q)))).
  { unfold st3. rewrite E2.
    rewrite (stroke_spec blank g _ q)
      by (cbn [history historyIndex drawingCanvas]; auto; lia).
    cbn [history historyIndex]. do 3 f_equal. lia. }
  rewrite E1, E2, E3. cbn [history historyIndex].
  repeat apply conj; try reflexivity.
  - unfold displayed. cbn. now rewrite Hq.
  - eauto.
  - rewrite length_app, length_firstn. cbn [length]. lia.
  - apply redo_at_top. cbn [history historyIndex].
    rewrite length_app, length_firstn. cbn [length]. lia.
  - intros st f g' Hc Hi.
    set (s1 := stroke blank f st).
    set (s3 := stroke blank g' (undo blank s1)).
    destruct (stroke_shape blank f st Hc ltac:(lia)) as ((sn & Hh1) & Hx1 & Hc1).
    fold s1 in Hh1, Hx1, Hc1.
    destruct (undo_shape blank s1) as (Hh2 & Hx2 & Hc2).
    assert (Hl1 : Z.of_nat (length (history s1)) = historyIndex st + 2).
    { rewrite Hh1, length_app, length_firstn. cbn [length]. lia. }
    destruct (Z.ltb_spec 0 (historyIndex s1)) as [_|H0]; [|lia].
    assert (Hi2 : -1 <= historyIndex (undo blank s1)
                  < Z.of_nat (length (history (undo blank s1))))
      by (rewrite Hh2; lia).
    destruct (stroke_shape blank g' (undo blank s1) (Hc2 Hc1) Hi2)
      as ((sn' & Hh3) & _ & _).
    fold s3 in Hh3. rewrite Hh3, length_app, length_firstn, Hh2. cbn [length].
    lia.
Qed.

Definition brush_a (p : string) : string := p +:+ "a".
Definition brush_b (p : string) : string := p +:+ "b".

Lemma mask_undo_redo_witness :
  (1 <= length [brush_a; brush_b])%nat /\
  historyIndex (Nat.iter 1 (undo "") (strokes "" [brush_a; brush_b] (seeded "")))
  = 1.
Proof.
  split; [cbn; lia|].
  exact (proj1 (proj2 (proj2
    (mask_undo_redo "" [brush_a; brush_b] 1 brush_b ltac:(cbn; lia))))).
Defined.

(** C1, the scenario as the specification words it: one stroke, one undo and
    a new stroke on the seeded editor give a history of length 2, while the
    cursor before the undo was 1; the length is not that cursor plus two. *)
Lemma scenario_length_not_index_plus_two :
  let s1 := stroke "" brush_a (seeded "") in
  let s3 := stroke "" brush_b (undo "" s1) in
  historyIndex s1 = 1 /\
  length (history s3) = 2%nat /\
  Z.of_nat (length (history s3)) <> historyIndex s1 + 2.
Proof. vm_compute. repeat split; discriminate. Qed.

(** A session: two strokes, undo, redo, undo, a new stroke, clear. *)
Example session_trace :
  run "" [Stroke brush_a; Stroke brush_b; Undo; Redo; Undo; Stroke brush_b; Clear]
      (seeded "") =
  {| history := ["data:image/png;base64,"; "data:image/png;base64,a";
                 "data:image/png;base64,ab"; "data:image/png;base64,"];
     historyIndex := 3;
     drawingCanvas := Some (Pixels "") |}.
Proof. reflexivity. Qed.

(** The range part of the cursor invariant, and the state before seeding. *)
Definition cursor_in_range (st : Editor) : Prop :=
  0 <= historyIndex st < Z.of_nat (length (history st)).

Definition unseeded (st : Editor) : Prop :=
  history st = [] /\ historyIndex st = -1.

Lemma apply_cursor_ok blank st op :
  cursor_ok blank st -> cursor_ok blank (apply blank op st).
Proof.
  intros [Hi H0]. unfold cursor_ok.
  destruct op as [f| | |]; cbn [apply].
  - destruct (drawingCanvas st) as [c|] eqn:Ec.
    + destruct (stroke_shape blank f st ltac:(congruence) ltac:(lia))
        as ((sn & Hh) & Hx & _).
      rewrite Hh, Hx, length_app, length_firstn. cbn [length]. split; [lia|].
      apply js_index_0_firstn_snoc; [lia|exact H0].
    + unfold stroke. rewrite Ec. now split.
  - destruct (undo_shape blank st) as (Hh & Hx & _). rewrite Hh, Hx.
    split; [|exact H0]. destruct (Z.ltb_spec 0 (historyIndex st)); lia.
  - destruct (redo_shape blank st) as (Hh & Hx). rewrite Hh, Hx.
    split; [|exact H0].
    destruct (Z.ltb_spec (historyIndex st) (Z.of_nat (length (history st)) - 1));
      lia.
  - destruct (drawingCanvas st) as [c|] eqn:Ec.
    + destruct (clear_shape blank st ltac:(congruence) ltac:(lia))
        as ((sn & Hh) & Hx & _).
      rewrite Hh, Hx, length_app, length_firstn. cbn [length]. split; [lia|].
      apply js_index_0_firstn_snoc; [lia|exact H0].
    + unfold handleClearMask. rewrite Ec. now split.
Qed.

Lemma run_cursor_ok blank ops : forall st,
  cursor_ok blank st -> cursor_ok blank (run blank ops st).
Proof.
  induction ops as [|op ops IH]; intros st H; [exact H|].
  unfold run in *. cbn [fold_left]. apply IH. now apply apply_cursor_ok.
Qed.

(** Before seeding, an operation leaves the editor unseeded or puts the
    cursor in range. *)
Lemma apply_unseeded blank st op :
  unseeded st ->
  unseeded (apply blank op st) \/ cursor_in_range (apply blank op st).
Proof.
  intros [Hh Hx]. unfold unseeded, cursor_in_range.
  destruct op as [f| | |]; cbn [apply].
  - destruct (drawingCanvas st) as [c|] eqn:Ec.
    + right.
      destruct (stroke_shape blank f st ltac:(congruence)
                  ltac:(rewrite Hh, Hx; cbn; lia)) as ((sn & Hh') & Hx' & _).
      rewrite Hh', Hx', length_app, length_firstn, Hh, Hx. cbn. lia.
    + left. unfold stroke. now rewrite Ec.
  - left. destruct (undo_shape blank st) as (Hh' & Hx' & _).
    rewrite Hh', Hx', Hh, Hx. now cbn.
  - left. destruct (redo_shape blank st) as (Hh' & Hx').
    rewrite Hh', Hx', Hh, Hx. now cbn.
  - destruct (drawingCanvas st) as [c|] eqn:Ec.
    + right.
      destruct (clear_shape blank st ltac:(congruence)
                  ltac:(rewrite Hh, Hx; cbn; lia)) as ((sn & Hh') & Hx' & _).
      rewrite Hh', Hx', length_app, length_firstn, Hh, Hx. cbn. lia.
    + left. unfold handleClearMask. now rewrite Ec.
Qed.

(** C7 (amended). The editor starts unseeded: no snapshot and cursor -1.
    Once the blank snapshot is seeded, 0 <= historyIndex < history.length
    holds with the blank mask at index 0, and stroke commit, undo, redo and
    clear all preserve it, so it holds after any sequence of them. *)
Theorem cursor_invariant (blank : string) :
  (forall c, unseeded (initial c)) /\
  cursor_ok blank (seeded blank) /\
  (forall st op, cursor_ok blank st -> cursor_ok blank (apply blank op st)) /\
  (forall ops, cursor_ok blank (run blank ops (seeded blank))).
Proof.
  assert (Hs : cursor_ok blank (seeded blank)).
  { rewrite seeded_eq. unfold cursor_ok. cbn. split; [lia|reflexivity]. }
  split; [|split; [|split]].
  - intros c. now split.
  - exact Hs.
  - intros st op. apply apply_cursor_ok.
  - intros ops. now apply run_cursor_ok.
Qed.

Lemma cursor_invariant_witness :
  cursor_ok "" (seeded "") /\
  cursor_ok "" (apply "" Undo (seeded "")).
Proof.
  pose proof (cursor_invariant "") as (_ & Hs & Hstep & _).
  split; [exact Hs|]. apply Hstep. exact Hs.
Defined.

(** C7 as stated fails in the initial state: the cursor is -1 there. *)
Lemma initial_state_breaks_cursor_invariant :
  ~ cursor_ok "" (initial (Some (Pixels ""))).
Proof. unfold cursor_ok, initial. cbn. lia. Qed.

(** ** Further properties of the mask history *)

(** The state of a running session: the canvas shows the snapshot under the
    cursor, and every snapshot is an image. *)
Definition coherent (st : Editor) : Prop := synced st /\ encoded st.

Lemma js_index_firstn {A} (h : list A) (n : nat) (i : Z) :
  i < Z.of_nat n -> js_index (firstn n h) i = js_index h i.
Proof.
  intros Hi. unfold js_index. destruct (Z.ltb_spec i 0); [reflexivity|].
  rewrite nth_error_firstn.
  destruct (Nat.ltb_spec (Z.to_nat i) n); [reflexivity|lia].
Qed.

Lemma js_index_app_l {A} (h k : list A) (i : Z) :
  i < Z.of_nat (length h) -> js_index (h ++ k) i = js_index h i.
Proof.
  intros Hi. unfold js_index. destruct (Z.ltb_spec i 0); [reflexivity|].
  apply nth_error_app1. lia.
Qed.

Lemma enc_inj (p q : string) : enc p = enc q -> p = q.
Proof.
  intros H. apply (f_equal (strip_prefix png_prefix)) in H.
  rewrite !strip_prefix_app in H. congruence.
Qed.

Lemma redo_spec blank h i p :
  Forall (fun u => exists q, u = enc q) h ->
  -1 <= i < Z.of_nat (length h) - 1 ->
  exists q, js_index h (i + 1) = Some (enc q) /\
            redo blank (mkEditor h i (Some (Pixels p))) =
            mkEditor h (i + 1) (Some (Pixels q)).
Proof.
  intros He Hi.
  destruct (encoded_lookup h (i + 1) He) as [q Hq]; [lia|].
  exists q; split; [exact Hq|].
  unfold redo; cbn [history historyIndex drawingCanvas].
  destruct (Z.ltb_spec i (Z.of_nat (length h) - 1)) as [_|H]; [|lia].
  now apply redrawEffect_shows.
Qed.

Lemma clear_as_stroke blank st p :
  drawingCanvas st = Some (Pixels p) ->
  handleClearMask blank st = stroke blank (fun _ => blank) st.
Proof. intros Hc. unfold handleClearMask, stroke. now rewrite Hc. Qed.

Lemma coherent_stroke blank f st :
  coherent st -> coherent (stroke blank f st).
Proof.
  intros [(p & Hc & Hp) He].
  pose proof (js_index_Some_lt _ _ _ Hp) as Hi.
  rewrite (stroke_spec blank f st p Hc) by lia.
  set (h := firstn (Z.to_nat (historyIndex st + 1)) (history st)).
  assert (Hlen : length h = Z.to_nat (historyIndex st + 1)).
  { unfold h. rewrite length_firstn. lia. }
  split.
  - exists (f p). cbn [history historyIndex drawingCanvas]. split; [reflexivity|].
    replace (historyIndex st + 1) with (Z.of_nat (length h)) by lia.
    apply js_index_snoc.
  - unfold encoded. cbn [history]. apply Forall_app. split.
    + unfold h. apply Forall_take. exact He.
    + constructor; [now exists (f p)|constructor].
Qed.

Lemma apply_coherent blank op st :
  coherent st -> coherent (apply blank op st).
Proof.
  intros Hst. destruct op as [f| | |]; cbn [apply].
  - now apply coherent_stroke.
  - destruct Hst as [(p & Hc & Hp) He].
    pose proof (js_index_Some_lt _ _ _ Hp) as Hi.
    destruct st as [h i c]; cbn [history historyIndex drawingCanvas] in *.
    subst c.
    destruct (Z.ltb_spec 0 i) as [Hpos|Hle].
    + destruct (undo_spec blank h i p He ltac:(lia)) as (q & Hq & ->).
      split; [exists q; now split|exact He].
    + unfold undo; cbn [historyIndex].
      destruct (Z.ltb_spec 0 i) as [|_]; [lia|].
      split; [exists p; now split|exact He].
  - destruct Hst as [(p & Hc & Hp) He].
    pose proof (js_index_Some_lt _ _ _ Hp) as Hi.
    destruct st as [h i c]; cbn [history historyIndex drawingCanvas] in *.
    subst c.
    destruct (Z.ltb_spec i (Z.of_nat (length h) - 1)) as [Hlt|Hge].
    + destruct (redo_spec blank h i p He ltac:(lia)) as (q & Hq & ->).
      split; [exists q; now split|exact He].
    + unfold redo; cbn [history historyIndex].
      destruct (Z.ltb_spec i (Z.of_nat (length h) - 1)) as [|_]; [lia|].
      split; [exists p; now split|exact He].
  - destruct Hst as [(p & Hc & Hp) He].
    rewrite (clear_as_stroke blank st p Hc).
    apply coherent_stroke. split; [now exists p|exact He].
Qed.

Lemma seeded_coherent blank : coherent (seeded blank).
Proof.
  rewrite seeded_eq. split.
  - exists blank. now split.
  - constructor; [now exists blank|constructor].
Qed.

Lemma run_coherent blank ops : forall st,
  coherent st -> coherent (run blank ops st).
Proof.
  induction ops as [|op ops IH]; intros st Hst; [exact Hst|].
  apply IH. now apply apply_coherent.
Qed.

(** Undo and redo are inverse to each other, at any point of a session (any
    strokes, undos, redos and clears after the blank snapshot was seeded): an
    undo that has a snapshot to go back to is cancelled by a redo, and a redo
    that has one to go forward to is cancelled by an undo; history, cursor
    and canvas are what they were. *)
Theorem undo_redo_round_trip (blank : string) (ops : list MaskOp) :
  let st := run blank ops (seeded blank) in
  (0 < historyIndex st -> redo blank (undo blank st) = st) /\
  (historyIndex st < Z.of_nat (length (history st)) - 1 ->
   undo blank (redo blank st) = st).
Proof.
  intros st.
  destruct (run_coherent blank ops _ (seeded_coherent blank))
    as [(p & Hc & Hp) He].
  fold st in Hc, Hp, He.
  pose proof (js_index_Some_lt _ _ _ Hp) as Hi.
  destruct st as [h i c]; cbn [history historyIndex drawingCanvas] in *.
  subst c. split; intros Hgo.
  - destruct (undo_spec blank h i p He ltac:(lia)) as (q & Hq & ->).
    destruct (redo_spec blank h (i - 1) q He ltac:(lia)) as (q' & Hq' & ->).
    replace (i - 1 + 1) with i in * by lia.
    assert (p = q') as <- by (apply enc_inj; congruence). reflexivity.
  - destruct (redo_spec blank h i p He ltac:(lia)) as (q & Hq & ->).
    destruct (undo_spec blank h (i + 1) q He ltac:(lia)) as (q' & Hq' & ->).
    replace (i + 1 - 1) with i in * by lia.
    assert (p = q') as <- by (apply enc_inj; congruence). reflexivity.
Qed.

Lemma undo_redo_round_trip_witness :
  let st := run "" [Stroke brush_a; Stroke brush_b; Undo] (seeded "") in
  0 < historyIndex st /\
  historyIndex st < Z.of_nat (length (history st)) - 1 /\
  redo "" (undo "" st) = st /\ undo "" (redo "" st) = st.
Proof.
  pose proof (undo_redo_round_trip ""
                [Stroke brush_a; Stroke brush_b; Undo]) as [H1 H2].
  assert (Hlo : 0 < historyIndex
            (run "" [Stroke brush_a; Stroke brush_b; Undo] (seeded "")))
    by (vm_compute; reflexivity).
  assert (Hhi : historyIndex
            (run "" [Stroke brush_a; Stroke brush_b; Undo] (seeded ""))
          < Z.of_nat (length (history
            (run "" [Stroke brush_a; Stroke brush_b; Undo] (seeded "")))) - 1)
    by (vm_compute; reflexivity).
  split; [exact Hlo|]. split; [exact Hhi|].
  split; [exact (H1 Hlo)|exact (H2 Hhi)].
Defined.

(** A commit is a stroke or "Clear mask". *)
Definition commits (op : MaskOp) : bool :=
  match op with
  | Stroke _ | Clear => true
  | Undo | Redo => false
  end.

(** At any point of a session after the blank snapshot was seeded (any
    strokes, undos, redos and clears from the seeded editor), one undo takes
    back the stroke or the clearing just committed: the canvas shows what it
    showed before, the cursor is where it was, and the commit can be brought
    back by redo. *)
Theorem undo_reverts_last_commit (blank : string) (ops : list MaskOp)
    (op : MaskOp) :
  commits op = true ->
  let st := run blank ops (seeded blank) in
  displayed (undo blank (apply blank op st)) = displayed st /\
  historyIndex (undo blank (apply blank op st)) = historyIndex st /\
  redo blank (undo blank (apply blank op st)) = apply blank op st.
Proof.
  intros Hop st.
  destruct (run_coherent blank ops _ (seeded_coherent blank))
    as [(p & Hc & Hp) He].
  fold st in Hc, Hp, He.
  pose proof (js_index_Some_lt _ _ _ Hp) as Hi.
  assert (Hstroke : exists f, apply blank op st = stroke blank f st).
  { destruct op as [f| | |]; try discriminate.
    - now exists f.
    - exists (fun _ => blank). now apply (clear_as_stroke blank st p). }
  destruct Hstroke as [f ->].
  rewrite (stroke_spec blank f st p Hc) by lia.
  set (h := firstn (Z.to_nat (historyIndex st + 1)) (history st)).
  assert (Hlen : length h = Z.to_nat (historyIndex st + 1)).
  { unfold h. rewrite length_firstn. lia. }
  assert (He' : Forall (fun u => exists q, u = enc q) (h ++ [enc (f p)])).
  { apply Forall_app. split.
    - unfold h. apply Forall_take. exact He.
    - constructor; [now exists (f p)|constructor]. }
  assert (Hp' : js_index (h ++ [enc (f p)]) (historyIndex st) = Some (enc p)).
  { rewrite js_index_app_l by lia. unfold h.
    rewrite js_index_firstn by lia. exact Hp. }
  destruct (undo_spec blank (h ++ [enc (f p)]) (historyIndex st + 1) (f p) He')
    as (q & Hq & ->).
  { rewrite length_app. cbn [length]. lia. }
  replace (historyIndex st + 1 - 1) with (historyIndex st) in * by lia.
  assert (q = p) as ->.
  { apply enc_inj. congruence. }
  unfold displayed. cbn [drawingCanvas historyIndex]. rewrite Hc.
  split; [reflexivity|]. split; [reflexivity|].
  destruct (redo_spec blank (h ++ [enc (f p)]) (historyIndex st) p He')
    as (q & Hq' & ->).
  { rewrite length_app. cbn [length]. lia. }
  assert (q = f p) as ->; [|reflexivity].
  replace (historyIndex st + 1) with (Z.of_nat (length h)) in Hq' by lia.
  rewrite js_index_snoc in Hq'. apply enc_inj. congruence.
Qed.

Lemma undo_reverts_last_commit_witness :
  let st := run "" [Stroke brush_a; Stroke brush_b] (seeded "") in
  displayed (undo "" (handleClearMask "" st))
    = Some "data:image/png;base64,ab" /\
  redo "" (undo "" (handleClearMask "" st)) = handleClearMask "" st.
Proof.
  pose proof (undo_reverts_last_commit ""
                [Stroke brush_a; Stroke brush_b] Clear eq_refl)
    as (Hd & _ & Hr).
  split; [exact Hd|exact Hr].
Defined.

(** Before the blank snapshot is seeded there is nothing to go back to: a
    first stroke on the editor as opened leaves the cursor at 0, where undo
    does nothing. *)
Example stroke_before_seeding_is_not_undone :
  let st := stroke "" brush_a (initial (Some (Pixels ""))) in
  historyIndex st = 0 /\ undo "" st = st.
Proof. split; reflexivity. Qed.

End MaskHistory.

(** ** The remote image service: generate, edit, enhance, remove background *)

Module GeminiService.

(** *** Strings *)

(** White space that [String.prototype.trim] strips (the ASCII part:
    tab, line feed, vertical tab, form feed, carriage return, space). *)
Definition js_whitespace (a : ascii) : bool :=
  let n := nat_of_ascii a in
  ((9 <=? n)%nat && (n <=? 13)%nat) || (n =? 32)%nat.

Fixpoint trimStart (s : string) : string :=
  match s with
  | EmptyString => EmptyString
  | String a s' => if js_whitespace a then trimStart s' else s
  end.

Fixpoint trimEnd (s : string) : string :=
  match s with
  | EmptyString => EmptyString
  | String a s' =>
      match trimEnd s' with
      | EmptyString => if js_whitespace a then EmptyString else String a EmptyString
      | t => String a t
      end
  end.

Definition trim (s : string) : string := trimEnd (trimStart s).

(** The double quote character, as a string. *)
Definition dquote : string := String (ascii_of_nat 34) EmptyString.

(** Truthiness of a string value: defined and not empty. *)
Definition truthy (s : option string) : bool :=
  match s with
  | Some (String _ _) => true
  | _ => false
  end.

(** [hay.includes(needle)], as a proposition. *)
Definition includes (needle hay : string) : Prop :=
  exists pre post, hay = pre +:+ needle +:+ post.

(** *** Data *)

Record ImageData := mkImageData { mimeType : string; data : string }.

Inductive Role := USER | MODEL | ERROR.

(** The fields of a conversation message that generateImage reads. *)
Record Message := mkMessage {
  id : string;
  role : Role;
  text : option string
}.

Inductive AspectRatio := Ratio_1_1 | Ratio_16_9 | Ratio_9_16.

Definition aspectRatio_string (r : AspectRatio) : string :=
  match r with
  | Ratio_1_1 => "1:1"
  | Ratio_16_9 => "16:9"
  | Ratio_9_16 => "9:16"
  end.

Inductive GenerationStyle :=
| Default | Photorealistic | Anime | Illustration | Aquarela | Cyberpunk
| Fantasia | PixelArt | Minimalista | Modelo3D | Isometrico | ArteAbstrata
| ArteVintage | ArteNoir.

(** The [stylePrefix] table; it has no entry for ['Default'], which
    generateImage never looks up. *)
Definition stylePrefix (s : GenerationStyle) : option string :=
  match s with
  | Default => None
  | Photorealistic => Some "A photorealistic image of"
  | Anime => Some "An anime style image of"
  | Illustration => Some "An illustration of"
  | Aquarela => Some "A watercolor painting of"
  | Cyberpunk => Some "A cyberpunk style image of"
  | Fantasia => Some "A fantasy style image of"
  | PixelArt => Some "Pixel art of"
  | Minimalista => Some "A minimalist line art drawing of"
  | Modelo3D => Some "A 3D model render of"
  | Isometrico => Some "An isometric style image of"
  | ArteAbstrata => Some "An abstract painting representing"
  | ArteVintage => Some "A vintage photograph of"
  | ArteNoir => Some "A film noir style image of"
  end.

(** What is sent to [ai.models.generateContent]. *)
Inductive RequestPart :=
| InlinePart (image : ImageData)
| TextPart (t : string).

Record Content := mkContent {
  contentRole : option string;
  contentParts : list RequestPart
}.

Record Request := mkRequest {
  model : string;
  contents : list Content
}.

(** What comes back. *)
Record Part := mkPart {
  inlineData : option ImageData;
  partText : option string
}.

Record Candidate := mkCandidate {
  content : option (option (list Part));   (* content?.parts *)
  finishReason : option string
}.

Record Response := mkResponse {
  candidates : option (list Candidate);
  responseText : option string             (* the [text] accessor *)
}.

(** A thrown JavaScript value, as far as the catch blocks inspect it:
    [apiMessage] is [error.error.message] when the value is an object with
    an [error] object that has a [message]; [errorMessage] is
    [error.message] when the value is an instance of [Error]. *)
Record Thrown := mkThrown {
  apiMessage : option string;
  errorMessage : option string
}.

(** [new Error(m)]. *)
Definition Error (m : string) : Thrown :=
  {| apiMessage := None; errorMessage := Some m |}.

(** The outcome of an awaited promise. *)
Inductive Outcome (A : Type) :=
| Resolved (a : A)
| Rejected (e : Thrown).
Arguments Resolved {A} a.
Arguments Rejected {A} e.

Definition editModel : string := "gemini-2.5-flash-image".
Definition generationModelWithMemory : string := "gemini-2.5-flash-image".

Definition mapRoleForGemini (r : Role) : string :=
  match r with
  | USER => "user"
  | MODEL => "model"
  | ERROR => "user"
  end.

(** [response.candidates?.[0]?.content?.parts || []]. *)
Definition responseParts (r : Response) : list Part :=
  match candidates r with
  | Some (c :: _) =>
      match content c with
      | Some (Some ps) => ps
      | _ => []
      end
  | _ => []
  end.

(** [response.candidates?.[0]?.finishReason]. *)
Definition responseFinishReason (r : Response) : option string :=
  match candidates r with
  | Some (c :: _) => finishReason c
  | _ => None
  end.

(** The loop over the parts: the first part that carries inline data. *)
Fixpoint firstImage (ps : list Part) : option ImageData :=
  match ps with
  | [] => None
  | p :: ps' =>
      match inlineData p with
      | Some d => Some {| mimeType := mimeType d; data := data d |}
      | None => firstImage ps'
      end
  end.

(** The message built when no part carries an image. *)
Definition noImageMessage (fallback : string) (r : Response) : string :=
  let errorMessage0 :=
    match responseFinishReason r with
    | Some fr =>
        if truthy (Some fr) && negb (String.eqb fr "STOP")
        then "Image generation failed with reason: " +:+ fr +:+ "."
        else fallback
    | None => fallback
    end in
  match responseText r with
  | Some t =>
      if truthy (Some t) && truthy (Some (trim t))
      then errorMessage0 +:+ " The model responded with: " +:+ dquote
             +:+ trim t +:+ dquote
      else errorMessage0
  | None => errorMessage0
  end.

(** The catch block of generateImage and editImage: whatever was thrown
    is thrown again as a fresh [Error]. *)
Definition rethrow (unexpected : string) (e : Thrown) : Thrown :=
  match apiMessage e with
  | Some m => Error m
  | None =>
      match errorMessage e with
      | Some m => Error m
      | None => Error unexpected
      end
  end.

Section Service.

(** [ai.models.generateContent], the external collaborator. *)
Variable generateContent : Request -> Outcome Response.

Definition generateRequest (prompt : string) (aspectRatio : AspectRatio)
    (style : GenerationStyle) (negativePrompt : string)
    (history : list Message) : Request :=
  let finalPrompt :=
    match style with
    | Default => prompt
    | _ => default "undefined" (stylePrefix style) +:+ " " +:+ prompt
    end in
  let finalPrompt :=
    finalPrompt +:+ String (ascii_of_nat 10) (String (ascii_of_nat 10)
      ("- Desired aspect ratio: " +:+ aspectRatio_string aspectRatio)) in
  let finalPrompt :=
    if truthy (Some (trim negativePrompt))
    then finalPrompt +:+ String (ascii_of_nat 10)
           ("- Negative prompt (what to avoid): " +:+ trim negativePrompt)
    else finalPrompt in
  let kept msg :=
    match role msg with
    | USER | MODEL => truthy (text msg) && negb (String.eqb (id msg) "initial")
    | ERROR => false
    end in
  let contents :=
    map (fun msg => {| contentRole := Some (mapRoleForGemini (role msg));
                       contentParts := [TextPart (default "" (text msg))] |})
        (List.filter kept history) in
  {| model := generationModelWithMemory;
     contents := contents ++
       [{| contentRole := Some "user"; contentParts := [TextPart finalPrompt] |}] |}.

Definition generateImage (prompt : string) (aspectRatio : AspectRatio)
    (style : GenerationStyle) (negativePrompt : string)
    (history : list Message) : Outcome ImageData :=
  let unexpected :=
    "Failed to generate image due to an unexpected error. Please try again." in
  match generateContent
          (generateRequest prompt aspectRatio style negativePrompt history) with
  | Rejected e => Rejected (rethrow unexpected e)
  | Resolved response =>
      match firstImage (responseParts response) with
      | Some image => Resolved image
      | None =>
          let errorMessage :=
            noImageMessage
              ("The AI did not return an image. This might be due to a safety "
               +:+ "filter or an issue with the prompt. Please try rephrasing.")
              response in
          Rejected (rethrow unexpected (Error errorMessage))
      end
  end.

Definition editRequest (prompt : string) (image : ImageData)
    (mask : option ImageData) : Request :=
  let parts := [InlinePart {| mimeType := mimeType image; data := data image |};
                TextPart prompt] in
  let parts :=
    match mask with
    | Some m => parts ++ [InlinePart {| mimeType := mimeType m; data := data m |}]
    | None => parts
    end in
  {| model := editModel;
     contents := [{| contentRole := None; contentParts := parts |}] |}.

Definition editImage (prompt : string) (image : ImageData)
    (mask : option ImageData) : Outcome ImageData :=
  let unexpected := "Failed to edit image. An unknown error occurred." in
  match generateContent (editRequest prompt image mask) with
  | Rejected e => Rejected (rethrow unexpected e)
  | Resolved response =>
      match firstImage (responseParts response) with
      | Some image => Resolved image
      | None =>
          let errorMessage :=
            noImageMessage "No edited image data found in the response."
                           response in
          Rejected (rethrow unexpected (Error errorMessage))
      end
  end.

Definition ENHANCE_PROMPT : string :=
  "Enhance this image, improving quality, details, and clarity. "
  +:+ "Make it sharper and more vibrant without altering the main subject.".

Definition enhanceImage (image : ImageData) : Outcome ImageData :=
  match editImage ENHANCE_PROMPT image None with
  | Resolved r => Resolved r
  | Rejected e =>
      match errorMessage e with
      | Some m => Rejected (Error ("Enhancement failed: " +:+ m))
      | None =>
          Rejected (Error "Failed to enhance image due to an unexpected error.")
      end
  end.

Definition REMOVE_BACKGROUND_PROMPT : string :=
  "Remove the background of this image, making it transparent. "
  +:+ "The main subject should be preserved perfectly. "
  +:+ "The output must be a PNG with a transparent background.".

Definition removeBackground (image : ImageData) : Outcome ImageData :=
  match editImage REMOVE_BACKGROUND_PROMPT image None with
  | Resolved r => Resolved r
  | Rejected e =>
      match errorMessage e with
      | Some m => Rejected (Error ("Background removal failed: " +:+ m))
      | None =>
          Rejected (Error
            "Failed to remove image background due to an unexpected error.")
      end
  end.

End Service.

(** *** Properties *)

Lemma append_assoc (a b c : string) : (a +:+ b) +:+ c = a +:+ (b +:+ c).
Proof.
  induction a as [|x a IH]; [reflexivity|].
  change (String x ((a +:+ b) +:+ c) = String x (a +:+ (b +:+ c))).
  now rewrite IH.
Qed.

Lemma includes_empty (hay : string) : includes "" hay.
Proof. exists "", hay. reflexivity. Qed.

Lemma includes_append_r (n a b : string) : includes n a -> includes n (a +:+ b).
Proof.
  intros (pre & post & ->). exists pre, (post +:+ b).
  now rewrite !append_assoc.
Qed.

Lemma includes_middle (pre n post : string) : includes n (pre +:+ n +:+ post).
Proof. now exists pre, post. Qed.

Lemma truthy_false_empty (s : string) : truthy (Some s) = false -> s = "".
Proof. destruct s; [reflexivity|discriminate]. Qed.

Lemma firstImage_None (ps : list Part) :
  firstImage ps = None <-> Forall (fun p => inlineData p = None) ps.
Proof.
  induction ps as [|p ps IH]; cbn.
  - split; [constructor|reflexivity].
  - destruct (inlineData p) as [d|] eqn:E.
    + split; [discriminate|]. intros H. inversion H; congruence.
    + rewrite IH. split; [now constructor|]. intros H. now inversion H.
Qed.

(** The image returned is the inline data of the first part that has any. *)
Lemma firstImage_Some (ps : list Part) (image : ImageData) :
  firstImage ps = Some image <->
  exists pre p post,
    ps = pre ++ p :: post /\
    Forall (fun q => inlineData q = None) pre /\
    inlineData p = Some image.
Proof.
  induction ps as [|p ps IH]; cbn.
  - split; [discriminate|]. intros (pre & q & post & H & _).
    destruct pre; discriminate.
  - destruct (inlineData p) as [d|] eqn:E.
    + split.
      * intros [= <-]. exists [], p, ps. destruct d. now repeat split.
      * intros (pre & q & post & H & Hpre & Hq).
        destruct pre as [|x pre]; cbn in H; injection H as -> ->.
        -- rewrite E in Hq. injection Hq as ->. now destruct image.
        -- inversion Hpre; congruence.
    + rewrite IH. split.
      * intros (pre & q & post & -> & Hpre & Hq).
        exists (p :: pre), q, post. repeat split; auto.
      * intros (pre & q & post & H & Hpre & Hq).
        destruct pre as [|x pre]; cbn in H; injection H as -> ->.
        -- congruence.
        -- inversion Hpre; subst. now exists pre, q, post.
Qed.

(** What the message built for a response without image says. *)
Lemma noImageMessage_surfaces (fallback : string) (r : Response) :
  let m := noImageMessage fallback r in
  (forall fr, responseFinishReason r = Some fr -> fr <> "STOP" ->
              includes fr m) /\
  (forall t, responseText r = Some t -> includes (trim t) m) /\
  (forall t, responseText r = Some t -> trim t <> "" ->
     exists m0, m = m0 +:+ " The model responded with: " +:+ dquote
                     +:+ trim t +:+ dquote).
Proof.
  cbn zeta. unfold noImageMessage.
  set (m0 := match responseFinishReason r with
             | Some fr => _ | None => fallback end).
  assert (H0 : forall fr, responseFinishReason r = Some fr -> fr <> "STOP" ->
                          includes fr m0).
  { intros fr Hfr Hstop. unfold m0. rewrite Hfr.
    destruct (truthy (Some fr)) eqn:Ht; cbn [andb].
    - destruct (String.eqb_spec fr "STOP") as [->|_]; [contradiction|].
      cbn [negb]. apply includes_middle.
    - apply truthy_false_empty in Ht. subst fr. apply includes_empty. }
  split; [|split].
  - intros fr Hfr Hstop. specialize (H0 fr Hfr Hstop).
    destruct (responseText r) as [t|]; [|exact H0].
    destruct (truthy (Some t) && truthy (Some (trim t))); [|exact H0].
    now apply includes_append_r.
  - intros t ->.
    destruct (truthy (Some t) && truthy (Some (trim t))) eqn:Ht.
    + exists (m0 +:+ " The model responded with: " +:+ dquote), dquote.
      now rewrite !append_assoc.
    + assert (trim t = "") as ->; [|apply includes_empty].
      apply andb_false_iff in Ht. destruct Ht as [Ht|Ht].
      * apply truthy_false_empty in Ht. now subst t.
      * now apply truthy_false_empty in Ht.
  - intros t -> Hne. exists m0.
    assert (truthy (Some (trim t)) = true) as Ht2
      by (destruct (trim t); [contradiction|reflexivity]).
    assert (truthy (Some t) = true) as Ht1.
    { destruct t; [now cbn in Hne|reflexivity]. }
    now rewrite Ht1, Ht2.
Qed.

Lemma rethrow_Error (unexpected m : string) : rethrow unexpected (Error m) = Error m.
Proof. reflexivity. Qed.

Lemma rethrow_is_Error (unexpected : string) (e : Thrown) :
  exists m, rethrow unexpected e = Error m.
Proof.
  unfold rethrow. destruct (apiMessage e); [eauto|].
  destruct (errorMessage e); eauto.
Qed.

(** What a response carries, read off its structure: the parts of the
    content of its first candidate (none where a level is missing) and the
    finish reason of that candidate. *)
Inductive Carries : Response -> list Part -> option string -> Prop :=
| carries_parts (parts : list Part) (reason : option string)
    (others : list Candidate) (t : option string) :
    Carries {| candidates :=
                 Some ({| content := Some (Some parts);
                          finishReason := reason |} :: others);
               responseText := t |} parts reason
| carries_no_parts (reason : option string) (others : list Candidate)
    (t : option string) :
    Carries {| candidates :=
                 Some ({| content := Some None;
                          finishReason := reason |} :: others);
               responseText := t |} [] reason
| carries_no_content (reason : option string) (others : list Candidate)
    (t : option string) :
    Carries {| candidates :=
                 Some ({| content := None;
                          finishReason := reason |} :: others);
               responseText := t |} [] reason
| carries_no_candidate (t : option string) :
    Carries {| candidates := Some []; responseText := t |} [] None
| carries_no_candidates (t : option string) :
    Carries {| candidates := None; responseText := t |} [] None.

(** The failure contract of generate and edit, for a call whose response
    carried [parts], the finish reason [reason] and the text [t], and that
    ended in [result]. *)
Definition no_image_contract (parts : list Part) (reason : option string)
    (t : option string) (result : Outcome ImageData) : Prop :=
  ((exists e, result = Rejected e) <->
   Forall (fun p => inlineData p = None) parts) /\
  (forall pre p post image,
     parts = pre ++ p :: post ->
     Forall (fun q => inlineData q = None) pre ->
     inlineData p = Some image ->
     result = Resolved image) /\
  (forall e, result = Rejected e ->
     exists m, e = Error m /\
       (forall fr, reason = Some fr -> fr <> "STOP" -> includes fr m) /\
       (forall u, t = Some u -> includes (trim u) m) /\
       (forall u, t = Some u -> trim u <> "" ->
          exists m0, m = m0 +:+ " The model responded with: " +:+ dquote
                          +:+ trim u +:+ dquote)) /\
  (Forall (fun p => inlineData p = None) parts ->
   reason = Some "SAFETY" ->
   exists m, result = Rejected (Error m) /\ includes "SAFETY" m).

(** The accessors of the code read what the response carries. *)
Lemma Carries_read (response : Response) (parts : list Part)
    (reason : option string) :
  Carries response parts reason ->
  responseParts response = parts /\ responseFinishReason response = reason.
Proof. intros H. destruct H; split; reflexivity. Qed.

(** Both operations end the same way once the response is there. *)
Lemma response_handling (unexpected fallback : string) (response : Response) :
  no_image_contract (responseParts response) (responseFinishReason response)
    (responseText response)
    (match firstImage (responseParts response) with
     | Some image => Resolved image
     | None =>
         Rejected (rethrow unexpected (Error (noImageMessage fallback response)))
     end).
Proof.
  pose proof (noImageMessage_surfaces fallback response) as (Hfr & Htx & Hap).
  unfold no_image_contract.
  destruct (firstImage (responseParts response)) as [image|] eqn:E.
  - assert (Hno : ~ Forall (fun p => inlineData p = None) (responseParts response)).
    { intros H. apply firstImage_None in H. congruence. }
    split; [|split; [|split]].
    + split; [intros [e He]; discriminate|intros H; contradiction].
    + intros pre p post image' Hps Hpre Hp.
      assert (firstImage (responseParts response) = Some image') as H
        by (apply firstImage_Some; now exists pre, p, post).
      congruence.
    + intros e He. discriminate.
    + intros H. contradiction.
  - apply firstImage_None in E. rewrite rethrow_Error.
    split; [|split; [|split]].
    + split; [intros _; exact E|intros _; eauto].
    + intros pre p post image Hps Hpre Hp. rewrite Hps in E.
      apply Forall_app in E. destruct E as [_ E]. inversion E; congruence.
    + intros e [= <-]. eexists; split; [reflexivity|]. auto.
    + intros _ Hs. eexists; split; [reflexivity|].
      apply Hfr; [exact Hs|discriminate].
Qed.

(** C8. For a response of the service that carries the parts [parts], the
    finish reason [reason] and the text [responseText], generateImage and
    editImage throw exactly when no part carries an image, and otherwise
    return the first part that does. The message thrown contains every
    finish reason other than STOP and the trimmed response text (appended at
    the end when it is not empty); a response without image whose finish
    reason is SAFETY yields a message that contains SAFETY. *)
Theorem remote_no_image_failure (generateContent : Request -> Outcome Response)
    (response : Response) (parts : list Part) (reason : option string) :
  Carries response parts reason ->
  (forall prompt aspectRatio style negativePrompt history,
     generateContent
       (generateRequest prompt aspectRatio style negativePrompt history)
       = Resolved response ->
     no_image_contract parts reason (responseText response)
       (generateImage generateContent prompt aspectRatio style negativePrompt
                      history)) /\
  (forall prompt image mask,
     generateContent (editRequest prompt image mask) = Resolved response ->
     no_image_contract parts reason (responseText response)
       (editImage generateContent prompt image mask)).
Proof.
  intros Hc. destruct (Carries_read response parts reason Hc) as [<- <-].
  split.
  - intros prompt aspectRatio style negativePrompt history H.
    unfold generateImage. rewrite H. apply response_handling.
  - intros prompt image mask H.
    unfold editImage. rewrite H. apply response_handling.
Qed.

(** A response whose second and third part carry an image, and one stopped
    for safety that only carries a refusal. *)
Definition twoImages : Response :=
  {| candidates :=
       Some [{| content := Some (Some
                  [ {| inlineData := None;
                       partText := Some "Here is your image." |};
                    {| inlineData := Some (mkImageData "image/png" "AAAA");
                       partText := None |};
                    {| inlineData := Some (mkImageData "image/jpeg" "BBBB");
                       partText := None |} ]);
                finishReason := Some "STOP" |}];
     responseText := Some "Here is your image." |}.

Definition refused : Response :=
  {| candidates :=
       Some [{| content := Some (Some
                  [ {| inlineData := None;
                       partText := Some "I cannot draw that." |} ]);
                finishReason := Some "SAFETY" |}];
     responseText := Some " I cannot draw that. " |}.

Lemma remote_no_image_failure_witness :
  generateImage (fun _ => Resolved twoImages) "a red cube" Ratio_1_1 Default
                "" []
    = Resolved (mkImageData "image/png" "AAAA") /\
  (exists m,
     editImage (fun _ => Resolved refused) "add a hat"
               (mkImageData "image/png" "AAAA") None
       = Rejected (Error m) /\
     includes "SAFETY" m /\ includes "I cannot draw that." m).
Proof.
  split.
  - destruct (remote_no_image_failure (fun _ => Resolved twoImages) twoImages
                _ _ (carries_parts _ _ _ _)) as [Hg _].
    destruct (Hg "a red cube" Ratio_1_1 Default "" [] eq_refl)
      as (_ & Himage & _).
    apply (Himage [ {| inlineData := None;
                       partText := Some "Here is your image." |} ]
                  {| inlineData := Some (mkImageData "image/png" "AAAA");
                     partText := None |}
                  [ {| inlineData := Some (mkImageData "image/jpeg" "BBBB");
                       partText := None |} ]);
      [reflexivity|repeat constructor|reflexivity].
  - destruct (remote_no_image_failure (fun _ => Resolved refused) refused
                _ _ (carries_parts _ _ _ _)) as [_ He].
    destruct (He "add a hat" (mkImageData "image/png" "AAAA") None eq_refl)
      as (_ & _ & Hmsg & Hsafety).
    destruct Hsafety as (m & Hm & Hs); [repeat constructor|reflexivity|].
    exists m. split; [exact Hm|]. split; [exact Hs|].
    destruct (Hmsg _ Hm) as (m' & [= <-] & _ & Ht & _).
    apply (Ht " I cannot draw that. " eq_refl).
Defined.

Lemma editImage_rejects_with_Error generateContent prompt image mask e :
  editImage generateContent prompt image mask = Rejected e ->
  exists m, e = Error m.
Proof.
  unfold editImage. destruct (generateContent _) as [response|e0].
  - destruct (firstImage _); [discriminate|].
    intros [= <-]. eauto.
  - intros [= <-]. apply rethrow_is_Error.
Qed.

(** C9. enhanceImage and removeBackground are editImage at their fixed
    prompts without mask: a result is passed on, and every failure of
    editImage, whose message is [m], is thrown again with the message
    "Enhancement failed: m", respectively "Background removal failed: m". *)
Theorem stage_error_rewrapping (generateContent : Request -> Outcome Response)
    (image : ImageData) :
  (forall r, editImage generateContent ENHANCE_PROMPT image None = Resolved r ->
             enhanceImage generateContent image = Resolved r) /\
  (forall e, editImage generateContent ENHANCE_PROMPT image None = Rejected e ->
     exists m, e = Error m /\
       enhanceImage generateContent image =
       Rejected (Error ("Enhancement failed: " +:+ m))) /\
  (forall r,
     editImage generateContent REMOVE_BACKGROUND_PROMPT image None = Resolved r ->
     removeBackground generateContent image = Resolved r) /\
  (forall e,
     editImage generateContent REMOVE_BACKGROUND_PROMPT image None = Rejected e ->
     exists m, e = Error m /\
       removeBackground generateContent image =
       Rejected (Error ("Background removal failed: " +:+ m))).
Proof.
  split; [|split; [|split]].
  - intros r H. unfold enhanceImage. now rewrite H.
  - intros e H. destruct (editImage_rejects_with_Error _ _ _ _ _ H) as [m ->].
    exists m. split; [reflexivity|]. unfold enhanceImage. now rewrite H.
  - intros r H. unfold removeBackground. now rewrite H.
  - intros e H. destruct (editImage_rejects_with_Error _ _ _ _ _ H) as [m ->].
    exists m. split; [reflexivity|]. unfold removeBackground. now rewrite H.
Qed.

(** A service whose call fails with a structured API error. *)
Definition quotaExceeded (_ : Request) : Outcome Response :=
  Rejected {| apiMessage := Some "Quota exceeded"; errorMessage := None |}.

Lemma stage_error_rewrapping_witness :
  enhanceImage quotaExceeded (mkImageData "image/png" "AAAA") =
    Rejected (Error "Enhancement failed: Quota exceeded") /\
  removeBackground quotaExceeded (mkImageData "image/png" "AAAA") =
    Rejected (Error "Background removal failed: Quota exceeded").
Proof.
  pose proof (stage_error_rewrapping quotaExceeded
                (mkImageData "image/png" "AAAA")) as (_ & He & _ & Hr).
  destruct (He (Error "Quota exceeded") eq_refl) as (m & Hm & H1).
  destruct (Hr (Error "Quota exceeded") eq_refl) as (m' & Hm' & H2).
  injection Hm as <-. injection Hm' as <-. now split.
Defined.

(** ** Further properties of the service *)

Lemma append_empty_r (s : string) : s +:+ "" = s.
Proof.
  induction s as [|a s IH]; [reflexivity|].
  change (String a (s +:+ "") = String a s). now rewrite IH.
Qed.

Lemma includes_refl (s : string) : includes s s.
Proof. exists "", "". now rewrite append_empty_r. Qed.

Lemma includes_append_l (n a b : string) : includes n b -> includes n (a +:+ b).
Proof.
  intros (pre & post & ->). exists (a +:+ pre), post.
  now rewrite !append_assoc.
Qed.

(** The request generateImage sends. Its last content is a user turn whose
    text contains the prompt as typed, the requested aspect ratio, the
    prefix of the chosen style and the trimmed negative prompt. The contents
    before it are turns of the conversation, in its order: each one carries
    the text, not empty, of a user or model message other than the welcome
    message, under the role 'user' or 'model'; error messages and messages
    without text are never sent. *)
Theorem generate_request_carries_conversation (prompt : string)
    (aspectRatio : AspectRatio) (style : GenerationStyle)
    (negativePrompt : string) (history : list Message) :
  exists earlier finalPrompt,
    contents (generateRequest prompt aspectRatio style negativePrompt history)
      = earlier ++ [mkContent (Some "user") [TextPart finalPrompt]] /\
    includes prompt finalPrompt /\
    includes ("- Desired aspect ratio: " +:+ aspectRatio_string aspectRatio)
             finalPrompt /\
    (forall p, stylePrefix style = Some p -> includes p finalPrompt) /\
    includes (trim negativePrompt) finalPrompt /\
    (length earlier <= length history)%nat /\
    Forall (fun c =>
              exists msg t,
                In msg history /\ text msg = Some t /\ t <> "" /\
                role msg <> ERROR /\ id msg <> "initial" /\
                contentRole c = Some (mapRoleForGemini (role msg)) /\
                (contentRole c = Some "user" \/ contentRole c = Some "model") /\
                contentParts c = [TextPart t])
           earlier.
Proof.
  unfold generateRequest. cbn [contents].
  set (styled := match style with Default => prompt | _ => _ end).
  set (sized := styled +:+ _).
  set (final := if truthy (Some (trim negativePrompt)) then _ else sized).
  eexists _, final. split; [reflexivity|].
  assert (Hstyled : includes prompt styled /\
            forall p, stylePrefix style = Some p -> includes p styled).
  { unfold styled. destruct style; cbn [stylePrefix default];
      (split; [first [apply includes_refl
                     |apply includes_append_l, includes_append_l,
                        includes_refl]
              |intros p [= <-]; apply includes_append_r, includes_refl
                 || discriminate]). }
  destruct Hstyled as [Hprompt Hprefix].
  assert (Hsized : forall n, includes n sized -> includes n final).
  { intros n Hn. unfold final.
    destruct (truthy (Some (trim negativePrompt)));
      [now apply includes_append_r|exact Hn]. }
  split; [apply Hsized, includes_append_r, Hprompt|].
  split.
  { apply Hsized. unfold sized.
    exists (styled +:+ String (ascii_of_nat 10) (String (ascii_of_nat 10) "")),
           "".
    rewrite append_empty_r, !append_assoc. reflexivity. }
  split; [intros p Hp; apply Hsized, includes_append_r; now apply Hprefix|].
  split.
  { unfold final. destruct (truthy (Some (trim negativePrompt))) eqn:Ht.
    - apply includes_append_l.
      change (String (ascii_of_nat 10)
                ("- Negative prompt (what to avoid): " +:+ trim negativePrompt))
        with ((String (ascii_of_nat 10) "- Negative prompt (what to avoid): ")
                +:+ trim negativePrompt).
      apply includes_append_l, includes_refl.
    - apply truthy_false_empty in Ht. rewrite Ht. apply includes_empty. }
  split.
  { rewrite length_map. apply filter_length_le. }
  apply List.Forall_forall. intros c Hc.
  apply in_map_iff in Hc. destruct Hc as (msg & <- & Hmsg).
  apply filter_In in Hmsg. destruct Hmsg as [Hin Hkept].
  cbn beta in Hkept. cbn [contentRole contentParts].
  destruct (text msg) as [t|] eqn:Ht.
  - exists msg, t. cbn [default].
    destruct (role msg) eqn:Hr; try discriminate;
      apply andb_true_iff in Hkept; destruct Hkept as [Ht1 Hid];
      (split; [exact Hin|]); (split; [exact Ht|]);
      (split; [intros ->; discriminate|]);
      (split; [discriminate|]);
      (split; [intros Hi; rewrite Hi in Hid; discriminate|]);
      cbn [mapRoleForGemini]; auto.
  - destruct (role msg); cbn in Hkept; discriminate.
Qed.

(** A failure of the remote call that carries an API error message is
    reported with that message, whatever else the thrown value holds:
    generateImage and editImage throw an Error with the API message,
    enhanceImage and removeBackground one with the API message after their
    stage prefix. *)
Theorem api_error_message_is_reported
    (generateContent : Request -> Outcome Response) (e : Thrown) (m : string) :
  apiMessage e = Some m ->
  (forall prompt aspectRatio style negativePrompt history,
     generateContent
       (generateRequest prompt aspectRatio style negativePrompt history)
       = Rejected e ->
     generateImage generateContent prompt aspectRatio style negativePrompt
                   history = Rejected (Error m)) /\
  (forall prompt image mask,
     generateContent (editRequest prompt image mask) = Rejected e ->
     editImage generateContent prompt image mask = Rejected (Error m)) /\
  (forall image,
     generateContent (editRequest ENHANCE_PROMPT image None) = Rejected e ->
     enhanceImage generateContent image
       = Rejected (Error ("Enhancement failed: " +:+ m))) /\
  (forall image,
     generateContent (editRequest REMOVE_BACKGROUND_PROMPT image None)
       = Rejected e ->
     removeBackground generateContent image
       = Rejected (Error ("Background removal failed: " +:+ m))).
Proof.
  intros Hm. repeat split.
  - intros prompt aspectRatio style negativePrompt history H.
    unfold generateImage. rewrite H. unfold rethrow. now rewrite Hm.
  - intros prompt image mask H.
    unfold editImage. rewrite H. unfold rethrow. now rewrite Hm.
  - intros image H.
    unfold enhanceImage, editImage. rewrite H. unfold rethrow. now rewrite Hm.
  - intros image H.
    unfold removeBackground, editImage. rewrite H. unfold rethrow.
    now rewrite Hm.
Qed.

(** A service whose every call fails with an API error next to an ordinary
    error message. *)
Definition overloaded : Thrown :=
  {| apiMessage := Some "The model is overloaded.";
     errorMessage := Some "got status: 503" |}.

Lemma api_error_message_is_reported_witness :
  enhanceImage (fun _ => Rejected overloaded) (mkImageData "image/png" "AAAA")
  = Rejected (Error "Enhancement failed: The model is overloaded.").
Proof.
  exact (proj1 (proj2 (proj2
    (api_error_message_is_reported (fun _ => Rejected overloaded) overloaded
       "The model is overloaded." eq_refl)))
    (mkImageData "image/png" "AAAA") eq_refl).
Defined.


End GeminiService.

(** ** The persistent message store (IndexedDB object store 'messages') *)

Module MessageStore.

Import GeminiService.

Record GenerationParams := mkGenerationParams {
  aspectRatio : AspectRatio;
  style : GenerationStyle;
  negativePrompt : string
}.

(** [Omit<Message, 'id'>]: what the callers hand to addMessageToDB. *)
Record MessageData := mkMessageData {
  role : Role;
  text : option string;
  imageUrl : option string;
  imageMimeType : option string;
  generationParams : option GenerationParams
}.

(** A record of the object store. Stored records always carry the key the
    store generated for them under the key path ['id']. *)
Record StoredMessage := mkStoredMessage {
  id : N;
  sessionId : string;
  message : MessageData;
  timestamp : Z
}.

(** The database: the records by primary key, and the current number of the
    key generator of the auto-increment store (it starts at 1 and no
    deletion ever lowers it). *)
Record DB := mkDB {
  messages : gmap N StoredMessage;
  keyGenerator : N
}.

Definition emptyDB : DB := {| messages := ∅; keyGenerator := 1 |}.

(** How a promise of the module settles. *)
Inductive Settled (A : Type) :=
| Fulfilled (a : A)
| RejectedWith (reason : string).
Arguments Fulfilled {A} a.
Arguments RejectedWith {A} reason.

(** Stable insertion sort by an integer key: the order of
    [Array.prototype.sort] with comparator [a.k - b.k], and of an index,
    which lists equal index keys by ascending primary key. *)
Fixpoint insert_on {A} (key : A -> Z) (x : A) (l : list A) : list A :=
  match l with
  | [] => [x]
  | y :: l' => if key x <=? key y then x :: l else y :: insert_on key x l'
  end.

Definition sort_on {A} (key : A -> Z) (l : list A) : list A :=
  foldr (insert_on key) [] l.

(** The entries of the 'sessionId' index under one key, by primary key. *)
Definition sessionIndex (sid : string) (db : DB) : list (N * StoredMessage) :=
  sort_on (fun kv => Z.of_N kv.1)
          (filter (fun kv => sessionId kv.2 = sid) (map_to_list (messages db))).

(** addMessageToDB; [now] is [Date.now()] and [ok] tells whether the add
    request succeeds. A failed request leaves the store as it was. *)
Definition addMessageToDB (m : MessageData) (sid : string) (now : Z)
    (ok : bool) (db : DB) : Settled N * DB :=
  if ok then
    let key := keyGenerator db in
    let storedMessage :=
      {| id := key; sessionId := sid; message := m; timestamp := now |} in
    (Fulfilled key,
     {| messages := <[key := storedMessage]> (messages db);
        keyGenerator := key + 1 |})
  else (RejectedWith "Could not add message", db).

Definition getAllMessagesFromDB (sid : string) (ok : bool) (db : DB)
    : Settled (list StoredMessage) :=
  if ok then
    let result := (fun kv => kv.2) <$> sessionIndex sid db in
    Fulfilled (sort_on timestamp result)
  else RejectedWith "Could not retrieve messages".

Definition deleteMessageFromDB (key : N) (ok : bool) (db : DB)
    : Settled unit * DB :=
  if ok then
    (Fulfilled tt,
     {| messages := delete key (messages db); keyGenerator := keyGenerator db |})
  else (RejectedWith "Could not delete message", db).

(** clearAllMessages: the key cursor walks the index entries of the session
    and deletes each record by its primary key. A failed transaction is
    rolled back. *)
Definition clearAllMessages (sid : string) (ok : bool) (db : DB)
    : Settled unit * DB :=
  if ok then
    let primaryKeys := (fun kv => kv.1) <$> sessionIndex sid db in
    (Fulfilled tt,
     {| messages := fold_left (fun store key => delete key store)
                              primaryKeys (messages db);
        keyGenerator := keyGenerator db |})
  else (RejectedWith "Could not clear object store for session", db).

(** The calls a client of the module can make, with how the underlying
    request fares. *)
Inductive StoreOp :=
| Add (m : MessageData) (sid : string) (now : Z) (ok : bool)
| GetAll (sid : string) (ok : bool)
| Delete (key : N) (ok : bool)
| ClearAll (sid : string) (ok : bool).

Definition step (op : StoreOp) (db : DB) : DB :=
  match op with
  | Add m sid now ok => (addMessageToDB m sid now ok db).2
  | GetAll _ _ => db
  | Delete key ok => (deleteMessageFromDB key ok db).2
  | ClearAll sid ok => (clearAllMessages sid ok db).2
  end.

Definition run (ops : list StoreOp) (db : DB) : DB :=
  fold_left (fun d op => step op d) ops db.

(** Every record sits under its own id, below the key generator. *)
Definition well_formed (db : DB) : Prop :=
  forall key r, messages db !! key = Some r ->
                id r = key /\ (key < keyGenerator db)%N.

(** *** Sorting *)

Section Sorting.
Context {A : Type} (key : A -> Z).

Lemma insert_on_Permutation (x : A) (l : list A) :
  insert_on key x l ≡ₚ x :: l.
Proof.
  induction l as [|y l IH]; cbn; [reflexivity|].
  destruct (key x <=? key y); [reflexivity|].
  rewrite IH. apply Permutation_swap.
Qed.

Lemma sort_on_Permutation (l : list A) : sort_on key l ≡ₚ l.
Proof.
  induction l as [|x l IH]; cbn; [reflexivity|].
  now rewrite insert_on_Permutation, IH.
Qed.

Lemma elem_of_sort_on (x : A) (l : list A) : x ∈ sort_on key l <-> x ∈ l.
Proof. now rewrite sort_on_Permutation. Qed.

Definition key_le (a b : A) : Prop := key a <= key b.

#[local] Instance key_le_trans : Transitive key_le.
Proof. unfold key_le. intros a b c. lia. Qed.

Lemma insert_on_HdRel (a x : A) (l : list A) :
  key_le a x -> HdRel key_le a l -> HdRel key_le a (insert_on key x l).
Proof.
  intros Hax Hl. destruct l as [|y l]; cbn; [now constructor|].
  destruct (key x <=? key y); constructor; [exact Hax|].
  now inversion Hl.
Qed.

Lemma insert_on_Sorted (x : A) (l : list A) :
  Sorted key_le l -> Sorted key_le (insert_on key x l).
Proof.
  induction l as [|y l IH]; intros Hl; cbn.
  - repeat constructor.
  - destruct (Z.leb_spec (key x) (key y)) as [Hxy|Hxy].
    + constructor; [exact Hl|now constructor].
    + inversion Hl as [|? ? Hs Hh]; subst. constructor; [now apply IH|].
      apply insert_on_HdRel; [unfold key_le; lia|exact Hh].
Qed.

Lemma sort_on_Sorted (l : list A) : Sorted key_le (sort_on key l).
Proof.
  induction l as [|x l IH]; cbn; [constructor|now apply insert_on_Sorted].
Qed.

(** Lists with the same elements, whose keys identify them, sort alike. *)
Lemma sort_on_unique (l1 l2 : list A) :
  l1 ≡ₚ l2 ->
  (forall x y, x ∈ l1 -> y ∈ l1 -> key x = key y -> x = y) ->
  sort_on key l1 = sort_on key l2.
Proof.
  intros Hp Hinj.
  apply (Sorted_unique_strong key_le); try apply sort_on_Sorted.
  - intros x y Hx Hy Hxy Hyx.
    apply (proj1 (elem_of_sort_on x l1)) in Hx.
    apply (proj1 (elem_of_sort_on y l2)) in Hy.
    rewrite <- Hp in Hy. apply Hinj; auto. unfold key_le in *. lia.
  - now rewrite !sort_on_Permutation.
Qed.

End Sorting.

(** *** The index and the operations *)

Lemma elem_of_sessionIndex (sid : string) (db : DB) (k : N) (r : StoredMessage) :
  (k, r) ∈ sessionIndex sid db <->
  messages db !! k = Some r /\ sessionId r = sid.
Proof.
  unfold sessionIndex.
  rewrite elem_of_sort_on, list_elem_of_filter, elem_of_map_to_list. cbn.
  tauto.
Qed.

Lemma elem_of_getAll (sid : string) (db : DB) (r : StoredMessage) :
  r ∈ sort_on timestamp ((fun kv => kv.2) <$> sessionIndex sid db) <->
  exists k, messages db !! k = Some r /\ sessionId r = sid.
Proof.
  rewrite elem_of_sort_on, list_elem_of_fmap. split.
  - intros ([k r'] & -> & H). apply elem_of_sessionIndex in H. now exists k.
  - intros (k & H). exists (k, r). split; [reflexivity|].
    now apply elem_of_sessionIndex.
Qed.

Lemma lookup_fold_left_delete {V} (ks : list N) : forall (m : gmap N V) j y,
  fold_left (fun store key => delete key store) ks m !! j = Some y <->
  (j ∉ ks) /\ m !! j = Some y.
Proof.
  induction ks as [|k ks IH]; intros m j y; cbn.
  - split; [intros H; split; [apply not_elem_of_nil|exact H]|tauto].
  - rewrite IH, lookup_delete_Some, not_elem_of_cons.
    split; [intros (H1 & H2 & H3)|intros ((H1 & H2) & H3)]; auto.
Qed.

(** A successful clear keeps exactly the records of the other sessions. *)
Lemma clearAllMessages_lookup (sid : string) (db : DB) (k : N) (r : StoredMessage) :
  messages (clearAllMessages sid true db).2 !! k = Some r <->
  messages db !! k = Some r /\ sessionId r <> sid.
Proof.
  cbn. rewrite lookup_fold_left_delete. split.
  - intros [Hn Hk]. split; [exact Hk|]. intros Hs. apply Hn.
    apply list_elem_of_fmap. exists (k, r). split; [reflexivity|].
    now apply elem_of_sessionIndex.
  - intros [Hk Hs]. split; [|exact Hk]. intros Hin.
    apply list_elem_of_fmap in Hin. destruct Hin as ([k' r'] & Hk' & Hin).
    cbn in Hk'. subst k'. apply elem_of_sessionIndex in Hin.
    destruct Hin as [Hr' Hs']. congruence.
Qed.

(** The index under [sid] only depends on the records stored under [sid]. *)
Lemma sessionIndex_ext (sid : string) (db db' : DB) :
  (forall k r, sessionId r = sid ->
     (messages db !! k = Some r <-> messages db' !! k = Some r)) ->
  sessionIndex sid db = sessionIndex sid db'.
Proof.
  intros Hext. unfold sessionIndex. apply sort_on_unique.
  - apply NoDup_Permutation.
    + apply NoDup_filter, NoDup_map_to_list.
    + apply NoDup_filter, NoDup_map_to_list.
    + intros [k r]. rewrite !list_elem_of_filter, !elem_of_map_to_list. cbn.
      split; intros [Hs Hk]; (split; [exact Hs|]); now apply (Hext k r Hs).
  - intros [k r] [k' r']. rewrite !list_elem_of_filter, !elem_of_map_to_list.
    cbn. intros [_ Hk] [_ Hk'] Heq.
    assert (k = k') by lia. subst k'. congruence.
Qed.

Lemma emptyDB_well_formed : well_formed emptyDB.
Proof. intros key r H. cbn in H. now rewrite lookup_empty in H. Qed.

(** What a step can do to the record under a key below the generator:
    nothing, or delete it. The generator never decreases. *)
Lemma step_below (op : StoreOp) (db : DB) (k : N) :
  (k < keyGenerator db)%N ->
  (keyGenerator db <= keyGenerator (step op db))%N /\
  (messages (step op db) !! k = messages db !! k \/
   messages (step op db) !! k = None).
Proof.
  intros Hk. destruct op as [m sid now ok|sid ok|key ok|sid ok]; cbn.
  - destruct ok; cbn; [|split; [lia|now left]].
    split; [lia|]. left. apply lookup_insert_ne. lia.
  - split; [lia|now left].
  - destruct ok; cbn; [|split; [lia|now left]].
    split; [lia|]. destruct (decide (key = k)) as [->|Hne].
    + right. apply lookup_delete_eq.
    + left. now apply lookup_delete_ne.
  - destruct ok; [|cbn; split; [lia|now left]].
    split; [cbn; lia|].
    destruct (messages (clearAllMessages sid true db).2 !! k) as [r|] eqn:E;
      [|now right].
    left. apply clearAllMessages_lookup in E. now destruct E as [-> _].
Qed.

Lemma step_well_formed (op : StoreOp) (db : DB) :
  well_formed db -> well_formed (step op db).
Proof.
  intros Hwf key r.
  destruct op as [m sid now ok|sid ok|k ok|sid ok]; cbn.
  - destruct ok; cbn; [|apply Hwf].
    destruct (decide (keyGenerator db = key)) as [<-|Hne].
    + rewrite lookup_insert_eq. intros [= <-]. cbn. split; [reflexivity|lia].
    + rewrite lookup_insert_ne by exact Hne. intros H.
      destruct (Hwf key r H). split; [assumption|lia].
  - apply Hwf.
  - destruct ok; cbn; [|apply Hwf].
    rewrite lookup_delete_Some. intros [_ H]. now apply Hwf.
  - destruct ok; [|apply Hwf]. intros H.
    apply clearAllMessages_lookup in H. destruct H as [H _].
    destruct (Hwf key r H). now split.
Qed.

Lemma run_well_formed (ops : list StoreOp) : forall db,
  well_formed db -> well_formed (run ops db).
Proof.
  induction ops as [|op ops IH]; intros db H; [exact H|].
  unfold run in *. cbn [fold_left]. apply IH. now apply step_well_formed.
Qed.

(** Once a key is below the generator, later operations leave its record
    alone or delete it. *)
Lemma run_below (ops : list StoreOp) : forall (db : DB) (k : N),
  (k < keyGenerator db)%N ->
  messages (run ops db) !! k = messages db !! k \/
  messages (run ops db) !! k = None.
Proof.
  induction ops as [|op ops IH]; intros db k Hk; [now left|].
  unfold run in *. cbn [fold_left].
  destruct (step_below op db k Hk) as [Hg Hs].
  destruct (IH (step op db) k ltac:(lia)) as [H|H].
  - rewrite H. exact Hs.
  - now right.
Qed.

Lemma added_never_listed (A B : string) (m : MessageData) (now : Z)
    (db : DB) (ops : list StoreOp) (okB : bool) (l : list StoredMessage) :
  A <> B -> well_formed db ->
  getAllMessagesFromDB B okB (run ops (addMessageToDB m A now true db).2)
    = Fulfilled l ->
  forall r, r ∈ l -> id r <> keyGenerator db.
Proof.
  intros HAB Hwf Hget r Hr Hid.
  destruct okB; [|discriminate]. injection Hget as <-.
  set (db1 := (addMessageToDB m A now true db).2) in *.
  assert (Hwf1 : well_formed db1)
    by apply (step_well_formed (Add m A now true) db Hwf).
  apply elem_of_getAll in Hr. destruct Hr as (k & Hk & Hs).
  change (messages (run ops db1) !! k = Some r) in Hk.
  destruct (run_well_formed ops db1 Hwf1 k r Hk) as [Hidk _].
  assert (Hkey : k = keyGenerator db) by congruence.
  change (messages (run ops db1) !! k = Some r) in Hk.
  destruct (run_below ops db1 k ltac:(cbn; lia)) as [Hsame|Hgone];
    [rewrite Hsame in Hk|rewrite Hgone in Hk; discriminate].
  rewrite Hkey in Hk. cbn in Hk. rewrite lookup_insert_eq in Hk.
  injection Hk as <-. cbn in Hs. congruence.
Qed.

(** C10. For sessions A <> B: getAllMessagesFromDB(B) only returns records
    stored under B; a message added under A is not among the records that
    getAllMessagesFromDB(B) returns after any further operations; a
    successful clearAllMessages(A) removes exactly the records whose
    sessionId is A, so that every record stored under B stays and
    getAllMessagesFromDB(B) answers as before. *)
Theorem session_isolation (A B : string) :
  A <> B ->
  (forall db ok l, getAllMessagesFromDB B ok db = Fulfilled l ->
     forall r, r ∈ l -> sessionId r = B) /\
  (forall ops0 m now ok key db1 ops1 okB l,
     addMessageToDB m A now ok (run ops0 emptyDB) = (Fulfilled key, db1) ->
     getAllMessagesFromDB B okB (run ops1 db1) = Fulfilled l ->
     forall r, r ∈ l -> id r <> key) /\
  (forall db key r,
     messages (clearAllMessages A true db).2 !! key = Some r <->
     messages db !! key = Some r /\ sessionId r <> A) /\
  (forall db ok okB,
     getAllMessagesFromDB B okB (clearAllMessages A ok db).2 =
     getAllMessagesFromDB B okB db).
Proof.
  intros HAB. split; [|split; [|split]].
  - intros db ok l Hget r Hr. destruct ok; [|discriminate].
    injection Hget as <-. apply elem_of_getAll in Hr.
    now destruct Hr as (k & _ & Hs).
  - intros ops0 m now ok key db1 ops1 okB l Hadd Hget r Hr.
    destruct ok; [|discriminate].
    assert (Hkey : key = keyGenerator (run ops0 emptyDB))
      by (cbn in Hadd; congruence).
    assert (Hdb : db1 = (addMessageToDB m A now true (run ops0 emptyDB)).2)
      by (now rewrite Hadd).
    subst key db1.
    apply (added_never_listed A B m now (run ops0 emptyDB) ops1 okB l); auto.
    apply run_well_formed, emptyDB_well_formed.
  - intros db key r. apply clearAllMessages_lookup.
  - intros db ok okB. destruct ok; [|reflexivity].
    unfold getAllMessagesFromDB. destruct okB; [|reflexivity].
    do 3 f_equal. apply sessionIndex_ext. intros k r Hs.
    rewrite clearAllMessages_lookup. split; [tauto|].
    intros H. split; [exact H|congruence].
Qed.

Definition hello : MessageData :=
  {| role := USER; text := Some "a red cube"; imageUrl := None;
     imageMimeType := None; generationParams := None |}.

(** Two sessions writing in turn; the later record of B carries the earlier
    time stamp and is listed first. *)
Example two_sessions :
  getAllMessagesFromDB "B" true
    (run [Add hello "B" 30 true; Add hello "A" 10 true; Add hello "B" 20 true;
          ClearAll "A" true] emptyDB) =
  Fulfilled [mkStoredMessage 3 "B" hello 20; mkStoredMessage 1 "B" hello 30].
Proof. vm_compute. reflexivity. Qed.

Lemma session_isolation_witness :
  ("A" : string) <> "B" /\
  getAllMessagesFromDB "B" true
    (clearAllMessages "A" true
       (run [Add hello "A" 10 true; Add hello "B" 11 true] emptyDB)).2 =
  getAllMessagesFromDB "B" true
    (run [Add hello "A" 10 true; Add hello "B" 11 true] emptyDB).
Proof.
  assert (H : ("A" : string) <> "B") by discriminate.
  split; [exact H|].
  apply (session_isolation "A" "B" H).
Defined.

(** ** Further properties of the message store *)

Lemma step_keyGenerator (op : StoreOp) (db : DB) :
  (keyGenerator db <= keyGenerator (step op db))%N.
Proof.
  destruct op as [m sid now ok|sid ok|key ok|sid ok]; cbn;
    try destruct ok; cbn; lia.
Qed.

Lemma run_keyGenerator (ops : list StoreOp) : forall db,
  (keyGenerator db <= keyGenerator (run ops db))%N.
Proof.
  induction ops as [|op ops IH]; intros db; [cbn; lia|].
  unfold run in *. cbn [fold_left].
  pose proof (step_keyGenerator op db). pose proof (IH (step op db)). lia.
Qed.

Lemma reachable_well_formed (ops : list StoreOp) :
  well_formed (run ops emptyDB).
Proof. apply run_well_formed, emptyDB_well_formed. Qed.

(** What a successful read returns, over a database reached by [ops]. *)
Lemma getAll_listing (ops : list StoreOp)
    (sid : string) (ok : bool) (l : list StoredMessage) :
  let db := run ops emptyDB in
  getAllMessagesFromDB sid ok db = Fulfilled l ->
  Sorted (key_le timestamp) l /\
  NoDup l /\
  (forall r, r ∈ l <->
     exists k, messages db !! k = Some r /\ sessionId r = sid).
Proof.
  intros db Hget. destruct ok; [|discriminate]. injection Hget as <-.
  split; [apply sort_on_Sorted|]. split; [|intros r; apply elem_of_getAll].
  rewrite sort_on_Permutation. unfold sessionIndex.
  rewrite sort_on_Permutation.
  apply NoDup_fmap_2_strong; [|apply NoDup_filter, NoDup_map_to_list].
  intros [k r] [k' r']. rewrite !list_elem_of_filter, !elem_of_map_to_list.
  cbn. intros [_ Hk] [_ Hk'] <-.
  destruct (reachable_well_formed ops k r Hk) as [<- _].
  destruct (reachable_well_formed ops k' r Hk') as [<- _]. reflexivity.
Qed.

(** At any point in the life of the database, a successful
    getAllMessagesFromDB(sid) returns every record stored under sid, each
    once, and no other record, in ascending order of time stamp. *)
Theorem getAll_lists_session_in_time_order (ops : list StoreOp)
    (sid : string) (ok : bool) (l : list StoredMessage) :
  let db := run ops emptyDB in
  getAllMessagesFromDB sid ok db = Fulfilled l ->
  Sorted (key_le timestamp) l /\
  NoDup l /\
  (forall r, r ∈ l <->
     exists k, messages db !! k = Some r /\ sessionId r = sid).
Proof. exact (getAll_listing ops sid ok l). Qed.

Lemma getAll_lists_session_in_time_order_witness :
  Sorted (key_le timestamp)
         [mkStoredMessage 3 "B" hello 20; mkStoredMessage 1 "B" hello 30] /\
  NoDup [mkStoredMessage 3 "B" hello 20; mkStoredMessage 1 "B" hello 30].
Proof.
  pose proof (getAll_lists_session_in_time_order
                [Add hello "B" 30 true; Add hello "A" 10 true;
                 Add hello "B" 20 true; ClearAll "A" true]
                "B" true _ eq_refl) as (Hs & Hn & _).
  split; [exact Hs|exact Hn].
Defined.

(** A message added at any point is stored under a key that no record
    holds, and comes back from getAllMessagesFromDB of its session, with
    the text, the session and the time it was given, next to the records
    the session had before. *)
Theorem add_get_round_trip (ops : list StoreOp) (m : MessageData)
    (sid : string) (now : Z) (ok : bool) (key : N) (db' : DB)
    (before after : list StoredMessage) :
  let db := run ops emptyDB in
  addMessageToDB m sid now ok db = (Fulfilled key, db') ->
  getAllMessagesFromDB sid true db = Fulfilled before ->
  getAllMessagesFromDB sid true db' = Fulfilled after ->
  messages db !! key = None /\
  after ≡ₚ mkStoredMessage key sid m now :: before.
Proof.
  intros db Hadd Hb Ha. destruct ok; [|discriminate].
  assert (Hkey : key = keyGenerator db) by (cbn in Hadd; congruence).
  assert (Hdb : db' = (addMessageToDB m sid now true db).2)
    by (now rewrite Hadd).
  pose proof (reachable_well_formed ops) as Hwf. fold db in Hwf.
  assert (Hfresh : messages db !! key = None).
  { destruct (messages db !! key) as [r|] eqn:E; [|reflexivity].
    destruct (Hwf key r E) as [_ Hlt]. lia. }
  split; [exact Hfresh|].
  set (new := mkStoredMessage key sid m now).
  assert (Hn : NoDup after /\ forall r, r ∈ after <->
            exists k, messages db' !! k = Some r /\ sessionId r = sid).
  { pose proof (getAll_listing
                  (ops ++ [Add m sid now true]) sid true after) as H.
    unfold run in H. rewrite fold_left_app in H. cbn [fold_left step] in H.
    fold (run ops emptyDB) in H. fold db in H. rewrite <- Hdb in H.
    destruct (H Ha) as (_ & H1 & H2). now split. }
  assert (Hm : NoDup before /\ forall r, r ∈ before <->
            exists k, messages db !! k = Some r /\ sessionId r = sid).
  { destruct (getAll_listing ops sid true before Hb)
      as (_ & H1 & H2). now split. }
  destruct Hn as [Hn Hin], Hm as [Hm Hib].
  assert (Hnew : new ∉ before).
  { intros H. apply Hib in H. destruct H as (k & Hk & _).
    destruct (Hwf k new Hk) as [Hid _]. cbn in Hid. congruence. }
  apply NoDup_Permutation; [exact Hn|now constructor|].
  intros r. rewrite elem_of_cons, Hin, Hib. rewrite Hdb. cbn [snd].
  unfold addMessageToDB. cbn [snd messages]. fold db. rewrite <- Hkey.
  fold new. split.
  - intros (k & Hk & Hs). apply lookup_insert_Some in Hk.
    destruct Hk as [[_ <-]|[_ Hk]]; [now left|right; now exists k].
  - intros [->|(k & Hk & Hs)].
    + exists key. split; [apply lookup_insert_eq|reflexivity].
    + exists k. split; [|exact Hs]. rewrite lookup_insert_ne; [exact Hk|].
      intros <-. congruence.
Qed.

Lemma add_get_round_trip_witness :
  messages (run [Add hello "A" 10 true; Delete 1 true] emptyDB) !! 2%N = None /\
  [mkStoredMessage 2 "A" hello 5] ≡ₚ [mkStoredMessage 2 "A" hello 5].
Proof.
  exact (add_get_round_trip [Add hello "A" 10 true; Delete 1 true]
           hello "A" 5 true 2 _ [] [mkStoredMessage 2 "A" hello 5]
           eq_refl eq_refl eq_refl).
Defined.

(** Keys are never handed out twice: of two successful adds, whatever
    happens in between (also the deletion of the first record), the later
    one gets the greater key. *)
Theorem keys_are_never_reused (ops0 ops1 : list StoreOp)
    (m m' : MessageData) (sid sid' : string) (now now' : Z) (ok ok' : bool)
    (key key' : N) (db1 db2 : DB) :
  addMessageToDB m sid now ok (run ops0 emptyDB) = (Fulfilled key, db1) ->
  addMessageToDB m' sid' now' ok' (run ops1 db1) = (Fulfilled key', db2) ->
  (key < key')%N.
Proof.
  intros H1 H2. destruct ok; [|discriminate]. destruct ok'; [|discriminate].
  cbn in H1, H2. injection H1 as <- <-. injection H2 as <- _.
  match goal with
  | |- (_ < keyGenerator (run ops1 ?d))%N =>
      pose proof (run_keyGenerator ops1 d) as Hmono
  end.
  cbn [keyGenerator] in Hmono. lia.
Qed.

Lemma keys_are_never_reused_witness :
  let db1 := (addMessageToDB hello "A" 10 true emptyDB).2 in
  (addMessageToDB hello "A" 11 true (run [Delete 1 true] db1)).1
    = Fulfilled 2%N /\ (1 < 2)%N.
Proof.
  split; [reflexivity|].
  exact (keys_are_never_reused [] [Delete 1 true] hello hello "A" "A" 10 11
           true true 1 2 _ _ eq_refl eq_refl).
Defined.

(** A successful deleteMessageFromDB(key) removes the record with that id,
    whichever session it belongs to, and nothing else: for every session,
    getAllMessagesFromDB afterwards lists the records it listed before
    whose id is not key. *)
Theorem delete_removes_exactly_one (ops : list StoreOp) (key : N)
    (sid : string) (before after : list StoredMessage) :
  let db := run ops emptyDB in
  getAllMessagesFromDB sid true db = Fulfilled before ->
  getAllMessagesFromDB sid true (deleteMessageFromDB key true db).2
    = Fulfilled after ->
  forall r, r ∈ after <-> r ∈ before /\ id r <> key.
Proof.
  intros db Hb Ha r.
  injection Hb as <-. injection Ha as <-.
  rewrite !elem_of_getAll. cbn [snd deleteMessageFromDB messages].
  pose proof (reachable_well_formed ops) as Hwf. fold db in Hwf. split.
  - intros (k & Hk & Hs). apply lookup_delete_Some in Hk.
    destruct Hk as [Hne Hk]. destruct (Hwf k r Hk) as [Hid _].
    split; [now exists k|congruence].
  - intros [(k & Hk & Hs) Hne]. exists k. split; [|exact Hs].
    apply lookup_delete_Some. split; [|exact Hk].
    destruct (Hwf k r Hk) as [Hid _]. congruence.
Qed.

Lemma delete_removes_exactly_one_witness :
  mkStoredMessage 3 "B" hello 20
    ∈ [mkStoredMessage 3 "B" hello 20] <->
  mkStoredMessage 3 "B" hello 20
    ∈ [mkStoredMessage 3 "B" hello 20; mkStoredMessage 1 "B" hello 30] /\
  id (mkStoredMessage 3 "B" hello 20) <> 1%N.
Proof.
  exact (delete_removes_exactly_one
           [Add hello "B" 30 true; Add hello "A" 10 true;
            Add hello "B" 20 true] 1 "B" _ _ eq_refl eq_refl
           (mkStoredMessage 3 "B" hello 20)).
Defined.

End MessageStore.

(** ** The conversation shown on screen (useConversationHistory) *)

Module ConversationHistory.

Import GeminiService MessageStore.

(** A message of the conversation: [{ ...messageData, id }]. *)
Record Message := mkMessage {
  id : string;
  data : MessageData
}.

Definition textMessage (r : Role) (t : string) : MessageData :=
  {| role := r; text := Some t; imageUrl := None; imageMimeType := None;
     generationParams := None |}.

Definition initialMessage : Message :=
  {| id := "initial";
     data := textMessage MODEL
       ("Hello! Describe an image you'd like me to create for you, "
        +:+ "or upload an image to edit.") |}.

(** [`db-${dbId}`]. *)
Definition dbMessageId (dbId : N) : string := "db-" +:+ pretty dbId.

(** The error message the hook puts on screen, with id
    [`error-${Date.now()}`]. *)
Definition errorMsg (now : Z) (t : string) : Message :=
  {| id := "error-" +:+ pretty now; data := textMessage ERROR t |}.

(** The state of the hook and the database behind it. *)
Record State := mkState {
  messages : list Message;
  isLoadingHistory : bool;
  store : DB
}.

Section Hook.

(** [getSessionId()], memoised for the life of the hook. *)
Variable sessionId : string.

(** The hook as first rendered, over the database as it is. *)
Definition mounted (db : DB) : State :=
  {| messages := [initialMessage]; isLoadingHistory := true; store := db |}.

Definition toMessage (msg : StoredMessage) : Message :=
  {| id := dbMessageId (MessageStore.id msg);
     data := {| role := role (message msg);
                text := text (message msg);
                imageUrl := imageUrl (message msg);
                imageMimeType := imageMimeType (message msg);
                generationParams := generationParams (message msg) |} |}.

(** loadHistory; [ok] tells whether opening the database and reading from
    it succeed, [now] is [Date.now()]. [None] stands for a state whose list
    would hold [undefined] ([prev[0]] of an empty list). *)
Definition loadHistory (ok : bool) (now : Z) (st : State) : option State :=
  match getAllMessagesFromDB sessionId ok (store st) with
  | Fulfilled storedMessages =>
      if (0 <? length storedMessages)%nat then
        let historyMessages := map toMessage storedMessages in
        match messages st with
        | first :: _ =>
            Some {| messages := first :: historyMessages;
                    isLoadingHistory := false; store := store st |}
        | [] => None
        end
      else Some {| messages := messages st; isLoadingHistory := false;
                   store := store st |}
  | RejectedWith _ =>
      Some {| messages := messages st ++
                [errorMsg now "Could not load saved conversation history."];
              isLoadingHistory := false; store := store st |}
  end.

(** addMessage: the message as shown, or [None] for [null]. *)
Definition addMessage (messageData : MessageData) (ok : bool) (now : Z)
    (st : State) : option Message * State :=
  match addMessageToDB messageData sessionId now ok (store st) with
  | (Fulfilled dbId, db) =>
      let newMessage := {| id := dbMessageId dbId; data := messageData |} in
      (Some newMessage,
       {| messages := messages st ++ [newMessage];
          isLoadingHistory := isLoadingHistory st; store := db |})
  | (RejectedWith _, db) =>
      (None,
       {| messages := messages st ++
            [errorMsg now "Failed to save your message."];
          isLoadingHistory := isLoadingHistory st; store := db |})
  end.

(** addTempMessage; [random] is [Math.random()] as printed. *)
Definition addTempMessage (messageData : MessageData) (now : Z)
    (random : string) (st : State) : State :=
  let id := pretty now +:+ "-" +:+ random in
  let tempMessage := {| id := id; data := messageData |} in
  {| messages := messages st ++ [tempMessage];
     isLoadingHistory := isLoadingHistory st; store := store st |}.

Definition deleteMessage (dbId : N) (ok : bool) (now : Z) (random : string)
    (st : State) : State :=
  let messageIdToDelete := dbMessageId dbId in
  match deleteMessageFromDB dbId ok (store st) with
  | (Fulfilled _, db) =>
      {| messages := filter (fun msg => id msg <> messageIdToDelete)
                            (messages st);
         isLoadingHistory := isLoadingHistory st; store := db |}
  | (RejectedWith _, db) =>
      addTempMessage (textMessage ERROR "Failed to delete the message.")
        now random
        {| messages := messages st; isLoadingHistory := isLoadingHistory st;
           store := db |}
  end.

Definition clearHistory (ok : bool) (now : Z) (random : string)
    (st : State) : State :=
  match clearAllMessages sessionId ok (store st) with
  | (Fulfilled _, db) =>
      {| messages := filter (fun msg => id msg = "initial") (messages st);
         isLoadingHistory := isLoadingHistory st; store := db |}
  | (RejectedWith _, db) =>
      addTempMessage (textMessage ERROR "Failed to clear history.")
        now random
        {| messages := messages st; isLoadingHistory := isLoadingHistory st;
           store := db |}
  end.

(** What the application does with the hook, one call after the other. *)
Inductive HookOp :=
| AddMessage (messageData : MessageData) (ok : bool) (now : Z)
| AddTempMessage (messageData : MessageData) (now : Z) (random : string)
| DeleteMessage (dbId : N) (ok : bool) (now : Z) (random : string)
| ClearHistory (ok : bool) (now : Z) (random : string).

Definition step (op : HookOp) (st : State) : State :=
  match op with
  | AddMessage messageData ok now => (addMessage messageData ok now st).2
  | AddTempMessage messageData now random =>
      addTempMessage messageData now random st
  | DeleteMessage dbId ok now random => deleteMessage dbId ok now random st
  | ClearHistory ok now random => clearHistory ok now random st
  end.

Definition run (ops : list HookOp) (st : State) : State :=
  fold_left (fun s op => step op s) ops st.

(** A message that was saved: its id names a database key. *)
Definition saved (msg : Message) : Prop := exists k, id msg = dbMessageId k.

(** The screen and the store agree: the welcome message comes first; every
    saved message on screen is a record of this session, with its content;
    and, when [complete], every record of this session is on screen. *)
Definition mirrors (complete : bool) (st : State) : Prop :=
  well_formed (store st) /\
  (exists rest, messages st = initialMessage :: rest) /\
  (forall msg k, msg ∈ messages st -> id msg = dbMessageId k ->
     exists r, MessageStore.messages (store st) !! k = Some r /\
               MessageStore.sessionId r = sessionId /\
               message r = data msg) /\
  (complete = true ->
   forall k r, MessageStore.messages (store st) !! k = Some r ->
               MessageStore.sessionId r = sessionId ->
               mkMessage (dbMessageId k) (message r) ∈ messages st).

End Hook.

(** *** The delete button of a message bubble *)

Definition is_digit (a : ascii) : bool :=
  (48 <=? nat_of_ascii a)%nat && (nat_of_ascii a <=? 57)%nat.

Definition head_digit (s : string) : bool :=
  match s with
  | String a _ => is_digit a
  | EmptyString => false
  end.

(** The value of the leading decimal digits of [s], after [acc]. *)
Fixpoint digits (acc : Z) (s : string) : Z :=
  match s with
  | String a s' =>
      if is_digit a then digits (acc * 10 + (Z.of_nat (nat_of_ascii a) - 48)) s'
      else acc
  | EmptyString => acc
  end.

(** [parseInt(s, 10)], numbers as integers; [None] is [NaN]. Leading white
    space is skipped (its ASCII part), then a sign is read, then the longest
    run of digits. *)
Definition parseInt (s : string) : option Z :=
  let s := trimStart s in
  let '(sign, s) :=
    match s with
    | String "-" s' => (-1, s')
    | String "+" s' => (1, s')
    | _ => (1, s)
    end in
  if head_digit s then Some (sign * digits 0 s) else None.

(** [s.startsWith(p)] and [s.replace(p, r)] for a string pattern, which
    replaces the first occurrence. *)
Definition startsWith (p s : string) : bool :=
  match strip_prefix p s with Some _ => true | None => false end.

Fixpoint replace (p r s : string) : string :=
  match strip_prefix p s with
  | Some rest => r +:+ rest
  | None =>
      match s with
      | String a s' => String a (replace p r s')
      | EmptyString => EmptyString
      end
  end.

(** handleDelete of MessageBubble, with an [onDelete] handler given: the
    arguments it calls the handler with, if it does. *)
Definition handleDelete (message : Message) : option (string * Z) :=
  if startsWith "db-" (id message) then
    match parseInt (replace "db-" "" (id message)) with
    | Some dbId => Some (id message, dbId)
    | None => None
    end
  else None.

(** *** Identifiers *)

Lemma pretty_N_char_digit (x : N) : is_digit (pretty_N_char x) = true.
Proof. unfold pretty_N_char. repeat case_match; reflexivity. Qed.

Lemma pretty_N_go_head (x : N) : forall s,
  head_digit s = true -> head_digit (pretty_N_go x s) = true.
Proof.
  induction (N.lt_wf_0 x) as [x _ IH]; intros s Hs.
  assert (x = 0 \/ 0 < x)%N as [->|Hx] by lia.
  - now rewrite pretty_N_go_0.
  - rewrite pretty_N_go_step by exact Hx. apply IH.
    + now apply N.div_lt.
    + apply pretty_N_char_digit.
Qed.

Lemma pretty_N_head (x : N) : head_digit (pretty x) = true.
Proof.
  unfold pretty, pretty_N. destruct (decide (x = 0%N)) as [->|Hx];
    [reflexivity|].
  rewrite pretty_N_go_step by lia. apply pretty_N_go_head.
  apply pretty_N_char_digit.
Qed.

(** A printed integer starts with a digit or a minus sign. *)
Lemma pretty_Z_head (z : Z) :
  exists a t, pretty z = String a t /\ (is_digit a = true \/ a = "-"%char).
Proof.
  destruct z as [|p|p].
  - exists "0"%char, "". split; [reflexivity|now left].
  - change (pretty (Z.pos p)) with (pretty (N.pos p)).
    pose proof (pretty_N_head (N.pos p)) as H.
    destruct (pretty (N.pos p)) as [|a t]; [discriminate|].
    exists a, t. split; [reflexivity|now left].
  - exists "-"%char, (pretty (N.pos p)). split; [reflexivity|now right].
Qed.

Lemma dbMessageId_inj (k k' : N) : dbMessageId k = dbMessageId k' -> k = k'.
Proof.
  unfold dbMessageId. intros H.
  change (String "d" (String "b" (String "-" (pretty k)))
          = String "d" (String "b" (String "-" (pretty k')))) in H.
  injection H as H. now apply pretty_N_inj.
Qed.

Lemma initial_not_saved (k : N) : "initial" <> dbMessageId k.
Proof. discriminate. Qed.

Lemma error_not_saved (now : Z) (t : string) (k : N) :
  id (errorMsg now t) <> dbMessageId k.
Proof. discriminate. Qed.

Lemma temp_not_saved (now : Z) (random : string) (k : N) :
  pretty now +:+ "-" +:+ random <> dbMessageId k.
Proof.
  destruct (pretty_Z_head now) as (a & t & -> & Ha).
  intros H.
  change (String a (t +:+ "-" +:+ random)
          = String "d" (String "b" (String "-" (pretty k)))) in H.
  injection H as -> _. destruct Ha as [Ha|Ha]; discriminate.
Qed.

(** *** The screen mirrors the store *)

Lemma data_toMessage (r : StoredMessage) : data (toMessage r) = message r.
Proof. cbn. now destruct (message r). Qed.

Lemma mirrors_append (sid : string) (complete : bool) (st : State)
    (msg : Message) :
  (forall k, id msg <> dbMessageId k) ->
  mirrors sid complete st ->
  mirrors sid complete
    {| messages := messages st ++ [msg];
       isLoadingHistory := isLoadingHistory st; store := store st |}.
Proof.
  intros Hid (Hwf & [rest Hhd] & Hsound & Hcomplete). cbn [messages store].
  split; [exact Hwf|]. split; [exists (rest ++ [msg]); now rewrite Hhd|].
  split.
  - intros m k Hm Hk. apply elem_of_app in Hm. destruct Hm as [Hm|Hm].
    + now apply Hsound.
    + apply list_elem_of_singleton in Hm. subst m. now destruct (Hid k).
  - intros Hc k r Hk Hs. apply elem_of_app. left. now apply Hcomplete.
Qed.

Lemma mirrors_addTempMessage (sid : string) (complete : bool) (st : State)
    (messageData : MessageData) (now : Z) (random : string) :
  mirrors sid complete st ->
  mirrors sid complete (addTempMessage messageData now random st).
Proof.
  intros H. unfold addTempMessage. apply mirrors_append; [|exact H].
  intros k. apply temp_not_saved.
Qed.

Lemma mirrors_step (sid : string) (complete : bool) (op : HookOp)
    (st : State) :
  mirrors sid complete st -> mirrors sid complete (step sid op st).
Proof.
  intros Hst.
  destruct op as [messageData ok now|messageData now random
                 |dbId ok now random|ok now random]; cbn [step].
  - (* addMessage *)
    unfold addMessage, addMessageToDB. destruct ok; cbn [snd].
    + destruct Hst as (Hwf & [rest Hhd] & Hsound & Hcomplete).
      set (key := keyGenerator (store st)).
      set (new := mkStoredMessage key sid messageData now).
      assert (Hfresh : forall k r,
                MessageStore.messages (store st) !! k = Some r -> k <> key).
      { intros k r Hk. destruct (Hwf k r Hk) as [_ Hlt]. unfold key. lia. }
      cbn [messages store]. split; [|split; [|split]].
      * apply (step_well_formed (Add messageData sid now true) _ Hwf).
      * exists (rest ++ [mkMessage (dbMessageId key) messageData]).
        now rewrite Hhd.
      * intros m k Hm Hk. cbn [store MessageStore.messages].
        apply elem_of_app in Hm. destruct Hm as [Hm|Hm].
        -- destruct (Hsound m k Hm Hk) as (r & Hr & Hs & Hd).
           exists r. split; [|now split].
           rewrite lookup_insert_ne; [exact Hr|].
           intros Heq. now apply (Hfresh k r).
        -- apply list_elem_of_singleton in Hm. subst m. cbn [id] in Hk.
           apply dbMessageId_inj in Hk. subst k.
           exists new. split; [apply lookup_insert_eq|now split].
      * intros Hc k r Hk Hs. cbn [store MessageStore.messages] in Hk.
        apply lookup_insert_Some in Hk. apply elem_of_app.
        destruct Hk as [[<- <-]|[Hne Hk]].
        -- right. apply list_elem_of_singleton. reflexivity.
        -- left. now apply Hcomplete.
    + apply mirrors_append; [|exact Hst]. intros k. apply error_not_saved.
  - now apply mirrors_addTempMessage.
  - (* deleteMessage *)
    unfold deleteMessage, deleteMessageFromDB. destruct ok.
    + destruct Hst as (Hwf & [rest Hhd] & Hsound & Hcomplete).
      cbn [messages store]. split; [|split; [|split]].
      * apply (step_well_formed (Delete dbId true) _ Hwf).
      * exists (filter (fun msg => id msg <> dbMessageId dbId) rest).
        rewrite Hhd. rewrite filter_cons_True; [reflexivity|].
        apply initial_not_saved.
      * intros m k Hm Hk. cbn [store MessageStore.messages].
        apply list_elem_of_filter in Hm. destruct Hm as [Hne Hm].
        destruct (Hsound m k Hm Hk) as (r & Hr & Hs & Hd).
        exists r. split; [|now split].
        apply lookup_delete_Some. split; [|exact Hr].
        intros <-. now apply Hne.
      * intros Hc k r Hk Hs. cbn [store MessageStore.messages] in Hk.
        apply lookup_delete_Some in Hk. destruct Hk as [Hne Hk].
        apply list_elem_of_filter. split; [|now apply Hcomplete].
        cbn [id]. intros H. apply dbMessageId_inj in H. congruence.
    + apply (mirrors_addTempMessage sid complete
               {| messages := messages st;
                  isLoadingHistory := isLoadingHistory st;
                  store := store st |}).
      exact Hst.
  - (* clearHistory *)
    unfold clearHistory. destruct ok.
    + destruct Hst as (Hwf & [rest Hhd] & Hsound & Hcomplete).
      change (clearAllMessages sid true (store st))
        with (Fulfilled tt, (clearAllMessages sid true (store st)).2).
      cbn [messages store]. split; [|split; [|split]].
      * apply (step_well_formed (ClearAll sid true) _ Hwf).
      * exists (filter (fun msg => id msg = "initial") rest).
        rewrite Hhd. now rewrite filter_cons_True.
      * intros m k Hm Hk. apply list_elem_of_filter in Hm.
        destruct Hm as [Hi _]. rewrite Hi in Hk.
        now destruct (initial_not_saved k).
      * intros Hc k r Hk Hs. apply clearAllMessages_lookup in Hk.
        destruct Hk as [_ Hne]. contradiction.
    + apply (mirrors_addTempMessage sid complete
               {| messages := messages st;
                  isLoadingHistory := isLoadingHistory st;
                  store := store st |}).
      exact Hst.
Qed.

Lemma mirrors_run (sid : string) (complete : bool) (ops : list HookOp) :
  forall st, mirrors sid complete st -> mirrors sid complete (run sid ops st).
Proof.
  induction ops as [|op ops IH]; intros st Hst; [exact Hst|].
  unfold run in *. cbn [fold_left]. apply IH. now apply mirrors_step.
Qed.

(** Loading on a fresh hook: the welcome message, then the stored records
    of the session. *)
Lemma loadHistory_mounted (sid : string) (ok : bool) (now : Z) (db : DB) :
  well_formed db ->
  exists st, loadHistory sid ok now (mounted db) = Some st /\
             mirrors sid ok st /\
             (forall l, getAllMessagesFromDB sid ok db = Fulfilled l ->
                        messages st = initialMessage :: map toMessage l).
Proof.
  intros Hwf. unfold loadHistory, mounted. cbn [store messages].
  destruct (getAllMessagesFromDB sid ok db) as [l|reason] eqn:Hget.
  - destruct ok; [|discriminate].
    assert (Hin : forall r, r ∈ l <->
              exists k, MessageStore.messages db !! k = Some r /\
                        MessageStore.sessionId r = sid).
    { intros r. injection Hget as <-. apply elem_of_getAll. }
    assert (Hm : mirrors sid true
              {| messages := initialMessage :: map toMessage l;
                 isLoadingHistory := false; store := db |}).
    { cbn [messages store]. split; [exact Hwf|].
      split; [now eexists|]. split.
      - intros m k Hm Hk. apply elem_of_cons in Hm.
        destruct Hm as [->|Hm]; [now destruct (initial_not_saved k)|].
        apply list_elem_of_fmap in Hm. destruct Hm as (r & -> & Hr).
        cbn [id toMessage] in Hk. apply dbMessageId_inj in Hk.
        apply Hin in Hr. destruct Hr as (k' & Hr & Hs).
        destruct (Hwf k' r Hr) as [Hid _].
        exists r. rewrite data_toMessage. cbn [store].
        split; [congruence|now split].
      - intros _ k r Hk Hs. apply elem_of_cons. right.
        apply list_elem_of_fmap. exists r. split.
        + destruct (Hwf k r Hk) as [Hid _]. unfold toMessage. rewrite Hid.
          f_equal. now destruct (message r).
        + apply Hin. now exists k. }
    destruct l as [|r l]; cbn [length Nat.ltb Nat.leb].
    + eexists. split; [reflexivity|]. split; [exact Hm|].
      intros l' [= <-]. reflexivity.
    + eexists. split; [reflexivity|]. split; [exact Hm|].
      intros l' [= <-]. reflexivity.
  - destruct ok; [discriminate|]. eexists. split; [reflexivity|].
    split; [|intros l' H; discriminate].
    apply (mirrors_append sid false
             {| messages := [initialMessage]; isLoadingHistory := true;
                store := db |}).
    + intros k. apply error_not_saved.
    + split; [exact Hwf|]. split; [now exists []|]. split.
      * intros m k Hm Hk. apply list_elem_of_singleton in Hm. subst m.
        now destruct (initial_not_saved k).
      * discriminate.
Qed.

(** At any point of a session of the hook (mounted over the database as any
    earlier activity left it, history loaded or not, then any calls of
    addMessage, addTempMessage, deleteMessage and clearHistory, failing or
    not): the welcome message heads the screen, and every message on screen
    that carries a database id is a record of this session in the store,
    with the content shown. When the history was loaded, every record of
    the session is on screen. *)
Theorem screen_mirrors_store (sid : string) (dbOps : list StoreOp)
    (ok : bool) (now : Z) (ops : list HookOp) :
  exists st0,
    loadHistory sid ok now (mounted (MessageStore.run dbOps emptyDB))
      = Some st0 /\
    let st := run sid ops st0 in
    (exists rest, messages st = initialMessage :: rest) /\
    (forall msg k, msg ∈ messages st -> id msg = dbMessageId k ->
       exists r, MessageStore.messages (store st) !! k = Some r /\
                 MessageStore.sessionId r = sid /\
                 message r = data msg) /\
    (ok = true ->
     forall k r, MessageStore.messages (store st) !! k = Some r ->
                 MessageStore.sessionId r = sid ->
                 mkMessage (dbMessageId k) (message r) ∈ messages st).
Proof.
  destruct (loadHistory_mounted sid ok now (MessageStore.run dbOps emptyDB)
              (reachable_well_formed dbOps)) as (st0 & Hload & Hm & _).
  exists st0. split; [exact Hload|].
  destruct (mirrors_run sid ok ops st0 Hm) as (_ & Hhd & Hsound & Hcomplete).
  cbn zeta. split; [exact Hhd|]. split; [exact Hsound|exact Hcomplete].
Qed.

(** Reloading the page gives back the conversation as saved: after a
    session that began with the history loaded, a fresh hook that loads the
    history shows the welcome message and exactly the messages of the old
    screen that carry a database id. Unsaved error notices are gone;
    nothing saved is lost or added. *)
Theorem reload_restores_saved_messages (sid : string)
    (dbOps : list StoreOp) (now now' : Z) (ops : list HookOp) :
  exists st0 st',
    loadHistory sid true now (mounted (MessageStore.run dbOps emptyDB))
      = Some st0 /\
    loadHistory sid true now' (mounted (store (run sid ops st0))) = Some st' /\
    forall msg,
      msg ∈ messages st' <->
      msg = initialMessage \/ (msg ∈ messages (run sid ops st0) /\ saved msg).
Proof.
  destruct (loadHistory_mounted sid true now (MessageStore.run dbOps emptyDB)
              (reachable_well_formed dbOps)) as (st0 & Hload & Hm & _).
  destruct (mirrors_run sid true ops st0 Hm)
    as (Hwf & [rest Hhd] & Hsound & Hcomplete).
  set (st := run sid ops st0) in *.
  destruct (loadHistory_mounted sid true now' (store st) Hwf)
    as (st' & Hload' & _ & Hshape).
  exists st0, st'. split; [exact Hload|]. split; [exact Hload'|].
  intros msg. rewrite (Hshape _ eq_refl), elem_of_cons, list_elem_of_fmap.
  split.
  - intros [->|(r & -> & Hr)]; [now left|right].
    apply elem_of_getAll in Hr. destruct Hr as (k & Hk & Hs).
    destruct (Hwf k r Hk) as [Hid _].
    assert (Heq : toMessage r = mkMessage (dbMessageId k) (message r)).
    { unfold toMessage. rewrite Hid. f_equal. now destruct (message r). }
    rewrite Heq. split; [now apply Hcomplete|now exists k].
  - intros [->|[Hmsg [k Hk]]]; [now left|right].
    destruct (Hsound msg k Hmsg Hk) as (r & Hr & Hs & Hd).
    destruct (Hwf k r Hr) as [Hid _].
    exists r. split.
    + destruct msg as [i d]. cbn in Hk, Hd. subst i d.
      unfold toMessage. rewrite Hid. f_equal. now destruct (message r).
    + apply elem_of_getAll. now exists k.
Qed.

(** *** The delete button *)

Lemma digit_value_char (x : N) :
  (x < 10)%N ->
  is_digit (pretty_N_char x) = true /\
  Z.of_nat (nat_of_ascii (pretty_N_char x)) - 48 = Z.of_N x.
Proof.
  intros Hx.
  assert (x = 0 \/ x = 1 \/ x = 2 \/ x = 3 \/ x = 4 \/ x = 5 \/ x = 6
          \/ x = 7 \/ x = 8 \/ x = 9)%N as H by lia.
  repeat (destruct H as [->|H]; [split; reflexivity|]).
  subst x. split; reflexivity.
Qed.

(** Reading back what [pretty] printed. *)
Lemma digits_pretty_N_go (x : N) :
  exists p, forall acc s,
    digits acc (pretty_N_go x s) = digits (acc * p + Z.of_N x) s.
Proof.
  induction (N.lt_wf_0 x) as [x _ IH].
  assert (x = 0 \/ 0 < x)%N as [->|Hx] by lia.
  - exists 1. intros acc s. rewrite pretty_N_go_0. f_equal. lia.
  - destruct (IH (x `div` 10)%N) as [p Hp]; [now apply N.div_lt|].
    exists (p * 10). intros acc s.
    rewrite pretty_N_go_step by exact Hx. rewrite Hp. cbn [digits].
    destruct (digit_value_char (x `mod` 10)%N) as [Hd Hv];
      [now apply N.mod_lt|].
    rewrite Hd, Hv. f_equal.
    pose proof (N.div_mod x 10 ltac:(lia)) as Hdm.
    assert (Z.of_N x = 10 * Z.of_N (x `div` 10) + Z.of_N (x `mod` 10)) by lia.
    lia.
Qed.

Lemma parseInt_pretty (k : N) : parseInt (pretty k) = Some (Z.of_N k).
Proof.
  pose proof (pretty_N_head k) as Hh.
  assert (Hv : digits 0 (pretty k) = Z.of_N k).
  { unfold pretty, pretty_N. destruct (decide (k = 0%N)) as [->|Hk];
      [reflexivity|].
    destruct (digits_pretty_N_go k) as [p Hp]. rewrite Hp. cbn [digits]. lia. }
  unfold parseInt.
  destruct (pretty k) as [|a t] eqn:E; [discriminate|].
  cbn [head_digit] in Hh.
  assert (Hws : js_whitespace a = false).
  { unfold is_digit in Hh. unfold js_whitespace.
    apply andb_true_iff in Hh. destruct Hh as [H1 H2].
    apply Nat.leb_le in H1, H2.
    apply orb_false_iff. split.
    - apply andb_false_iff. right. apply Nat.leb_gt. lia.
    - apply Nat.eqb_neq. lia. }
  cbn [trimStart]. rewrite Hws.
  assert (Hsign : a <> "-"%char /\ a <> "+"%char).
  { split; intros ->; discriminate. }
  destruct Hsign as [Hm Hp].
  assert (Hgo : (let '(sign, s0) :=
                   match String a t with
                   | String "-" s' => (-1, s')
                   | String "+" s' => (1, s')
                   | _ => (1, String a t)
                   end in
                 if head_digit s0 then Some (sign * digits 0 s0) else None)
                = Some (Z.of_N k)).
  { destruct a as [[] [] [] [] [] [] [] []];
      try discriminate; try contradiction;
      cbn [head_digit]; rewrite ?Hh, Hv; try (f_equal; lia);
      cbn in Hh; try discriminate. }
  exact Hgo.
Qed.

(** The delete button of a saved message hands the hook the key of the
    record behind it, and the hook then removes that record from the store
    and that message from the screen, and leaves every message with another
    id in place. The button does nothing on the welcome message, on error
    notices and on temporary messages. *)
Theorem delete_button_removes_the_message (k : N) (d : MessageData)
    (now : Z) (random t : string) (st : State) :
  let message := mkMessage (dbMessageId k) d in
  (exists dbId,
     handleDelete message = Some (dbMessageId k, dbId) /\
     dbId = Z.of_N k /\
     let st' := deleteMessage (Z.to_N dbId) true now random st in
     MessageStore.messages (store st') !! k = None /\
     (message ∉ messages st') /\
     forall other, other ∈ messages st -> id other <> dbMessageId k ->
                   other ∈ messages st') /\
  handleDelete initialMessage = None /\
  handleDelete (errorMsg now t) = None /\
  handleDelete (mkMessage (pretty now +:+ "-" +:+ random) d) = None.
Proof.
  cbn zeta. split; [|split; [|split]].
  - exists (Z.of_N k). split; [|split; [reflexivity|]].
    + unfold handleDelete. cbn [id].
      change (startsWith "db-" (dbMessageId k)) with true. cbn match.
      change (replace "db-" "" (dbMessageId k)) with (pretty k).
      now rewrite parseInt_pretty.
    + rewrite N2Z.id. unfold deleteMessage, deleteMessageFromDB.
      cbn [store messages MessageStore.messages]. split; [|split].
      * apply lookup_delete_eq.
      * intros H. apply list_elem_of_filter in H. destruct H as [H _].
        now apply H.
      * intros other Ho Hne. apply list_elem_of_filter. now split.
  - reflexivity.
  - reflexivity.
  - unfold handleDelete. cbn [id].
    destruct (pretty_Z_head now) as (a & u & -> & Ha).
    assert (Hs : startsWith "db-" (String a u +:+ "-" +:+ random) = false).
    { unfold startsWith.
      change (String a u +:+ "-" +:+ random)
        with (String a (u +:+ "-" +:+ random)).
      cbn [strip_prefix].
      destruct (Ascii.eqb_spec "d"%char a) as [<-|Hne]; [|reflexivity].
      destruct Ha; discriminate. }
    now rewrite Hs.
Qed.

End ConversationHistory.

(** ** The session id (utils/sessionId) *)

Module SessionId.

Import GeminiService.

(** getSessionId over the local storage of the browser; [randomUUID] is
    what [crypto.randomUUID()] would return. *)
Definition getSessionId (randomUUID : string)
    (localStorage : gmap string string) : string * gmap string string :=
  let sessionId := localStorage !! "sessionId" in
  if truthy sessionId then (default "" sessionId, localStorage)
  else (randomUUID, <["sessionId" := randomUUID]> localStorage).

(** Once a session id has been handed out it stays: every later call
    returns the same id, whatever the random source would give, and leaves
    the storage alone. The first call touches no other key of the storage. *)
Theorem session_id_is_stable (randomUUID : string)
    (localStorage : gmap string string) :
  randomUUID <> "" ->
  let '(sessionId, storage) := getSessionId randomUUID localStorage in
  sessionId <> "" /\
  storage !! "sessionId" = Some sessionId /\
  (forall other, getSessionId other storage = (sessionId, storage)) /\
  (forall key, key <> "sessionId" -> storage !! key = localStorage !! key).
Proof.
  intros Hne. unfold getSessionId.
  destruct (localStorage !! "sessionId") as [s|] eqn:E.
  - destruct s as [|a s]; cbn [truthy default].
    + split; [exact Hne|]. split; [apply lookup_insert_eq|]. split.
      * intros other. rewrite lookup_insert_eq.
        destruct randomUUID; [contradiction|reflexivity].
      * intros key Hk. now apply lookup_insert_ne.
    + split; [discriminate|]. split; [exact E|]. split; [|reflexivity].
      intros other. now rewrite E.
  - cbn [truthy default].
    split; [exact Hne|]. split; [apply lookup_insert_eq|]. split.
    + intros other. rewrite lookup_insert_eq.
      destruct randomUUID; [contradiction|reflexivity].
    + intros key Hk. now apply lookup_insert_ne.
Qed.

Lemma session_id_is_stable_witness :
  getSessionId "6f1c" (<["theme" := "dark"]> ∅)
    = ("6f1c", <["sessionId" := "6f1c"]> (<["theme" := "dark"]> ∅)) /\
  getSessionId "09ab" (<["sessionId" := "6f1c"]> (<["theme" := "dark"]> ∅))
    = ("6f1c", <["sessionId" := "6f1c"]> (<["theme" := "dark"]> ∅)).
Proof.
  split; [reflexivity|].
  exact (proj1 (proj2 (proj2
    (session_id_is_stable "6f1c" (<["theme" := "dark"]> ∅)
       ltac:(discriminate)))) "09ab").
Defined.

End SessionId.

(** ** Images as data URLs (App, MessageBubble, utils/fileUtils) *)

Module DataUrl.

Import GeminiService.

(** [s.split(separator)] for a separator of one character. *)
Fixpoint split (separator : ascii) (s : string) : list string :=
  match s with
  | EmptyString => [EmptyString]
  | String a s' =>
      if Ascii.eqb a separator then EmptyString :: split separator s'
      else match split separator s' with
           | segment :: segments => String a segment :: segments
           | [] => [String a EmptyString]
           end
  end.

(** The characters that [.] does not match (their ASCII part). *)
Definition line_terminator (a : ascii) : bool :=
  (nat_of_ascii a =? 10)%nat || (nat_of_ascii a =? 13)%nat.

(** [(.*?);] at the start of [s]: the text before the first semicolon, if no
    line terminator comes before it. *)
Fixpoint upToSemicolon (s : string) : option string :=
  match s with
  | EmptyString => None
  | String a s' =>
      if Ascii.eqb a ";" then Some EmptyString
      else if line_terminator a then None
      else String a <$> upToSemicolon s'
  end.

(** The first group of [s.match(/:(.*?);/)]; [None] when there is no
    match. *)
Fixpoint matchMime (s : string) : option string :=
  match s with
  | EmptyString => None
  | String a s' =>
      if Ascii.eqb a ":" then
        match upToSemicolon s' with
        | Some group => Some group
        | None => matchMime s'
        end
      else matchMime s'
  end.

(** The onload handler of fileToImageData, on the result of
    [readAsDataURL]. *)
Definition fileToImageData (result : string) : Outcome ImageData :=
  let parts := split "," result in
  let header := parts !! 0%nat in
  let data := parts !! 1%nat in
  if negb (truthy header) || negb (truthy data) then
    Rejected (Error "Invalid file format")
  else
    let mimeTypeMatch := matchMime (default "" header) in
    if negb (truthy mimeTypeMatch) then
      Rejected (Error "Could not determine MIME type")
    else Resolved {| mimeType := default "" mimeTypeMatch;
                     data := default "" data |}.

(** [`data:${image.mimeType};base64,${image.data}`], the image URL that the
    application stores with a message. *)
Definition dataUrl (image : ImageData) : string :=
  "data:" +:+ mimeType image +:+ ";base64," +:+ data image.

(** What handleEdit, handleEnhance and handleRemoveBackground of a message
    bubble hand to their handler. *)
Record ImagePayload := mkImagePayload {
  payloadUrl : string;
  payloadMimeType : string;
  payloadData : string
}.

Definition handleEdit (imageUrl imageMimeType : option string)
    : option ImagePayload :=
  if truthy imageUrl && truthy imageMimeType then
    let base64Data := split "," (default "" imageUrl) !! 1%nat in
    if truthy base64Data then
      Some {| payloadUrl := default "" imageUrl;
              payloadMimeType := default "" imageMimeType;
              payloadData := default "" base64Data |}
    else None
  else None.

(** The file name extension the download button derives from the MIME
    type. *)
Definition lower_or_digit (a : ascii) : bool :=
  let n := nat_of_ascii a in
  ((97 <=? n)%nat && (n <=? 122)%nat) || ((48 <=? n)%nat && (n <=? 57)%nat).

Fixpoint all_chars (f : ascii -> bool) (s : string) : bool :=
  match s with
  | EmptyString => true
  | String a s' => f a && all_chars f s'
  end.

(** [/^[a-z0-9+]+$/.test(s)]. *)
Definition extTest (s : string) : bool :=
  truthy (Some s) && all_chars (fun a => lower_or_digit a || Ascii.eqb a "+") s.

Definition extension (mimeType : option string) : string :=
  if truthy mimeType then
    let extPart := split "/" (default "" mimeType) !! 1%nat in
    if truthy extPart && extTest (default "" extPart) then
      default "" (split "+" (default "" extPart) !! 0%nat)
    else "png"
  else "png".

(** [c] does not occur in [s]. *)
Definition free_of (c : ascii) (s : string) : bool :=
  all_chars (fun a => negb (Ascii.eqb a c)) s.

(** *** Splitting *)

Lemma split_free (c : ascii) (s : string) :
  free_of c s = true -> split c s = [s].
Proof.
  induction s as [|a s IH]; [reflexivity|]. cbn [free_of all_chars split].
  intros H. apply andb_true_iff in H. destruct H as [Ha Hs].
  apply negb_true_iff in Ha. rewrite Ha.
  change (all_chars (fun a => negb (Ascii.eqb a c)) s) with (free_of c s) in Hs.
  now rewrite (IH Hs).
Qed.

Lemma split_app (c : ascii) (s t : string) :
  free_of c s = true -> split c (s +:+ String c t) = s :: split c t.
Proof.
  induction s as [|a s IH]; intros H.
  - change ("" +:+ String c t) with (String c t). cbn [split].
    now rewrite Ascii.eqb_refl.
  - cbn [free_of all_chars] in H. apply andb_true_iff in H.
    destruct H as [Ha Hs]. apply negb_true_iff in Ha.
    change (String a s +:+ String c t) with (String a (s +:+ String c t)).
    cbn [split]. rewrite Ha.
    change (all_chars (fun a => negb (Ascii.eqb a c)) s) with (free_of c s) in Hs.
    now rewrite (IH Hs).
Qed.

Lemma free_of_app (c : ascii) (s t : string) :
  free_of c (s +:+ t) = free_of c s && free_of c t.
Proof.
  induction s as [|a s IH]; [reflexivity|].
  change (String a s +:+ t) with (String a (s +:+ t)).
  unfold free_of in *. cbn [all_chars]. rewrite IH. now rewrite andb_assoc.
Qed.

Lemma split_dataUrl (image : ImageData) :
  free_of "," (mimeType image) = true ->
  free_of "," (data image) = true ->
  split "," (dataUrl image)
    = ["data:" +:+ mimeType image +:+ ";base64"; data image].
Proof.
  intros Hm Hd. unfold dataUrl.
  replace ("data:" +:+ mimeType image +:+ ";base64," +:+ data image)
    with (("data:" +:+ mimeType image +:+ ";base64")
            +:+ String "," (data image)).
  - rewrite split_app.
    + now rewrite (split_free _ _ Hd).
    + change ("data:" +:+ mimeType image +:+ ";base64")
        with ("data:" +:+ (mimeType image +:+ ";base64")).
      now rewrite !free_of_app, Hm.
  - change ("data:" +:+ mimeType image +:+ ";base64," +:+ data image)
      with ("data:" +:+ (mimeType image +:+ (";base64," +:+ data image))).
    change ("data:" +:+ mimeType image +:+ ";base64")
      with ("data:" +:+ (mimeType image +:+ ";base64")).
    rewrite !append_assoc. reflexivity.
Qed.

Lemma upToSemicolon_app (m rest : string) :
  free_of ";" m = true ->
  all_chars (fun a => negb (line_terminator a)) m = true ->
  upToSemicolon (m +:+ String ";" rest) = Some m.
Proof.
  induction m as [|a m IH]; intros Hs Hl; [reflexivity|].
  cbn [free_of all_chars] in Hs, Hl.
  apply andb_true_iff in Hs, Hl. destruct Hs as [Ha Hs], Hl as [Hb Hl].
  apply negb_true_iff in Ha, Hb.
  change (String a m +:+ String ";" rest)
    with (String a (m +:+ String ";" rest)).
  cbn [upToSemicolon]. rewrite Ha, Hb.
  change (all_chars (fun a => negb (Ascii.eqb a ";")) m)
    with (free_of ";" m) in Hs.
  now rewrite (IH Hs Hl).
Qed.

(** The application's image URLs are read back as the image they were made
    from. An image picked from disk, whose file the browser reads as the
    data URL of its MIME type and base64 data, opens in the editor with that
    MIME type and data; this needs a MIME type and data that are not empty
    and hold no comma, and a MIME type without semicolon or line break. *)
Theorem uploaded_file_is_parsed (image : ImageData) :
  mimeType image <> "" -> data image <> "" ->
  free_of "," (mimeType image) = true ->
  free_of ";" (mimeType image) = true ->
  all_chars (fun a => negb (line_terminator a)) (mimeType image) = true ->
  free_of "," (data image) = true ->
  fileToImageData (dataUrl image) = Resolved image.
Proof.
  intros Hm Hd Hmc Hms Hml Hdc. unfold fileToImageData.
  rewrite (split_dataUrl image Hmc Hdc). cbn [lookup list_lookup].
  assert (Htd : truthy (Some (data image)) = true)
    by (destruct (data image); [contradiction|reflexivity]).
  rewrite Htd. cbn [truthy negb orb default from_option Datatypes.id].
  change ("data:" +:+ mimeType image +:+ ";base64")
    with (String "d" (String "a" (String "t" (String "a" (String ":"
            (mimeType image +:+ String ";" "base64")))))).
  assert (Hscan : forall s,
            matchMime (String "d" (String "a" (String "t" (String "a"
                         (String ":" s)))))
            = match upToSemicolon s with
              | Some group => Some group
              | None => matchMime s
              end) by reflexivity.
  rewrite Hscan, (upToSemicolon_app _ _ Hms Hml).
  assert (Htm : truthy (Some (mimeType image)) = true)
    by (destruct (mimeType image); [contradiction|reflexivity]).
  rewrite Htm. cbn [negb default from_option Datatypes.id].
  now destruct image.
Qed.

Definition png : ImageData :=
  {| mimeType := "image/png"; data := "iVBORw0KGgo=" |}.

Lemma uploaded_file_is_parsed_witness :
  fileToImageData "data:image/png;base64,iVBORw0KGgo=" = Resolved png.
Proof.
  apply (uploaded_file_is_parsed png); solve [discriminate | reflexivity].
Defined.

(** An image stored with a message reaches the editor, the enhancer and the
    background remover as it was returned by the service: its URL, its MIME
    type and its base64 data; this needs a MIME type and data that are not
    empty and hold no comma. *)
Theorem stored_image_is_handed_on (image : ImageData) :
  mimeType image <> "" -> data image <> "" ->
  free_of "," (mimeType image) = true ->
  free_of "," (data image) = true ->
  handleEdit (Some (dataUrl image)) (Some (mimeType image))
    = Some {| payloadUrl := dataUrl image;
              payloadMimeType := mimeType image;
              payloadData := data image |}.
Proof.
  intros Hm Hd Hmc Hdc. unfold handleEdit.
  cbn [default from_option Datatypes.id].
  rewrite (split_dataUrl image Hmc Hdc). cbn [lookup list_lookup].
  assert (Htd : truthy (Some (data image)) = true)
    by (destruct (data image); [contradiction|reflexivity]).
  assert (Htm : truthy (Some (mimeType image)) = true)
    by (destruct (mimeType image); [contradiction|reflexivity]).
  rewrite Htd, Htm. cbn [default from_option Datatypes.id andb].
  reflexivity.
Qed.

Lemma stored_image_is_handed_on_witness :
  handleEdit (Some "data:image/png;base64,iVBORw0KGgo=") (Some "image/png")
    = Some (mkImagePayload "data:image/png;base64,iVBORw0KGgo=" "image/png"
                           "iVBORw0KGgo=").
Proof.
  apply (stored_image_is_handed_on png); solve [discriminate | reflexivity].
Defined.

(** *** The download extension *)

Lemma split_head_lower_or_digit (s : string) :
  all_chars (fun a => lower_or_digit a || Ascii.eqb a "+") s = true ->
  exists first rest,
    split "+" s = first :: rest /\ all_chars lower_or_digit first = true.
Proof.
  induction s as [|a s IH]; intros H.
  - exists "", []. now split.
  - cbn [all_chars] in H. apply andb_true_iff in H. destruct H as [Ha Hs].
    cbn [split]. destruct (Ascii.eqb a "+") eqn:Ep.
    + exists "", (split "+" s). now split.
    + destruct (IH Hs) as (first & rest & -> & Hf).
      exists (String a first), rest. split; [reflexivity|].
      cbn [all_chars]. rewrite orb_false_r in Ha. now rewrite Ha, Hf.
Qed.

(** The extension of a downloaded file only holds lower-case letters and
    digits, whatever MIME type the message carries. For a MIME type
    type/subtype whose subtype is made of such characters (and whose type
    has no slash) it is the subtype. *)
Theorem download_extension_is_safe (mimeType : option string) :
  all_chars lower_or_digit (extension mimeType) = true /\
  (forall type subtype,
     mimeType = Some (type +:+ String "/" subtype) ->
     free_of "/" type = true ->
     subtype <> "" -> all_chars lower_or_digit subtype = true ->
     extension mimeType = subtype).
Proof.
  split.
  - unfold extension. destruct (truthy mimeType); [|reflexivity].
    destruct (split "/" (default "" mimeType) !! 1%nat) as [extPart|];
      [|reflexivity].
    cbn [default from_option Datatypes.id]. unfold extTest.
    destruct (truthy (Some extPart)); cbn [andb]; [|reflexivity].
    destruct (all_chars _ extPart) eqn:E; [|reflexivity].
    destruct (split_head_lower_or_digit extPart E) as (first & rest & -> & Hf).
    exact Hf.
  - intros type subtype -> Ht Hne Hs. unfold extension.
    assert (Hnoslash : free_of "/" subtype = true).
    { clear Hne. induction subtype as [|a s IH]; [reflexivity|].
      cbn [all_chars] in Hs. apply andb_true_iff in Hs.
      destruct Hs as [Ha Hs]. unfold free_of. cbn [all_chars].
      change (all_chars (fun a => negb (Ascii.eqb a "/")) s)
        with (free_of "/" s).
      rewrite (IH Hs), andb_true_r. apply negb_true_iff.
      destruct (Ascii.eqb_spec a "/") as [->|]; [discriminate|reflexivity]. }
    assert (Hnoplus : free_of "+" subtype = true).
    { clear Hne Hnoslash. induction subtype as [|a s IH]; [reflexivity|].
      cbn [all_chars] in Hs. apply andb_true_iff in Hs.
      destruct Hs as [Ha Hs]. unfold free_of. cbn [all_chars].
      change (all_chars (fun a => negb (Ascii.eqb a "+")) s)
        with (free_of "+" s).
      rewrite (IH Hs), andb_true_r. apply negb_true_iff.
      destruct (Ascii.eqb_spec a "+") as [->|]; [discriminate|reflexivity]. }
    assert (Htruthy : truthy (Some (type +:+ String "/" subtype)) = true).
    { destruct type; reflexivity. }
    rewrite Htruthy. cbn [default from_option Datatypes.id].
    rewrite (split_app _ _ _ Ht), (split_free _ _ Hnoslash).
    cbn [lookup list_lookup default from_option Datatypes.id].
    assert (Hts : truthy (Some subtype) = true)
      by (destruct subtype; [contradiction|reflexivity]).
    unfold extTest. rewrite Hts. cbn [andb].
    assert (Hall : all_chars (fun a => lower_or_digit a || Ascii.eqb a "+")
                             subtype = true).
    { clear -Hs. induction subtype as [|a s IH]; [reflexivity|].
      cbn [all_chars] in *. apply andb_true_iff in Hs.
      destruct Hs as [Ha Hs]. now rewrite Ha, (IH Hs). }
    rewrite Hall, (split_free _ _ Hnoplus). reflexivity.
Qed.

Lemma download_extension_is_safe_witness :
  extension (Some "image/jpeg") = "jpeg".
Proof.
  apply (proj2 (download_extension_is_safe (Some "image/jpeg")) "image" "jpeg");
    solve [discriminate | reflexivity].
Defined.

Example extension_of_svg : extension (Some "image/svg+xml") = "svg".
Proof. reflexivity. Qed.

End DataUrl.

(** ** The application's handlers (App) *)

Module App.

Import GeminiService MessageStore ConversationHistory DataUrl.



Definition imageMessage (resultImage : ImageData) : MessageData :=
  {| MessageStore.role := MODEL; MessageStore.text := None;
     imageUrl := Some (dataUrl resultImage);
     imageMimeType := Some (mimeType resultImage);
     generationParams := None |}.


Section Handlers.

Variable generateContent : Request -> Outcome Response.
Variable sessionId : string.


End Handlers.

(** *** Download all *)

(** The call of [zip.file] that the loop of handleDownloadAll makes for the
    message at [index], if it makes one: file name and base64 data.
    [clock index] is [new Date().getTime()] in that iteration. *)
Definition zipEntry (clock : nat -> Z) (index : nat)
    (imageMsg : ConversationHistory.Message) : option (string * string) :=
  if truthy (imageUrl (data imageMsg)) then
    let parts := split "," (default "" (imageUrl (data imageMsg))) in
    let data' := parts !! 1%nat in
    if truthy data' && truthy (imageMimeType (data imageMsg)) then
      let extPart :=
        split "/" (default "" (imageMimeType (data imageMsg))) !! 1%nat in
      let extension := if truthy extPart then default "" extPart else "png" in
      let timestamp :=
        if startsWith "db-" (ConversationHistory.id imageMsg)
        then pretty (clock index + Z.of_nat index)
        else ConversationHistory.id imageMsg in
      let fileName := "aura-lofi-" +:+ timestamp +:+ "." +:+ extension in
      Some (fileName, default "" data')
    else None
  else None.

(** [messagesWithImages.forEach((imageMsg, index) => ...)], from [index]
    on. *)
Fixpoint zipEntries (clock : nat -> Z) (index : nat)
    (messagesWithImages : list ConversationHistory.Message)
    : list (string * string) :=
  match messagesWithImages with
  | [] => []
  | imageMsg :: rest =>
      match zipEntry clock index imageMsg with
      | Some entry => entry :: zipEntries clock (S index) rest
      | None => zipEntries clock (S index) rest
      end
  end.

(** The files handleDownloadAll puts into the archive, in the order of the
    calls; [None] when it stops at "There are no images to download."
    (initDB, which it awaits first, never rejects, and its result is not
    read.) *)
Definition handleDownloadAll (clock : nat -> Z)
    (messages : list ConversationHistory.Message)
    : option (list (string * string)) :=
  let messagesWithImages :=
    List.filter (fun msg => truthy (imageUrl (data msg))) messages in
  if (length messagesWithImages =? 0)%nat then None
  else Some (zipEntries clock 0 messagesWithImages).

(** *** Properties *)




(** *** File names in the archive *)

Lemma pretty_N_go_all (P : ascii -> bool) (x : N) :
  (forall d, P (pretty_N_char d) = true) ->
  forall s, all_chars P s = true -> all_chars P (pretty_N_go x s) = true.
Proof.
  intros HP. induction (N.lt_wf_0 x) as [x _ IH]; intros s Hs.
  assert (x = 0 \/ 0 < x)%N as [->|Hx] by lia.
  - now rewrite pretty_N_go_0.
  - rewrite pretty_N_go_step by exact Hx. apply IH.
    + now apply N.div_lt.
    + cbn [all_chars]. now rewrite HP, Hs.
Qed.

Lemma pretty_Z_no_dot (z : Z) : free_of "." (pretty z) = true.
Proof.
  assert (HP : forall d, negb (Ascii.eqb (pretty_N_char d) ".") = true).
  { intros d. unfold pretty_N_char. repeat case_match; reflexivity. }
  assert (HN : forall n : N, free_of "." (pretty n) = true).
  { intros n. unfold pretty, pretty_N.
    destruct (decide (n = 0%N)); [reflexivity|].
    now apply pretty_N_go_all. }
  destruct z as [|p|p]; [reflexivity|apply (HN (N.pos p))|].
  change (pretty (Z.neg p)) with (String "-" (pretty (N.pos p))).
  unfold free_of. cbn [all_chars]. apply (HN (N.pos p)).
Qed.

Lemma before_dot (x : string) : forall y e e',
  free_of "." x = true -> free_of "." y = true ->
  x +:+ String "." e = y +:+ String "." e' -> x = y.
Proof.
  induction x as [|a x IH]; intros [|b y] e e' Hx Hy H.
  - reflexivity.
  - change ("" +:+ String "." e) with (String "." e) in H.
    change (String b y +:+ String "." e')
      with (String b (y +:+ String "." e')) in H.
    injection H as <- _. discriminate.
  - change ("" +:+ String "." e') with (String "." e') in H.
    change (String a x +:+ String "." e)
      with (String a (x +:+ String "." e)) in H.
    injection H as -> _. discriminate.
  - change (String a x +:+ String "." e)
      with (String a (x +:+ String "." e)) in H.
    change (String b y +:+ String "." e')
      with (String b (y +:+ String "." e')) in H.
    injection H as <- H.
    unfold free_of in Hx, Hy. cbn [all_chars] in Hx, Hy.
    apply andb_true_iff in Hx, Hy. destruct Hx as [_ Hx], Hy as [_ Hy].
    f_equal. now apply (IH y e e').
Qed.

Definition fileName (n : Z) (extension : string) : string :=
  "aura-lofi-" +:+ pretty n +:+ "." +:+ extension.

Lemma fileName_inj (n n' : Z) (e e' : string) :
  fileName n e = fileName n' e' -> n = n'.
Proof.
  unfold fileName. intros H.
  apply (f_equal (strip_prefix "aura-lofi-")) in H.
  rewrite !strip_prefix_app in H. injection H as H.
  apply (inj pretty).
  apply (before_dot _ _ e e'); [apply pretty_Z_no_dot..|exact H].
Qed.

Lemma zipEntry_name (clock : nat -> Z) (index : nat)
    (imageMsg : ConversationHistory.Message) (entry : string * string) :
  startsWith "db-" (ConversationHistory.id imageMsg) = true ->
  zipEntry clock index imageMsg = Some entry ->
  exists extension,
    entry.1 = fileName (clock index + Z.of_nat index) extension.
Proof.
  intros Hdb. unfold zipEntry. rewrite Hdb.
  destruct (truthy (imageUrl (data imageMsg))); [|discriminate].
  destruct (_ && _); [|discriminate].
  intros [= <-]. eexists. reflexivity.
Qed.

Lemma zipEntries_names (clock : nat -> Z)
    (msgs : list ConversationHistory.Message) :
  Forall (fun msg => startsWith "db-" (ConversationHistory.id msg) = true)
         msgs ->
  forall index entry, entry ∈ zipEntries clock index msgs ->
  exists j extension,
    (index <= j)%nat /\ entry.1 = fileName (clock j + Z.of_nat j) extension.
Proof.
  induction 1 as [|msg msgs Hmsg _ IH]; intros index entry Hin.
  - cbn in Hin. now apply elem_of_nil in Hin.
  - cbn [zipEntries] in Hin.
    destruct (zipEntry clock index msg) as [e|] eqn:E.
    + apply elem_of_cons in Hin. destruct Hin as [->|Hin].
      * destruct (zipEntry_name clock index msg e Hmsg E) as [ext Hn].
        exists index, ext. split; [lia|exact Hn].
      * destruct (IH (S index) entry Hin) as (j & ext & Hj & Hn).
        exists j, ext. split; [lia|exact Hn].
    + destruct (IH (S index) entry Hin) as (j & ext & Hj & Hn).
      exists j, ext. split; [lia|exact Hn].
Qed.

(** "Download all" gives every image a file of its own: as long as the
    clock does not run backwards and the images on screen are saved
    messages, no two files of the archive have the same name, so no image
    replaces another. *)
Theorem download_all_names_are_distinct (clock : nat -> Z)
    (messages : list ConversationHistory.Message)
    (files : list (string * string)) :
  (forall i j, (i <= j)%nat -> clock i <= clock j) ->
  (forall msg, msg ∈ messages -> truthy (imageUrl (data msg)) = true ->
               startsWith "db-" (ConversationHistory.id msg) = true) ->
  handleDownloadAll clock messages = Some files ->
  NoDup (map fst files).
Proof.
  intros Hclock Hsaved. unfold handleDownloadAll.
  set (withImages := List.filter _ messages).
  destruct (length withImages =? 0)%nat; [discriminate|]. intros [= <-].
  assert (Hdb : Forall (fun msg =>
                  startsWith "db-" (ConversationHistory.id msg) = true)
                  withImages).
  { apply List.Forall_forall. intros msg Hin. unfold withImages in Hin.
    apply filter_In in Hin. destruct Hin as [Hin Hurl].
    apply Hsaved; [|exact Hurl]. now apply list_elem_of_In. }
  generalize 0%nat as index. induction Hdb as [|msg msgs Hmsg Hdb IH];
    intros index; [constructor|].
  cbn [zipEntries].
  destruct (zipEntry clock index msg) as [e|] eqn:E; [|apply IH].
  cbn [map]. constructor; [|apply IH].
  intros Hin. apply list_elem_of_fmap in Hin.
  destruct Hin as (e' & Heq & Hin).
  destruct (zipEntry_name clock index msg e Hmsg E) as [ext Hn].
  destruct (zipEntries_names clock msgs Hdb (S index) e' Hin)
    as (j & ext' & Hj & Hn').
  rewrite Hn, Hn' in Heq. apply fileName_inj in Heq.
  pose proof (Hclock index j ltac:(lia)). lia.
Qed.

Definition picture (key : N) : ConversationHistory.Message :=
  {| ConversationHistory.id := dbMessageId key;
     data := imageMessage png |}.

(** Two images zipped within the same millisecond. *)
Lemma download_all_names_are_distinct_witness :
  handleDownloadAll (fun _ => 1700000000000)
                    [initialMessage; picture 2; picture 4]
    = Some [("aura-lofi-1700000000000.png", "iVBORw0KGgo=");
            ("aura-lofi-1700000000001.png", "iVBORw0KGgo=")] /\
  NoDup ["aura-lofi-1700000000000.png"; "aura-lofi-1700000000001.png"].
Proof.
  split; [vm_compute; reflexivity|].
  apply (download_all_names_are_distinct (fun _ => 1700000000000)
           [initialMessage; picture 2; picture 4]
           [("aura-lofi-1700000000000.png", "iVBORw0KGgo=");
            ("aura-lofi-1700000000001.png", "iVBORw0KGgo=")]).
  - intros i j _. lia.
  - intros msg Hin Hurl.
    apply elem_of_cons in Hin. destruct Hin as [->|Hin]; [discriminate|].
    apply elem_of_cons in Hin. destruct Hin as [->|Hin]; [reflexivity|].
    apply list_elem_of_singleton in Hin. subst msg. reflexivity.
  - vm_compute. reflexivity.
Defined.

End App.

(** ** The prompt shown with an image (ImageDetailsModal) *)

Module ImageDetails.

Import GeminiService MessageStore ConversationHistory.

(** [l.findIndex(f)]: the index of the first element that satisfies [f],
    or -1. *)
Fixpoint findIndex {A} (f : A -> bool) (l : list A) : Z :=
  match l with
  | [] => -1
  | x :: l' =>
      if f x then 0
      else let r := findIndex f l' in if r <? 0 then -1 else r + 1
  end.

(** [for (let i = n - 1; i >= 0; i--) if (messages[i].role === Role.USER)
    return messages[i]], and [null] after the loop. The indices the loop
    visits lie inside the list. *)
Fixpoint scanBack (messages : list Message) (n : nat) : option Message :=
  match n with
  | O => None
  | S i =>
      match messages !! i with
      | Some m =>
          match role (data m) with
          | USER => Some m
          | _ => scanBack messages i
          end
      | None => None
      end
  end.

Definition associatedPrompt (selectedMessage : option Message)
    (messages : list Message) : option Message :=
  match selectedMessage with
  | None => None
  | Some selected =>
      let modelMsgIndex :=
        findIndex (fun m => String.eqb (id m) (id selected)) messages in
      if 0 <? modelMsgIndex then scanBack messages (Z.to_nat modelMsgIndex)
      else None
  end.

Lemma findIndex_range {A} (f : A -> bool) (l : list A) :
  -1 <= findIndex f l < Z.of_nat (length l).
Proof.
  induction l as [|x l IH]; cbn [findIndex length]; [lia|].
  destruct (f x); [lia|].
  destruct (Z.ltb_spec (findIndex f l) 0); lia.
Qed.

Lemma findIndex_app {A} (f : A -> bool) (pre : list A) (x : A)
    (post : list A) :
  Forall (fun y => f y = false) pre -> f x = true ->
  findIndex f (pre ++ x :: post) = Z.of_nat (length pre).
Proof.
  induction 1 as [|y pre Hy _ IH]; intros Hx; cbn [app findIndex length].
  - now rewrite Hx.
  - rewrite Hy, (IH Hx).
    destruct (Z.ltb_spec (Z.of_nat (length pre)) 0); lia.
Qed.

Lemma findIndex_found {A} (f : A -> bool) (l : list A) :
  0 <= findIndex f l ->
  exists pre x post,
    l = pre ++ x :: post /\ Forall (fun y => f y = false) pre /\
    f x = true /\ findIndex f l = Z.of_nat (length pre).
Proof.
  induction l as [|y l IH]; cbn [findIndex]; [lia|].
  destruct (f y) eqn:Hy.
  - intros _. exists [], y, l. repeat split; auto.
  - destruct (Z.ltb_spec (findIndex f l) 0) as [|Hge]; [lia|]. intros _.
    destruct (IH Hge) as (pre & x & post & -> & Hpre & Hx & Hi).
    exists (y :: pre), x, post. repeat split; auto.
    cbn [length]. lia.
Qed.

Definition notUser (m : Message) : Prop := role (data m) <> USER.

Lemma scanBack_spec (messages : list Message) (p : Message) (n : nat) :
  (n <= length messages)%nat ->
  scanBack messages n = Some p <->
  exists before between,
    take n messages = before ++ p :: between /\
    role (data p) = USER /\ Forall notUser between.
Proof.
  induction n as [|i IH]; intros Hn.
  - cbn. split; [discriminate|].
    intros (before & between & H & _). now destruct before.
  - destruct (lookup_lt_is_Some_2 messages i ltac:(lia)) as [m Hm].
    cbn [scanBack]. rewrite Hm, (take_S_r _ _ _ Hm).
    assert (Hcases : role (data m) = USER \/ notUser m).
    { unfold notUser. destruct (role (data m)); auto; right; discriminate. }
    destruct Hcases as [Hu|Hnu].
    + rewrite Hu. split.
      * intros [= <-]. exists (take i messages), []. now repeat split.
      * intros (before & between & H & Hp & Hb).
        destruct between as [|x b' _] using rev_ind.
        -- apply app_inj_tail in H. destruct H as [_ ->]. reflexivity.
        -- change (before ++ p :: b' ++ [x])
             with (before ++ (p :: b') ++ [x]) in H.
           rewrite app_assoc in H. apply app_inj_tail in H.
           destruct H as [_ ->]. apply Forall_app in Hb.
           destruct Hb as [_ Hb]. inversion Hb; subst. contradiction.
    + assert (Hrw : match role (data m) with
                    | USER => Some m
                    | _ => scanBack messages i
                    end = scanBack messages i).
      { unfold notUser in Hnu. destruct (role (data m)); congruence. }
      rewrite Hrw, (IH ltac:(lia)). split.
      * intros (before & between & H & Hp & Hb).
        exists before, (between ++ [m]). rewrite H, <- app_assoc.
        repeat split; auto. apply Forall_app. split; [exact Hb|].
        now constructor.
      * intros (before & between & H & Hp & Hb).
        destruct between as [|x b' _] using rev_ind.
        -- apply app_inj_tail in H. destruct H as [_ ->]. contradiction.
        -- change (before ++ p :: b' ++ [x])
             with (before ++ (p :: b') ++ [x]) in H.
           rewrite app_assoc in H. apply app_inj_tail in H.
           destruct H as [H _]. apply Forall_app in Hb.
           destruct Hb as [Hb _]. now exists before, b'.
Qed.

(** The prompt shown in the details of an image is the nearest user
    message above it: associatedPrompt returns p exactly when p is a user
    message that stands before the first message with the id of the
    selected one, with no user message in between. *)
Theorem associated_prompt_is_nearest_user_message (selected p : Message)
    (messages : list Message) :
  associatedPrompt (Some selected) messages = Some p <->
  exists before between target after,
    messages = before ++ p :: between ++ target :: after /\
    id target = id selected /\
    role (data p) = USER /\
    Forall notUser between /\
    Forall (fun m => id m <> id selected) (before ++ p :: between).
Proof.
  unfold associatedPrompt.
  set (f := fun m : Message => String.eqb (id m) (id selected)).
  assert (Hf : forall l, Forall (fun m => id m <> id selected) l <->
                         Forall (fun m => f m = false) l).
  { intros l. apply Forall_proper; [|reflexivity]. intros m. unfold f.
    symmetry. apply String.eqb_neq. }
  split.
  - destruct (Z.ltb_spec 0 (findIndex f messages)) as [Hpos|]; [|discriminate].
    intros Hscan.
    destruct (findIndex_found f messages ltac:(lia))
      as (pre & target & after & Hm & Hpre & Ht & Hi).
    rewrite Hi, Nat2Z.id in Hscan.
    apply scanBack_spec in Hscan;
      [|rewrite Hm, length_app; lia].
    destruct Hscan as (before & between & Htake & Hp & Hb).
    rewrite Hm, take_app_length in Htake. subst pre.
    exists before, between, target, after.
    split; [now rewrite Hm, <- app_assoc|].
    split; [now apply String.eqb_eq|].
    split; [exact Hp|]. split; [exact Hb|]. now apply Hf.
  - intros (before & between & target & after & Hm & Ht & Hp & Hb & Hids).
    assert (Hm' : messages = (before ++ p :: between) ++ target :: after)
      by (now rewrite <- app_assoc).
    assert (Hi : findIndex f messages
                 = Z.of_nat (length (before ++ p :: between))).
    { rewrite Hm'. apply findIndex_app; [now apply Hf|].
      now apply String.eqb_eq. }
    rewrite Hi.
    destruct (Z.ltb_spec 0 (Z.of_nat (length (before ++ p :: between))))
      as [_|Hle]; [|rewrite length_app in Hle; cbn [length] in Hle; lia].
    rewrite Nat2Z.id. apply scanBack_spec.
    + rewrite Hm', (length_app (before ++ p :: between)). lia.
    + exists before, between. rewrite Hm', take_app_length. now repeat split.
Qed.

Definition request (t : string) (key : N) : Message :=
  {| id := dbMessageId key; data := textMessage USER t |}.

Definition answer (key : N) : Message :=
  {| id := dbMessageId key;
     data := {| role := MODEL; text := None;
                imageUrl := Some "data:image/png;base64,iVBORw0KGgo=";
                imageMimeType := Some "image/png";
                generationParams := None |} |}.

Lemma associated_prompt_is_nearest_user_message_witness :
  associatedPrompt (Some (answer 4))
    [initialMessage; request "a red cube" 1; answer 2;
     request "a blue ball" 3; answer 4]
  = Some (request "a blue ball" 3).
Proof.
  apply (proj2 (associated_prompt_is_nearest_user_message (answer 4)
                  (request "a blue ball" 3) _)).
  exists [initialMessage; request "a red cube" 1; answer 2], [], (answer 4), [].
  split; [reflexivity|]. split; [reflexivity|]. split; [reflexivity|].
  split; [constructor|].
  repeat (constructor; [discriminate|]). constructor.
Defined.

End ImageDetails.

(** ** The 2D canvas, as far as the editor draws on it *)

Module Canvas2D.

Local Open Scope R_scope.

Record Point := mkPoint { px : R; py : R }.

(** An RGBA pixel. *)
Record Color := mkColor { red : Z; green : Z; blue : Z; alpha : Z }.

Definition transparent : Color := mkColor 0 0 0 0.

(** A decoded image or the bitmap of a canvas used as an image source:
    [pixelAt i j] is the pixel in column [i] and row [j]. *)
Record Image := mkImage {
  naturalWidth : Z;
  naturalHeight : Z;
  pixelAt : Z -> Z -> Color
}.

(** The current transformation matrix: a point (x, y) of user space lies at
    (ma x + mc y + me, mb x + md y + mf) on the bitmap. *)
Record Matrix := mkMatrix { ma : R; mb : R; mc : R; md : R; me : R; mf : R }.

Definition identityMatrix : Matrix := mkMatrix 1 0 0 1 0 0.

Definition transformPoint (m : Matrix) (p : Point) : Point :=
  {| px := ma m * px p + mc m * py p + me m;
     py := mb m * px p + md m * py p + mf m |}.

(** [m * n]: apply [n] first, then [m]. *)
Definition multiply (m n : Matrix) : Matrix :=
  {| ma := ma m * ma n + mc m * mb n;
     mb := mb m * ma n + md m * mb n;
     mc := ma m * mc n + mc m * md n;
     md := mb m * mc n + md m * md n;
     me := ma m * me n + mc m * mf n + me m;
     mf := mb m * me n + md m * mf n + mf m |}.

Definition determinant (m : Matrix) : R := ma m * md m - mb m * mc m.

Definition inverse (m : Matrix) : Matrix :=
  let det := determinant m in
  {| ma := md m / det;
     mb := - mb m / det;
     mc := - mc m / det;
     md := ma m / det;
     me := (mc m * mf m - md m * me m) / det;
     mf := (mb m * me m - ma m * mf m) / det |}.

(** The drawing state of a 2D context. *)
Record Context := mkContext {
  transform : Matrix;
  filter : string
}.

Definition freshContext : Context :=
  {| transform := identityMatrix; filter := "none" |}.

Definition translate (tx ty : R) (ctx : Context) : Context :=
  {| transform := multiply (transform ctx) (mkMatrix 1 0 0 1 tx ty);
     filter := filter ctx |}.

Definition rotate (angle : R) (ctx : Context) : Context :=
  {| transform := multiply (transform ctx)
       (mkMatrix (cos angle) (sin angle) (- sin angle) (cos angle) 0 0);
     filter := filter ctx |}.

Definition scale (sx sy : R) (ctx : Context) : Context :=
  {| transform := multiply (transform ctx) (mkMatrix sx 0 0 sy 0 0);
     filter := filter ctx |}.

(** A canvas element: its bitmap dimensions and pixels. *)
Record Canvas := mkCanvas {
  width : Z;
  height : Z;
  bitmap : Z -> Z -> Color
}.

(** Assigning a number to [canvas.width] or [canvas.height]: the value is
    truncated to an unsigned 32-bit integer (the numbers assigned here are
    never negative) and the bitmap is cleared. *)
Definition toDimension (v : R) : Z := Zfloor v mod 2 ^ 32.

Definition createCanvas (w h : R) : Canvas :=
  {| width := toDimension w; height := toDimension h;
     bitmap := fun _ _ => transparent |}.

Definition asImage (c : Canvas) : Image :=
  {| naturalWidth := width c; naturalHeight := height c;
     pixelAt := bitmap c |}.

(** [canvas.toDataURL('image/png')] followed by decoding the result as an
    image: a canvas without pixels yields ["data:,"], which is no image. *)
Definition toImage (c : Canvas) : option Image :=
  if ((0 <? width c) && (0 <? height c))%Z then Some (asImage c) else None.

(** [lo <= v < hi]. *)
Definition within (lo hi v : R) : bool :=
  if Rle_dec lo v then (if Rlt_dec v hi then true else false) else false.

Section Browser.

(** How the browser resamples an image at a point of its own coordinate
    space (the pixel in column i, row j covers [i, i+1) x [j, j+1)). *)
Variable sample : Image -> R -> R -> Color.

(** The colour transformation that a value of [ctx.filter] stands for. *)
Variable cssFilter : string -> Color -> Color.

(** [ctx.drawImage(source, sx, sy, sw, sh, dx, dy, dw, dh)] onto a canvas
    whose pixels are still transparent where the image lands, so that
    source-over compositing leaves the colour of the source. The pixel in
    column i, row j takes the colour found at its centre. *)
Definition drawImage (ctx : Context) (source : Image)
    (sx sy sw sh dx dy dw dh : R) (c : Canvas) : Canvas :=
  let paintAt (i j : Z) : Color :=
    let u := transformPoint (inverse (transform ctx))
                            (mkPoint (IZR i + / 2) (IZR j + / 2)) in
    if within dx (dx + dw) (px u) && within dy (dy + dh) (py u) then
      let qx := sx + (px u - dx) * (sw / dw) in
      let qy := sy + (py u - dy) * (sh / dh) in
      if within 0 (IZR (naturalWidth source)) qx
         && within 0 (IZR (naturalHeight source)) qy
      then cssFilter (filter ctx) (sample source qx qy)
      else bitmap c i j
    else bitmap c i j in
  {| width := width c; height := height c; bitmap := paintAt |}.

(** [ctx.drawImage(source, dx, dy, dw, dh)]. *)
Definition drawImage5 (ctx : Context) (source : Image) (dx dy dw dh : R)
    (c : Canvas) : Canvas :=
  drawImage ctx source 0 0 (IZR (naturalWidth source))
            (IZR (naturalHeight source)) dx dy dw dh c.

(** [ctx.drawImage(source, dx, dy)]. *)
Definition drawImage3 (ctx : Context) (source : Image) (dx dy : R)
    (c : Canvas) : Canvas :=
  drawImage5 ctx source dx dy (IZR (naturalWidth source))
             (IZR (naturalHeight source)) c.

End Browser.

Lemma transformPoint_multiply (m n : Matrix) (p : Point) :
  transformPoint (multiply m n) p = transformPoint m (transformPoint n p).
Proof.
  unfold transformPoint, multiply. cbn [ma mb mc md me mf px py].
  f_equal; ring.
Qed.

Lemma transformPoint_identity (p : Point) : transformPoint identityMatrix p = p.
Proof.
  destruct p as [u v]. unfold transformPoint, identityMatrix.
  cbn [ma mb mc md me mf px py]. f_equal; ring.
Qed.

Lemma transformPoint_translate (tx ty : R) (ctx : Context) (p : Point) :
  transformPoint (transform (translate tx ty ctx)) p =
  transformPoint (transform ctx) (mkPoint (px p + tx) (py p + ty)).
Proof.
  unfold translate. cbn [transform]. rewrite transformPoint_multiply.
  f_equal. unfold transformPoint. cbn [ma mb mc md me mf px py].
  f_equal; ring.
Qed.

Lemma transformPoint_scale (sx sy : R) (ctx : Context) (p : Point) :
  transformPoint (transform (scale sx sy ctx)) p =
  transformPoint (transform ctx) (mkPoint (sx * px p) (sy * py p)).
Proof.
  unfold scale. cbn [transform]. rewrite transformPoint_multiply.
  f_equal. unfold transformPoint. cbn [ma mb mc md me mf px py].
  f_equal; ring.
Qed.

Lemma transformPoint_rotate (angle : R) (ctx : Context) (p : Point) :
  transformPoint (transform (rotate angle ctx)) p =
  transformPoint (transform ctx)
    (mkPoint (cos angle * px p - sin angle * py p)
             (sin angle * px p + cos angle * py p)).
Proof.
  unfold rotate. cbn [transform]. rewrite transformPoint_multiply.
  f_equal. unfold transformPoint. cbn [ma mb mc md me mf px py].
  f_equal; ring.
Qed.

Lemma within_spec (lo hi v : R) : within lo hi v = true <-> lo <= v < hi.
Proof.
  unfold within. destruct (Rle_dec lo v), (Rlt_dec v hi);
    split; intros H; try discriminate; try reflexivity; lra.
Qed.

Lemma inverse_identity_point (p : Point) :
  transformPoint (inverse identityMatrix) p = p.
Proof.
  destruct p as [u v]. unfold transformPoint, inverse, determinant,
    identityMatrix. cbn [ma mb mc md me mf px py]. f_equal; field.
Qed.

Lemma toDimension_IZR (n : Z) : (0 <= n < 2 ^ 32)%Z -> toDimension (IZR n) = n.
Proof.
  intros Hn. unfold toDimension. rewrite ZfloorZ. now apply Z.mod_small.
Qed.

Lemma toDimension_floor (v : R) :
  0 <= v < IZR (2 ^ 32) ->
  toDimension v = Zfloor v /\ IZR (toDimension v) <= v.
Proof.
  intros [H0 H1]. unfold toDimension.
  pose proof (Zfloor_bound v) as [Hlo Hhi].
  assert (Hz0 : (0 <= Zfloor v)%Z) by (apply Zfloor_lub; exact H0).
  assert (Hz1 : (Zfloor v < 2 ^ 32)%Z) by (apply lt_IZR; lra).
  rewrite Z.mod_small by lia. split; [reflexivity|exact Hlo].
Qed.

End Canvas2D.

(** ** Crop interactor: the box and its nine drag handles *)

Module Crop.

Import Canvas2D.
Local Open Scope R_scope.

Inductive CropHandle :=
| HandleMove | HandleNW | HandleN | HandleNE | HandleE
| HandleSE | HandleS | HandleSW | HandleW.

(** The string that stands for a handle in the source. *)
Definition handleName (h : CropHandle) : string :=
  match h with
  | HandleMove => "move"
  | HandleNW => "nw"
  | HandleN => "n"
  | HandleNE => "ne"
  | HandleE => "e"
  | HandleSE => "se"
  | HandleS => "s"
  | HandleSW => "sw"
  | HandleW => "w"
  end.

(** [hay.includes(needle)]. *)
Fixpoint js_includes (needle hay : string) : bool :=
  String.prefix needle hay ||
  match hay with
  | EmptyString => false
  | String _ rest => js_includes needle rest
  end.

Record CropBox := mkCropBox { x : R; y : R; width : R; height : R }.

(** The state that the crop drag effect depends on. *)
Record CropState := mkCropState {
  isCropping : bool;
  cropBox : option CropBox;
  draggingHandle : option CropHandle;
  dragStartPos : Point
}.

(** The box after the handle's delta was applied, before the correction of
    negative extents. *)
Definition rawUpdate (h : CropHandle) (dx dy : R) (box : CropBox) : CropBox :=
  match h with
  | HandleMove =>
      {| x := x box + dx; y := y box + dy;
         width := width box; height := height box |}
  | _ =>
      let name := handleName h in
      let b1 := if js_includes "n" name
                then {| x := x box; y := y box + dy;
                        width := width box; height := height box - dy |}
                else box in
      let b2 := if js_includes "s" name
                then {| x := x b1; y := y b1;
                        width := width b1; height := height b1 + dy |}
                else b1 in
      let b3 := if js_includes "w" name
                then {| x := x b2 + dx; y := y b2;
                        width := width b2 - dx; height := height b2 |}
                else b2 in
      if js_includes "e" name
      then {| x := x b3; y := y b3;
              width := width b3 + dx; height := height b3 |}
      else b3
  end.

(** The correction of negative extents at the end of the handler. *)
Definition normalize (box : CropBox) : CropBox :=
  let b1 := if Rlt_dec (width box) 0
            then {| x := x box + width box; y := y box;
                    width := Rabs (width box); height := height box |}
            else box in
  if Rlt_dec (height b1) 0
  then {| x := x b1; y := y b1 + height b1;
          width := width b1; height := Rabs (height b1) |}
  else b1.

(** handleMouseMove of the crop drag effect; [pos] is getMousePos(e). *)
Definition handleMouseMove (pos : Point) (st : CropState) : CropState :=
  match isCropping st, draggingHandle st, cropBox st with
  | true, Some h, Some box =>
      let dx := px pos - px (dragStartPos st) in
      let dy := py pos - py (dragStartPos st) in
      let newBox := normalize (rawUpdate h dx dy box) in
      {| isCropping := isCropping st;
         cropBox := Some newBox;
         draggingHandle := draggingHandle st;
         dragStartPos := pos |}
  | _, _, _ => st
  end.

(** The points of the plane that a box spans, whatever the signs of its
    extents. *)
Definition covers (box : CropBox) (p : Point) : Prop :=
  Rmin (x box) (x box + width box) <= px p <= Rmax (x box) (x box + width box) /\
  Rmin (y box) (y box + height box) <= py p <= Rmax (y box) (y box + height box).

(** The eight resize handles: which bounds each one moves. *)
Lemma rawUpdate_table (dx dy : R) (box : CropBox) :
  rawUpdate HandleN dx dy box =
    mkCropBox (x box) (y box + dy) (width box) (height box - dy) /\
  rawUpdate HandleS dx dy box =
    mkCropBox (x box) (y box) (width box) (height box + dy) /\
  rawUpdate HandleW dx dy box =
    mkCropBox (x box + dx) (y box) (width box - dx) (height box) /\
  rawUpdate HandleE dx dy box =
    mkCropBox (x box) (y box) (width box + dx) (height box) /\
  rawUpdate HandleNW dx dy box =
    mkCropBox (x box + dx) (y box + dy) (width box - dx) (height box - dy) /\
  rawUpdate HandleNE dx dy box =
    mkCropBox (x box) (y box + dy) (width box + dx) (height box - dy) /\
  rawUpdate HandleSW dx dy box =
    mkCropBox (x box + dx) (y box) (width box - dx) (height box + dy) /\
  rawUpdate HandleSE dx dy box =
    mkCropBox (x box) (y box) (width box + dx) (height box + dy).
Proof. destruct box. repeat split. Qed.

Lemma normalize_extents (box : CropBox) :
  0 <= width (normalize box) /\ 0 <= height (normalize box).
Proof.
  unfold normalize.
  destruct (Rlt_dec (width box) 0) as [Hw|Hw]; cbn [height width];
    destruct (Rlt_dec (height box) 0) as [Hh|Hh]; cbn [height width];
    split; try apply Rabs_pos; lra.
Qed.

Lemma normalize_width (box : CropBox) :
  (width box < 0 ->
     x (normalize box) = x box + width box /\
     width (normalize box) = Rabs (width box)) /\
  (~ width box < 0 ->
     x (normalize box) = x box /\ width (normalize box) = width box).
Proof.
  unfold normalize.
  destruct (Rlt_dec (width box) 0) as [Hw|Hw]; cbn [height width x];
    destruct (Rlt_dec (height box) 0) as [Hh|Hh]; cbn [height width x];
    split; intros H; try contradiction; split; reflexivity.
Qed.

Lemma normalize_height (box : CropBox) :
  (height box < 0 ->
     y (normalize box) = y box + height box /\
     height (normalize box) = Rabs (height box)) /\
  (~ height box < 0 ->
     y (normalize box) = y box /\ height (normalize box) = height box).
Proof.
  unfold normalize.
  destruct (Rlt_dec (width box) 0) as [Hw|Hw]; cbn [height width y];
    destruct (Rlt_dec (height box) 0) as [Hh|Hh]; cbn [height width y];
    split; intros H; try contradiction; split; reflexivity.
Qed.

Lemma normalize_covers (box : CropBox) (p : Point) :
  covers (normalize box) p <-> covers box p.
Proof.
  unfold covers, normalize.
  destruct (Rlt_dec (width box) 0) as [Hw|Hw]; cbn [height width x y];
    destruct (Rlt_dec (height box) 0) as [Hh|Hh]; cbn [height width x y];
    try rewrite (Rabs_left (width box)) by lra;
    try rewrite (Rabs_left (height box)) by lra;
    unfold Rmin, Rmax; repeat destruct (Rle_dec _ _); lra.
Qed.

(** C2. While a crop is active and a handle is dragged, the box that the
    drag leaves has non-negative width and height. Where the updated box had
    a negative extent, the origin moved by that extent and the extent became
    its absolute value; otherwise origin and extent are those of the update.
    Either way the box spans the same points as the updated box. *)
Theorem crop_normalization (st : CropState) (pos : Point) (h : CropHandle)
    (box : CropBox) :
  isCropping st = true -> draggingHandle st = Some h -> cropBox st = Some box ->
  let raw := rawUpdate h (px pos - px (dragStartPos st))
                         (py pos - py (dragStartPos st)) box in
  exists newBox,
    cropBox (handleMouseMove pos st) = Some newBox /\
    0 <= width newBox /\ 0 <= height newBox /\
    (width raw < 0 ->
       x newBox = x raw + width raw /\ width newBox = Rabs (width raw)) /\
    (~ width raw < 0 -> x newBox = x raw /\ width newBox = width raw) /\
    (height raw < 0 ->
       y newBox = y raw + height raw /\ height newBox = Rabs (height raw)) /\
    (~ height raw < 0 -> y newBox = y raw /\ height newBox = height raw) /\
    (forall p, covers newBox p <-> covers raw p).
Proof.
  intros Hc Hd Hb raw. exists (normalize raw).
  unfold handleMouseMove. rewrite Hc, Hd, Hb. cbn [cropBox].
  split; [reflexivity|].
  pose proof (normalize_extents raw) as [Hw Hh].
  pose proof (normalize_width raw) as [Hw1 Hw2].
  pose proof (normalize_height raw) as [Hh1 Hh2].
  repeat (split; [assumption|]). intros p. apply normalize_covers.
Qed.

(** Dragging the east handle of a 100 x 50 box 130 pixels to the left. *)
Definition draggedPastWest : CropState :=
  {| isCropping := true;
     cropBox := Some (mkCropBox 10 20 100 50);
     draggingHandle := Some HandleE;
     dragStartPos := mkPoint 110 40 |}.

Lemma crop_normalization_witness :
  exists newBox,
    cropBox (handleMouseMove (mkPoint (-20) 40) draggedPastWest) = Some newBox /\
    0 <= width newBox /\ 0 <= height newBox.
Proof.
  destruct (crop_normalization draggedPastWest (mkPoint (-20) 40) HandleE
              (mkCropBox 10 20 100 50) eq_refl eq_refl eq_refl)
    as (newBox & Hbox & Hw & Hh & _).
  exists newBox. auto.
Defined.

(** *** Moving the box *)

Lemma normalize_id (box : CropBox) :
  0 <= width box -> 0 <= height box -> normalize box = box.
Proof.
  intros Hw Hh. unfold normalize.
  destruct (Rlt_dec (width box) 0) as [H|_]; [lra|].
  destruct (Rlt_dec (height box) 0) as [H|_]; [lra|]. reflexivity.
Qed.

(** Dragging the move handle of a box with non-negative extents shifts
    the origin by the mouse displacement and keeps the size; dragging it on
    through a second mouse event ends where a single drag to the last
    position ends. *)
Theorem crop_move (st : CropState) (box : CropBox) (p1 p2 : Point) :
  isCropping st = true -> draggingHandle st = Some HandleMove ->
  cropBox st = Some box -> 0 <= width box -> 0 <= height box ->
  cropBox (handleMouseMove p1 st) =
    Some (mkCropBox (x box + (px p1 - px (dragStartPos st)))
                    (y box + (py p1 - py (dragStartPos st)))
                    (width box) (height box)) /\
  handleMouseMove p2 (handleMouseMove p1 st) = handleMouseMove p2 st.
Proof.
  intros Hc Hd Hb Hw Hh.
  assert (E : forall p, handleMouseMove p st =
    mkCropState true
      (Some (mkCropBox (x box + (px p - px (dragStartPos st)))
                       (y box + (py p - py (dragStartPos st)))
                       (width box) (height box)))
      (Some HandleMove) p).
  { intros p. unfold handleMouseMove. rewrite Hc, Hd, Hb.
    cbn [rawUpdate]. rewrite normalize_id by (cbn; assumption). reflexivity. }
  split; [now rewrite E|].
  rewrite (E p1), (E p2). unfold handleMouseMove.
  cbn [isCropping draggingHandle cropBox dragStartPos rawUpdate].
  rewrite normalize_id by (cbn; assumption).
  cbn [x y width height]. f_equal. f_equal. f_equal; lra.
Qed.

Definition movingBox : CropState :=
  {| isCropping := true;
     cropBox := Some (mkCropBox 10 20 100 50);
     draggingHandle := Some HandleMove;
     dragStartPos := mkPoint 60 45 |}.

Lemma crop_move_witness :
  handleMouseMove (mkPoint 90 40) (handleMouseMove (mkPoint 70 70) movingBox) =
  handleMouseMove (mkPoint 90 40) movingBox.
Proof.
  apply (crop_move movingBox (mkCropBox 10 20 100 50)); try reflexivity;
    cbn; lra.
Defined.

End Crop.

(** ** The image editor: layout, zoom, bake and crop apply *)

Module Editor.

Import Canvas2D.
Local Open Scope R_scope.

(** The editor state read by the render, bake and crop handlers.
    [brightness], [contrast] and [saturation] come from integer sliders;
    [baseCanvas] is [baseCanvasRef.current], the display canvas. *)
Record EditorState := mkEditorState {
  committedImage : option Image;
  brightness : Z;
  contrast : Z;
  saturation : Z;
  rotation : R;
  uniformScale : R;
  flipScale : Point;
  activeFilter : string;
  crop : Crop.CropState;
  zoom : R;
  panOffset : Point;
  baseCanvas : option Canvas
}.

Definition resetTransformsAndAdjustments (st : EditorState) : EditorState :=
  {| committedImage := committedImage st;
     brightness := 100;
     contrast := 100;
     saturation := 100;
     rotation := 0;
     uniformScale := 1;
     flipScale := mkPoint 1 1;
     activeFilter := "none";
     crop := {| Crop.isCropping := false;
                Crop.cropBox := None;
                Crop.draggingHandle := Crop.draggingHandle (crop st);
                Crop.dragStartPos := Crop.dragStartPos (crop st) |};
     zoom := zoom st;
     panOffset := panOffset st;
     baseCanvas := baseCanvas st |}.

Definition setCommittedImage (image : Image) (st : EditorState) : EditorState :=
  {| committedImage := Some image;
     brightness := brightness st;
     contrast := contrast st;
     saturation := saturation st;
     rotation := rotation st;
     uniformScale := uniformScale st;
     flipScale := flipScale st;
     activeFilter := activeFilter st;
     crop := crop st;
     zoom := zoom st;
     panOffset := panOffset st;
     baseCanvas := baseCanvas st |}.

Definition setZoom (z : R) (st : EditorState) : EditorState :=
  {| committedImage := committedImage st;
     brightness := brightness st;
     contrast := contrast st;
     saturation := saturation st;
     rotation := rotation st;
     uniformScale := uniformScale st;
     flipScale := flipScale st;
     activeFilter := activeFilter st;
     crop := crop st;
     zoom := z;
     panOffset := panOffset st;
     baseCanvas := baseCanvas st |}.

(** The zoom buttons under the canvas. *)
Definition zoomOut (st : EditorState) : EditorState :=
  setZoom (Rmax (zoom st / 1.25) 0.2) st.

Definition zoomIn (st : EditorState) : EditorState :=
  setZoom (Rmin (zoom st * 1.25) 8) st.

(** The text of a percentage filter, e.g. brightness(100%). *)
Definition percent (name : string) (v : Z) : string :=
  name +:+ "(" +:+ pretty v +:+ "%)".

(** What renderCanvas computes before it draws. *)
Record Layout := mkLayout {
  rotatedWidth : R;
  rotatedHeight : R;
  displayScale : R;
  canvasWidth : R;
  canvasHeight : R
}.

(** The arithmetic of renderCanvas for a container of the given size
    (getBoundingClientRect); [None] where renderCanvas returns early. *)
Definition renderLayout (st : EditorState) (containerWidth containerHeight : R)
    : option Layout :=
  match committedImage st with
  | None => None
  | Some imageToDraw =>
      let rad := rotation st * PI / 180 in
      let absCos := Rabs (cos rad) in
      let absSin := Rabs (sin rad) in
      let imgWidth := IZR (naturalWidth imageToDraw) * uniformScale st in
      let imgHeight := IZR (naturalHeight imageToDraw) * uniformScale st in
      let rotatedWidth := imgWidth * absCos + imgHeight * absSin in
      let rotatedHeight := imgWidth * absSin + imgHeight * absCos in
      let maxWidth := containerWidth - 40 in
      let maxHeight := containerHeight - 40 in
      if Req_dec_T rotatedWidth 0 then None
      else if Req_dec_T rotatedHeight 0 then None
      else
        let displayScale :=
          Rmin (maxWidth / rotatedWidth) (maxHeight / rotatedHeight) in
        Some {| rotatedWidth := rotatedWidth;
                rotatedHeight := rotatedHeight;
                displayScale := displayScale;
                canvasWidth := rotatedWidth * displayScale;
                canvasHeight := rotatedHeight * displayScale |}
  end.

(** Where renderCanvas puts the point of the image that lies at the
    fractions (u, v) of its width and height, on a base canvas of the given
    bitmap size: the transform set up before drawImage, applied to the point
    of the destination rectangle. *)
Definition renderedAt (st : EditorState) (imageToDraw : Image)
    (layout : Layout) (baseWidth baseHeight : R) (u v : R) : Point :=
  let rad := rotation st * PI / 180 in
  let imgWidth := IZR (naturalWidth imageToDraw) * uniformScale st in
  let imgHeight := IZR (naturalHeight imageToDraw) * uniformScale st in
  let ctx := translate (px (panOffset st)) (py (panOffset st)) freshContext in
  let ctx := scale (zoom st) (zoom st) ctx in
  let ctx := translate (baseWidth / (2 * zoom st))
                       (baseHeight / (2 * zoom st)) ctx in
  let ctx := rotate rad ctx in
  let ctx := scale (px (flipScale st)) (py (flipScale st)) ctx in
  let finalDrawWidth := imgWidth * displayScale layout / zoom st in
  let finalDrawHeight := imgHeight * displayScale layout / zoom st in
  transformPoint (transform ctx)
    (mkPoint (- finalDrawWidth / 2 + u * finalDrawWidth)
             (- finalDrawHeight / 2 + v * finalDrawHeight)).

Section Browser.

Variable sample : Image -> R -> R -> Color.
Variable cssFilter : string -> Color -> Color.

(** getBakedImageData. The PNG data it returns is modelled by the image that
    the data decodes to; [None] is the [null] result. *)
Definition getBakedImageData (st : EditorState) : option Image :=
  match committedImage st with
  | None => None
  | Some committedImage =>
      let rad := rotation st * PI / 180 in
      let cos := cos rad in
      let sin := sin rad in
      let w := IZR (naturalWidth committedImage) * uniformScale st in
      let h := IZR (naturalHeight committedImage) * uniformScale st in
      let newWidth := Rabs (w * cos) + Rabs (h * sin) in
      let newHeight := Rabs (w * sin) + Rabs (h * cos) in
      let finalCanvas := createCanvas newWidth newHeight in
      let finalCtx :=
        {| transform := identityMatrix;
           filter := activeFilter st +:+ " " +:+
                     percent "brightness" (brightness st) +:+ " " +:+
                     percent "contrast" (contrast st) +:+ " " +:+
                     percent "saturate" (saturation st) |} in
      let finalCtx := translate (newWidth / 2) (newHeight / 2) finalCtx in
      let finalCtx := rotate rad finalCtx in
      let finalCtx :=
        scale (px (flipScale st)) (py (flipScale st)) finalCtx in
      let finalCanvas :=
        drawImage5 sample cssFilter finalCtx committedImage
                   (- w / 2) (- h / 2) w h finalCanvas in
      toImage finalCanvas
  end.

(** The rotated, flipped and colour-adjusted copy of the committed image at
    its natural size that handleApplyCrop cuts the crop out of. *)
Definition transformedCanvas (st : EditorState) (committedImage : Image)
    : Canvas :=
  let rad := rotation st * PI / 180 in
  let absCos := Rabs (cos rad) in
  let absSin := Rabs (sin rad) in
  let newWidth := IZR (naturalWidth committedImage) * absCos
                  + IZR (naturalHeight committedImage) * absSin in
  let newHeight := IZR (naturalWidth committedImage) * absSin
                   + IZR (naturalHeight committedImage) * absCos in
  let transformedCanvas := createCanvas newWidth newHeight in
  let transformedCtx :=
    {| transform := identityMatrix;
       filter := percent "brightness" (brightness st) +:+ " " +:+
                 percent "contrast" (contrast st) +:+ " " +:+
                 percent "saturate" (saturation st) |} in
  let transformedCtx := translate (newWidth / 2) (newHeight / 2) transformedCtx in
  let transformedCtx := rotate rad transformedCtx in
  let transformedCtx :=
    scale (px (flipScale st)) (py (flipScale st)) transformedCtx in
  drawImage3 sample cssFilter transformedCtx committedImage
             (- IZR (naturalWidth committedImage) / 2)
             (- IZR (naturalHeight committedImage) / 2)
             transformedCanvas.

(** The factor from display coordinates to the coordinates of the
    transformed canvas. *)
Definition scaleBetweenDisplayAndBaked (st : EditorState)
    (committedImage : Image) (displayCanvas : Canvas) : R :=
  let rad := rotation st * PI / 180 in
  let newWidth := IZR (naturalWidth committedImage) * Rabs (cos rad)
                  + IZR (naturalHeight committedImage) * Rabs (sin rad) in
  newWidth / (IZR (width displayCanvas) / zoom st).

(** handleApplyCrop, with the onload handler of the cropped image. An image
    that cannot be decoded never fires onload, and nothing changes. *)
Definition handleApplyCrop (st : EditorState) : EditorState :=
  match committedImage st, Crop.cropBox (crop st), baseCanvas st with
  | Some committedImage, Some cropBox, Some displayCanvas =>
      let transformedCanvas := transformedCanvas st committedImage in
      let scaleBetweenDisplayAndBaked :=
        scaleBetweenDisplayAndBaked st committedImage displayCanvas in
      let sx := Crop.x cropBox * scaleBetweenDisplayAndBaked in
      let sy := Crop.y cropBox * scaleBetweenDisplayAndBaked in
      let sWidth := Crop.width cropBox * scaleBetweenDisplayAndBaked in
      let sHeight := Crop.height cropBox * scaleBetweenDisplayAndBaked in
      let finalCanvas := createCanvas sWidth sHeight in
      let finalCanvas :=
        drawImage sample cssFilter freshContext (asImage transformedCanvas)
                  sx sy sWidth sHeight 0 0 sWidth sHeight finalCanvas in
      match toImage finalCanvas with
      | Some newImage =>
          resetTransformsAndAdjustments (setCommittedImage newImage st)
      | None => st
      end
  | _, _, _ => st
  end.

End Browser.

(** *** Fit to container *)

Lemma abs_cos_sin_pos (t : R) : 0 < Rabs (cos t) + Rabs (sin t).
Proof.
  pose proof (Rabs_pos (cos t)) as Hc. pose proof (Rabs_pos (sin t)) as Hs.
  destruct (Req_dec (Rabs (cos t) + Rabs (sin t)) 0) as [H0|H0]; [|lra].
  assert (Hc0 : cos t = 0).
  { destruct (Req_dec (cos t) 0) as [E|E]; [exact E|].
    apply Rabs_pos_lt in E. lra. }
  assert (Hs0 : sin t = 0).
  { destruct (Req_dec (sin t) 0) as [E|E]; [exact E|].
    apply Rabs_pos_lt in E. lra. }
  pose proof (sin2_cos2 t) as H. unfold Rsqr in H. rewrite Hc0, Hs0 in H. lra.
Qed.

Lemma rotated_extent_pos (a b c d : R) :
  0 < a -> 0 < b -> 0 <= c -> 0 <= d -> 0 < c + d -> 0 < a * c + b * d.
Proof.
  intros Ha Hb Hc Hd Hcd.
  assert (0 <= a * c) by (apply Rmult_le_pos; lra).
  assert (0 <= b * d) by (apply Rmult_le_pos; lra).
  destruct (Rle_lt_dec c 0) as [Hc0|Hc0].
  - assert (0 < b * d) by (apply Rmult_lt_0_compat; lra). lra.
  - assert (0 < a * c) by (apply Rmult_lt_0_compat; lra). lra.
Qed.

Lemma scaled_extent_fits (m r m' r' : R) :
  0 < r -> Rmin (m / r) (m' / r') * r <= m.
Proof.
  intros Hr. pose proof (Rmin_l (m / r) (m' / r')) as Hmin.
  replace m with (m / r * r) at 2 by (field; lra).
  apply Rmult_le_compat_r; lra.
Qed.

(** C4. For an image of positive natural size and a positive uniform scale,
    renderCanvas computes a layout: the rotated extents are
    w |cos| + h |sin| and w |sin| + h |cos| of the scaled size (w, h), and
    the display scale times the rotated extent is at most the container
    width minus 40 horizontally and the container height minus 40
    vertically. *)
Theorem fit_to_container (st : EditorState) (image : Image)
    (containerWidth containerHeight : R) :
  committedImage st = Some image ->
  (0 < naturalWidth image)%Z -> (0 < naturalHeight image)%Z ->
  0 < uniformScale st ->
  let rad := rotation st * PI / 180 in
  let w := IZR (naturalWidth image) * uniformScale st in
  let h := IZR (naturalHeight image) * uniformScale st in
  exists layout,
    renderLayout st containerWidth containerHeight = Some layout /\
    rotatedWidth layout = w * Rabs (cos rad) + h * Rabs (sin rad) /\
    rotatedHeight layout = w * Rabs (sin rad) + h * Rabs (cos rad) /\
    displayScale layout * rotatedWidth layout <= containerWidth - 40 /\
    displayScale layout * rotatedHeight layout <= containerHeight - 40.
Proof.
  intros Himg Hw Hh Hs rad w h.
  assert (Hw' : 0 < w) by (apply Rmult_lt_0_compat; [now apply IZR_lt|exact Hs]).
  assert (Hh' : 0 < h) by (apply Rmult_lt_0_compat; [now apply IZR_lt|exact Hs]).
  pose proof (abs_cos_sin_pos rad) as Hcs.
  pose proof (Rabs_pos (cos rad)) as Hc. pose proof (Rabs_pos (sin rad)) as Hsn.
  assert (Hrw : 0 < w * Rabs (cos rad) + h * Rabs (sin rad))
    by (apply rotated_extent_pos; lra).
  assert (Hrh : 0 < w * Rabs (sin rad) + h * Rabs (cos rad))
    by (apply rotated_extent_pos; lra).
  unfold renderLayout. rewrite Himg. fold rad w h.
  destruct (Req_dec_T (w * Rabs (cos rad) + h * Rabs (sin rad)) 0) as [E|_];
    [lra|].
  destruct (Req_dec_T (w * Rabs (sin rad) + h * Rabs (cos rad)) 0) as [E|_];
    [lra|].
  eexists. split; [reflexivity|]. cbn [rotatedWidth rotatedHeight displayScale].
  split; [reflexivity|]. split; [reflexivity|]. split.
  - now apply scaled_extent_fits.
  - rewrite Rmin_comm. now apply scaled_extent_fits.
Qed.

Definition solid (w h : Z) : Image :=
  {| naturalWidth := w; naturalHeight := h;
     pixelAt := fun _ _ => mkColor 255 255 255 255 |}.

(** A 1024 x 768 image, rotated by 30 degrees at scale 1.5. *)
Definition rotatedExample : EditorState :=
  {| committedImage := Some (solid 1024 768);
     brightness := 100; contrast := 100; saturation := 100;
     rotation := 30; uniformScale := 1.5; flipScale := mkPoint 1 1;
     activeFilter := "none";
     crop := Crop.mkCropState false None None (mkPoint 0 0);
     zoom := 1; panOffset := mkPoint 0 0; baseCanvas := None |}.

Lemma fit_to_container_witness :
  exists layout,
    renderLayout rotatedExample 1280 720 = Some layout /\
    displayScale layout * rotatedWidth layout <= 1280 - 40 /\
    displayScale layout * rotatedHeight layout <= 720 - 40.
Proof.
  destruct (fit_to_container rotatedExample (solid 1024 768) 1280 720 eq_refl)
    as (layout & Hl & _ & _ & Hw & Hh).
  - cbn. lia.
  - cbn. lia.
  - cbn. lra.
  - exists layout. auto.
Defined.

(** *** Zoom in the editor *)

(** The zoom factor cancels in renderCanvas: every point of the image stays
    where it is on the base canvas when the zoom changes. *)
Lemma editor_zoom_is_invisible (st : EditorState) (image : Image)
    (layout : Layout) (baseWidth baseHeight u v z : R) :
  zoom st <> 0 -> z <> 0 ->
  renderedAt (setZoom z st) image layout baseWidth baseHeight u v =
  renderedAt st image layout baseWidth baseHeight u v.
Proof.
  intros Hz0 Hz. unfold renderedAt.
  rewrite !transformPoint_scale, !transformPoint_rotate,
    !transformPoint_translate, !transformPoint_scale,
    !transformPoint_translate.
  unfold freshContext. cbn [transform]. rewrite !transformPoint_identity.
  unfold setZoom. cbn [px py zoom panOffset rotation uniformScale flipScale].
  f_equal; field; auto.
Qed.

(** *** Bake *)

(** The neutral editing state: no adjustment, no filter, no transform. *)
Definition neutral (st : EditorState) : Prop :=
  brightness st = 100%Z /\ contrast st = 100%Z /\ saturation st = 100%Z /\
  activeFilter st = "none" /\
  rotation st = 0 /\ uniformScale st = 1 /\ flipScale st = mkPoint 1 1.

(** The value that getBakedImageData assigns to [filter] in that state. *)
Definition neutralFilter : string :=
  "none brightness(100%) contrast(100%) saturate(100%)".

Lemma multiply_identity_l (m : Matrix) : multiply identityMatrix m = m.
Proof.
  destruct m. unfold multiply, identityMatrix. cbn [ma mb mc md me mf].
  f_equal; ring.
Qed.

Lemma multiply_identity_r (m : Matrix) : multiply m identityMatrix = m.
Proof.
  destruct m. unfold multiply, identityMatrix. cbn [ma mb mc md me mf].
  f_equal; ring.
Qed.

(** Translation, then rotation by 0 and scaling by 1: a translation. *)
Lemma neutral_transform (tx ty : R) (f : string) :
  transform (scale 1 1 (rotate 0 (translate tx ty (mkContext identityMatrix f))))
  = mkMatrix 1 0 0 1 tx ty.
Proof.
  unfold scale, rotate, translate. cbn [transform]. rewrite cos_0, sin_0.
  replace (mkMatrix 1 0 (- 0) 1 0 0) with identityMatrix
    by (unfold identityMatrix; f_equal; ring).
  change (mkMatrix 1 0 0 1 0 0) with identityMatrix.
  now rewrite !multiply_identity_r, multiply_identity_l.
Qed.

Lemma inverse_translation (tx ty : R) (p : Point) :
  transformPoint (inverse (mkMatrix 1 0 0 1 tx ty)) p =
  mkPoint (px p - tx) (py p - ty).
Proof.
  unfold transformPoint, inverse, determinant. cbn [ma mb mc md me mf].
  f_equal; field.
Qed.

Section BakeIdentity.

Variable sample : Image -> R -> R -> Color.
Variable cssFilter : string -> Color -> Color.

(** Resampling an image at the centre of one of its pixels gives that
    pixel (so does nearest-neighbour and bilinear resampling). *)
Hypothesis sample_centre : forall image i j,
  (0 <= i < naturalWidth image)%Z -> (0 <= j < naturalHeight image)%Z ->
  sample image (IZR i + / 2) (IZR j + / 2) = pixelAt image i j.

(** The neutral filter value changes no colour. *)
Hypothesis neutral_filter : forall c, cssFilter neutralFilter c = c.

(** C3. In the neutral state, with a committed image of positive size (below
    the 32-bit limit of canvas dimensions), getBakedImageData returns a
    raster of the size of the committed image whose pixels are the pixels
    of the committed image. *)
Theorem bake_identity (st : EditorState) (image : Image) :
  committedImage st = Some image ->
  neutral st ->
  (0 < naturalWidth image < 2 ^ 32)%Z ->
  (0 < naturalHeight image < 2 ^ 32)%Z ->
  exists baked,
    getBakedImageData sample cssFilter st = Some baked /\
    naturalWidth baked = naturalWidth image /\
    naturalHeight baked = naturalHeight image /\
    forall i j,
      (0 <= i < naturalWidth image)%Z -> (0 <= j < naturalHeight image)%Z ->
      pixelAt baked i j = pixelAt image i j.
Proof.
  intros Himg (Hb & Hc & Hs & Hf & Hr & Hu & Hfl) Hw Hh.
  unfold getBakedImageData.
  rewrite Himg, Hb, Hc, Hs, Hf, Hr, Hu, Hfl. cbn [px py].
  replace (0 * PI / 180) with 0 by lra. rewrite cos_0, sin_0.
  set (w := IZR (naturalWidth image)). set (h := IZR (naturalHeight image)).
  assert (Hw' : 0 < w) by (apply (IZR_lt 0); lia).
  assert (Hh' : 0 < h) by (apply (IZR_lt 0); lia).
  replace (Rabs (w * 1 * 1) + Rabs (h * 1 * 0)) with w
    by (rewrite Rmult_0_r, Rabs_R0, !Rmult_1_r, Rabs_right; lra).
  replace (Rabs (w * 1 * 0) + Rabs (h * 1 * 1)) with h
    by (rewrite Rmult_0_r, Rabs_R0, !Rmult_1_r, Rabs_right; lra).
  unfold toImage, drawImage5, drawImage, createCanvas.
  cbn [width height bitmap].
  unfold w at 1 2, h at 1 2. rewrite !toDimension_IZR by lia.
  replace ((0 <? naturalWidth image)%Z && (0 <? naturalHeight image)%Z)
    with true
    by (symmetry; apply andb_true_intro; split; apply Z.ltb_lt; lia).
  eexists. split; [reflexivity|]. unfold asImage.
  cbn [naturalWidth naturalHeight pixelAt width height bitmap].
  split; [reflexivity|]. split; [reflexivity|].
  intros i j Hi Hj.
  assert (Hi' : 0 <= IZR i /\ IZR i + 1 <= w).
  { split; [apply (IZR_le 0); lia|].
    unfold w. rewrite <- (plus_IZR i 1). apply IZR_le. lia. }
  assert (Hj' : 0 <= IZR j /\ IZR j + 1 <= h).
  { split; [apply (IZR_le 0); lia|].
    unfold h. rewrite <- (plus_IZR j 1). apply IZR_le. lia. }
  rewrite neutral_transform, inverse_translation. cbn [px py]. fold w h.
  replace (within (- (w * 1) / 2) (- (w * 1) / 2 + w * 1)
             (IZR i + / 2 - w / 2)) with true
    by (symmetry; apply within_spec; lra).
  replace (within (- (h * 1) / 2) (- (h * 1) / 2 + h * 1)
             (IZR j + / 2 - h / 2)) with true
    by (symmetry; apply within_spec; lra).
  cbn [andb].
  replace (0 + (IZR i + / 2 - w / 2 - - (w * 1) / 2) * (w / (w * 1)))
    with (IZR i + / 2) by (field; lra).
  replace (0 + (IZR j + / 2 - h / 2 - - (h * 1) / 2) * (h / (h * 1)))
    with (IZR j + / 2) by (field; lra).
  replace (within 0 w (IZR i + / 2)) with true
    by (symmetry; apply within_spec; lra).
  replace (within 0 h (IZR j + / 2)) with true
    by (symmetry; apply within_spec; lra).
  cbn [andb].
  change (cssFilter neutralFilter (sample image (IZR i + / 2) (IZR j + / 2))
          = pixelAt image i j).
  rewrite neutral_filter. now apply sample_centre.
Qed.

End BakeIdentity.

(** Nearest-neighbour resampling, and a browser that applies no filter. *)
Definition nearest (image : Image) (qx qy : R) : Color :=
  pixelAt image (Zfloor qx) (Zfloor qy).

Definition noFilter (_ : string) (c : Color) : Color := c.

Lemma nearest_centre (image : Image) (i j : Z) :
  (0 <= i < naturalWidth image)%Z -> (0 <= j < naturalHeight image)%Z ->
  nearest image (IZR i + / 2) (IZR j + / 2) = pixelAt image i j.
Proof.
  intros _ _. unfold nearest.
  rewrite (Zfloor_eq i), (Zfloor_eq j) by lra. reflexivity.
Qed.

(** A 2 x 2 image whose pixels record their own coordinates. *)
Definition checker : Image :=
  {| naturalWidth := 2; naturalHeight := 2;
     pixelAt := fun i j => mkColor i j 0 255 |}.

Definition untouched (image : Image) : EditorState :=
  {| committedImage := Some image;
     brightness := 100; contrast := 100; saturation := 100;
     rotation := 0; uniformScale := 1; flipScale := mkPoint 1 1;
     activeFilter := "none";
     crop := Crop.mkCropState false None None (mkPoint 0 0);
     zoom := 1; panOffset := mkPoint 0 0; baseCanvas := None |}.

Lemma bake_identity_witness :
  exists baked,
    getBakedImageData nearest noFilter (untouched checker) = Some baked /\
    naturalWidth baked = 2%Z /\ naturalHeight baked = 2%Z /\
    pixelAt baked 1 0 = mkColor 1 0 0 255.
Proof.
  destruct (bake_identity nearest noFilter nearest_centre
              (fun c => eq_refl) (untouched checker) checker eq_refl)
    as (baked & Hb & Hw & Hh & Hp).
  - repeat split.
  - cbn. lia.
  - cbn. lia.
  - exists baked. repeat split; auto. apply Hp; cbn; lia.
Defined.

(** *** Crop apply *)

Section CropApply.

Variable sample : Image -> R -> R -> Color.
Variable cssFilter : string -> Color -> Color.

(** What handleApplyCrop computes. With a committed image, an active crop
    box and a display canvas, where the box times the factor
    scaleBetweenDisplayAndBaked is at least one pixel wide and high (and
    below the 32-bit limit), handleApplyCrop replaces the committed image by
    the raster of that size whose pixel (i, j) is its transformed canvas
    resampled at the mapped origin plus (i + 1/2, j + 1/2), transparent
    outside the transformed canvas; and brightness, contrast, saturation,
    rotation, uniform scale, flips, active filter and crop state are back at
    their neutral values. *)
Lemma handleApplyCrop_result (st : EditorState) (image : Image) (box : Crop.CropBox)
    (displayCanvas : Canvas) :
  committedImage st = Some image ->
  Crop.cropBox (crop st) = Some box ->
  baseCanvas st = Some displayCanvas ->
  let rad := rotation st * PI / 180 in
  let nativeWidth := IZR (naturalWidth image) * Rabs (cos rad)
                     + IZR (naturalHeight image) * Rabs (sin rad) in
  let k := nativeWidth / (IZR (width displayCanvas) / zoom st) in
  let sx := Crop.x box * k in
  let sy := Crop.y box * k in
  let sWidth := Crop.width box * k in
  let sHeight := Crop.height box * k in
  let source := asImage (transformedCanvas sample cssFilter st image) in
  1 <= sWidth < IZR (2 ^ 32) -> 1 <= sHeight < IZR (2 ^ 32) ->
  let st' := handleApplyCrop sample cssFilter st in
  (exists newImage,
     committedImage st' = Some newImage /\
     naturalWidth newImage = Zfloor sWidth /\
     naturalHeight newImage = Zfloor sHeight /\
     forall i j,
       (0 <= i < Zfloor sWidth)%Z -> (0 <= j < Zfloor sHeight)%Z ->
       pixelAt newImage i j =
         if within 0 (IZR (naturalWidth source)) (sx + (IZR i + / 2))
            && within 0 (IZR (naturalHeight source)) (sy + (IZR j + / 2))
         then cssFilter "none"
                (sample source (sx + (IZR i + / 2)) (sy + (IZR j + / 2)))
         else transparent) /\
  brightness st' = 100%Z /\ contrast st' = 100%Z /\ saturation st' = 100%Z /\
  rotation st' = 0 /\ uniformScale st' = 1 /\ flipScale st' = mkPoint 1 1 /\
  activeFilter st' = "none" /\
  Crop.isCropping (crop st') = false /\ Crop.cropBox (crop st') = None.
Proof.
  intros Himg Hbox Hcanvas rad nativeWidth k sx sy sWidth sHeight source
    HsW HsH st'.
  destruct (toDimension_floor sWidth ltac:(lra)) as [HdW HleW].
  destruct (toDimension_floor sHeight ltac:(lra)) as [HdH HleH].
  assert (HW : (1 <= Zfloor sWidth)%Z) by (apply Zfloor_lub; lra).
  assert (HH : (1 <= Zfloor sHeight)%Z) by (apply Zfloor_lub; lra).
  assert (Est : st' =
    resetTransformsAndAdjustments
      (setCommittedImage
         (asImage (drawImage sample cssFilter freshContext source
                     sx sy sWidth sHeight 0 0 sWidth sHeight
                     (createCanvas sWidth sHeight))) st)).
  { unfold st', handleApplyCrop. rewrite Himg, Hbox, Hcanvas.
    unfold scaleBetweenDisplayAndBaked. fold rad nativeWidth k sx sy sWidth
      sHeight source.
    unfold toImage, drawImage, createCanvas. cbn [width height].
    rewrite HdW, HdH.
    replace ((0 <? Zfloor sWidth)%Z && (0 <? Zfloor sHeight)%Z) with true
      by (symmetry; apply andb_true_intro; split; apply Z.ltb_lt; lia).
    reflexivity. }
  rewrite Est. cbn [resetTransformsAndAdjustments setCommittedImage
    committedImage brightness contrast saturation rotation uniformScale
    flipScale activeFilter crop Crop.isCropping Crop.cropBox].
  split; [|repeat split].
  eexists. split; [reflexivity|].
  unfold asImage, drawImage, createCanvas.
  cbn [naturalWidth naturalHeight pixelAt width height bitmap].
  split; [exact HdW|]. split; [exact HdH|].
  intros i j Hi Hj. cbn [transform freshContext filter].
  rewrite inverse_identity_point. cbn [px py].
  assert (Hi' : 0 <= IZR i /\ IZR i + 1 <= sWidth).
  { split; [apply (IZR_le 0); lia|].
    rewrite <- (plus_IZR i 1), <- HdW in *.
    apply Rle_trans with (IZR (toDimension sWidth)); [apply IZR_le; lia|lra]. }
  assert (Hj' : 0 <= IZR j /\ IZR j + 1 <= sHeight).
  { split; [apply (IZR_le 0); lia|].
    rewrite <- (plus_IZR j 1), <- HdH in *.
    apply Rle_trans with (IZR (toDimension sHeight)); [apply IZR_le; lia|lra]. }
  replace (within 0 (0 + sWidth) (IZR i + / 2)) with true
    by (symmetry; apply within_spec; lra).
  replace (within 0 (0 + sHeight) (IZR j + / 2)) with true
    by (symmetry; apply within_spec; lra).
  cbn [andb].
  replace (sx + (IZR i + / 2 - 0) * (sWidth / sWidth))
    with (sx + (IZR i + / 2)) by (field; lra).
  replace (sy + (IZR j + / 2 - 0) * (sHeight / sHeight))
    with (sy + (IZR j + / 2)) by (field; lra).
  reflexivity.
Qed.

End CropApply.

(** A 200 x 100 image shown on a 100 x 50 display canvas, brightened, with
    a crop box of 50 x 20 display pixels. *)
Definition cropExample : EditorState :=
  {| committedImage := Some (solid 200 100);
     brightness := 150; contrast := 100; saturation := 100;
     rotation := 0; uniformScale := 1; flipScale := mkPoint 1 1;
     activeFilter := "none";
     crop := Crop.mkCropState true (Some (Crop.mkCropBox 10 5 50 20)) None
                              (mkPoint 0 0);
     zoom := 1; panOffset := mkPoint 0 0;
     baseCanvas := Some (mkCanvas 100 50 (fun _ _ => transparent)) |}.

(** The same editor with the crop box collapsed to zero width. *)
Definition collapsedCrop : EditorState :=
  {| committedImage := Some (solid 200 100);
     brightness := 150; contrast := 100; saturation := 100;
     rotation := 0; uniformScale := 1; flipScale := mkPoint 1 1;
     activeFilter := "none";
     crop := Crop.mkCropState true (Some (Crop.mkCropBox 10 5 0 20)) None
                              (mkPoint 0 0);
     zoom := 1; panOffset := mkPoint 0 0;
     baseCanvas := Some (mkCanvas 100 50 (fun _ _ => transparent)) |}.

(** A crop box without extent is not applied: the cropped canvas has no
    pixels, its data URL is no image, and handleApplyCrop leaves the
    committed image, the brightness and the crop state as they were. *)
Lemma collapsed_crop_is_not_applied :
  let st' := handleApplyCrop nearest noFilter collapsedCrop in
  committedImage st' = Some (solid 200 100) /\
  brightness st' <> 100%Z /\
  Crop.isCropping (crop st') = true /\
  Crop.cropBox (crop st') <> None.
Proof.
  assert (E : handleApplyCrop nearest noFilter collapsedCrop = collapsedCrop).
  { unfold handleApplyCrop.
    cbn [committedImage crop Crop.cropBox baseCanvas collapsedCrop Crop.width].
    unfold toImage, drawImage, createCanvas. cbn [width height].
    rewrite Rmult_0_l. rewrite (toDimension_IZR 0) by lia. reflexivity. }
  cbn zeta. rewrite E. cbn. repeat split; discriminate.
Qed.

(** *** Zoom buttons and crop start *)

(** The "reset view" button. *)
Definition resetView (st : EditorState) : EditorState :=
  {| committedImage := committedImage st;
     brightness := brightness st;
     contrast := contrast st;
     saturation := saturation st;
     rotation := rotation st;
     uniformScale := uniformScale st;
     flipScale := flipScale st;
     activeFilter := activeFilter st;
     crop := crop st;
     zoom := 1;
     panOffset := mkPoint 0 0;
     baseCanvas := baseCanvas st |}.

Inductive ZoomOp := ZoomOutButton | ResetViewButton | ZoomInButton.

Definition applyZoom (op : ZoomOp) (st : EditorState) : EditorState :=
  match op with
  | ZoomOutButton => zoomOut st
  | ResetViewButton => resetView st
  | ZoomInButton => zoomIn st
  end.

(** The zoom of the editor stays between 0.2 and 8, hence positive,
    under any sequence of presses of the three view buttons. *)
Theorem editor_zoom_stays_in_range (ops : list ZoomOp) (st : EditorState) :
  0.2 <= zoom st <= 8 ->
  0.2 <= zoom (fold_left (fun s op => applyZoom op s) ops st) <= 8.
Proof.
  revert st. induction ops as [|op ops IH]; intros st H; [exact H|].
  cbn [fold_left]. apply IH.
  destruct op; cbn [applyZoom zoomOut zoomIn resetView setZoom zoom].
  - unfold Rmax. destruct (Rle_dec _ _); lra.
  - lra.
  - unfold Rmin. destruct (Rle_dec _ _); lra.
Qed.

Lemma editor_zoom_stays_in_range_witness :
  0.2 <= zoom (fold_left (fun s op => applyZoom op s)
                 [ZoomInButton; ZoomInButton; ZoomOutButton] rotatedExample)
  <= 8.
Proof. apply editor_zoom_stays_in_range. cbn. lra. Defined.

Lemma editor_zoom_is_invisible_witness :
  renderedAt (setZoom 2 rotatedExample) (solid 1024 768)
             (mkLayout 1536 1152 0.5 768 576) 768 576 0.25 0.75 =
  renderedAt rotatedExample (solid 1024 768)
             (mkLayout 1536 1152 0.5 768 576) 768 576 0.25 0.75.
Proof. apply editor_zoom_is_invisible; cbn; lra. Defined.

Definition setCrop (c : Crop.CropState) (st : EditorState) : EditorState :=
  {| committedImage := committedImage st;
     brightness := brightness st;
     contrast := contrast st;
     saturation := saturation st;
     rotation := rotation st;
     uniformScale := uniformScale st;
     flipScale := flipScale st;
     activeFilter := activeFilter st;
     crop := c;
     zoom := zoom st;
     panOffset := panOffset st;
     baseCanvas := baseCanvas st |}.

Definition handleStartCrop (st : EditorState) : EditorState :=
  match baseCanvas st with
  | None => st
  | Some canvas =>
      let initialWidth := IZR (width canvas) * 0.8 in
      let initialHeight := IZR (height canvas) * 0.8 in
      setCrop
        {| Crop.isCropping := true;
           Crop.cropBox := Some
             {| Crop.x := (IZR (width canvas) - initialWidth) / 2;
                Crop.y := (IZR (height canvas) - initialHeight) / 2;
                Crop.width := initialWidth;
                Crop.height := initialHeight |};
           Crop.draggingHandle := Crop.draggingHandle (crop st);
           Crop.dragStartPos := Crop.dragStartPos (crop st) |} st
  end.

Definition handleCancelCrop (st : EditorState) : EditorState :=
  setCrop {| Crop.isCropping := false;
             Crop.cropBox := None;
             Crop.draggingHandle := Crop.draggingHandle (crop st);
             Crop.dragStartPos := Crop.dragStartPos (crop st) |} st.

(** Starting a crop on a display canvas puts up a box with non-negative
    extents that lies inside the canvas, is centred in it and spans 80% of
    each dimension. *)
Theorem crop_starts_centred (st : EditorState) (canvas : Canvas) :
  baseCanvas st = Some canvas ->
  (0 <= width canvas)%Z -> (0 <= height canvas)%Z ->
  exists box,
    Crop.cropBox (crop (handleStartCrop st)) = Some box /\
    Crop.isCropping (crop (handleStartCrop st)) = true /\
    0 <= Crop.x box /\ 0 <= Crop.y box /\
    0 <= Crop.width box /\ 0 <= Crop.height box /\
    Crop.x box + Crop.width box <= IZR (width canvas) /\
    Crop.y box + Crop.height box <= IZR (height canvas) /\
    Crop.x box + Crop.width box / 2 = IZR (width canvas) / 2 /\
    Crop.y box + Crop.height box / 2 = IZR (height canvas) / 2 /\
    Crop.width box = 0.8 * IZR (width canvas) /\
    Crop.height box = 0.8 * IZR (height canvas).
Proof.
  intros Hc Hw Hh. unfold handleStartCrop. rewrite Hc.
  apply (IZR_le 0) in Hw. apply (IZR_le 0) in Hh.
  eexists. split; [reflexivity|]. cbn [crop setCrop Crop.isCropping Crop.x
    Crop.y Crop.width Crop.height].
  repeat split; lra.
Qed.

Lemma crop_starts_centred_witness :
  exists box,
    Crop.cropBox (crop (handleStartCrop cropExample)) = Some box /\
    Crop.width box = 0.8 * 100.
Proof.
  destruct (crop_starts_centred cropExample
              (mkCanvas 100 50 (fun _ _ => transparent)) eq_refl)
    as (box & Hb & _ & _ & _ & _ & _ & _ & _ & _ & _ & Hw & _); [cbn; lia..|].
  exists box. split; [exact Hb|exact Hw].
Defined.

(** *** Bake under rotation and flips *)

Lemma quarter_turn_transform (tx ty : R) (f : string) :
  transform (scale 1 1 (rotate (PI / 2)
               (translate tx ty (mkContext identityMatrix f))))
  = mkMatrix 0 1 (-1) 0 tx ty.
Proof.
  unfold scale, rotate, translate. cbn [transform]. rewrite cos_PI2, sin_PI2.
  change (mkMatrix 1 0 0 1 0 0) with identityMatrix.
  rewrite multiply_identity_r, multiply_identity_l.
  unfold multiply. cbn [ma mb mc md me mf]. f_equal; ring.
Qed.

Lemma inverse_quarter_turn (tx ty : R) (p : Point) :
  transformPoint (inverse (mkMatrix 0 1 (-1) 0 tx ty)) p =
  mkPoint (py p - ty) (tx - px p).
Proof.
  unfold transformPoint, inverse, determinant. cbn [ma mb mc md me mf].
  f_equal; field.
Qed.

Lemma flip_transform (fx fy tx ty : R) (f : string) :
  transform (scale fx fy (rotate 0
               (translate tx ty (mkContext identityMatrix f))))
  = mkMatrix fx 0 0 fy tx ty.
Proof.
  unfold scale, rotate, translate. cbn [transform]. rewrite cos_0, sin_0.
  replace (mkMatrix 1 0 (- 0) 1 0 0) with identityMatrix
    by (unfold identityMatrix; f_equal; ring).
  rewrite multiply_identity_r, multiply_identity_l.
  unfold multiply. cbn [ma mb mc md me mf]. f_equal; ring.
Qed.

Lemma inverse_flip (fx fy tx ty : R) (p : Point) :
  fx <> 0 -> fy <> 0 ->
  transformPoint (inverse (mkMatrix fx 0 0 fy tx ty)) p =
  mkPoint ((px p - tx) / fx) ((py p - ty) / fy).
Proof.
  intros Hx Hy. unfold transformPoint, inverse, determinant.
  cbn [ma mb mc md me mf]. f_equal; field; auto.
Qed.

Section BakeTransforms.

Variable sample : Image -> R -> R -> Color.
Variable cssFilter : string -> Color -> Color.

Hypothesis sample_centre : forall image i j,
  (0 <= i < naturalWidth image)%Z -> (0 <= j < naturalHeight image)%Z ->
  sample image (IZR i + / 2) (IZR j + / 2) = pixelAt image i j.

Hypothesis neutral_filter : forall c, cssFilter neutralFilter c = c.

(** The rest of the state is neutral. *)
Definition plain (st : EditorState) : Prop :=
  brightness st = 100%Z /\ contrast st = 100%Z /\ saturation st = 100%Z /\
  activeFilter st = "none" /\ uniformScale st = 1.

(** Baking after "Rotate 90" alone: the raster has the height of the
    committed image as its width and the width as its height, and shows
    the image turned clockwise: the pixel in column i, row j is the pixel
    of the committed image in column j, row (height - 1 - i). *)
Theorem bake_quarter_turn (st : EditorState) (image : Image) :
  committedImage st = Some image ->
  plain st -> rotation st = 90 -> flipScale st = mkPoint 1 1 ->
  (0 < naturalWidth image < 2 ^ 32)%Z ->
  (0 < naturalHeight image < 2 ^ 32)%Z ->
  exists baked,
    getBakedImageData sample cssFilter st = Some baked /\
    naturalWidth baked = naturalHeight image /\
    naturalHeight baked = naturalWidth image /\
    forall i j,
      (0 <= i < naturalHeight image)%Z -> (0 <= j < naturalWidth image)%Z ->
      pixelAt baked i j = pixelAt image j (naturalHeight image - 1 - i).
Proof.
  intros Himg (Hb & Hc & Hs & Hf & Hu) Hr Hfl Hw Hh.
  unfold getBakedImageData.
  rewrite Himg, Hb, Hc, Hs, Hf, Hr, Hu, Hfl. cbn [px py].
  replace (90 * PI / 180) with (PI / 2) by lra. rewrite cos_PI2, sin_PI2.
  set (w := IZR (naturalWidth image)). set (h := IZR (naturalHeight image)).
  assert (Hw' : 0 < w) by (apply (IZR_lt 0); lia).
  assert (Hh' : 0 < h) by (apply (IZR_lt 0); lia).
  replace (Rabs (w * 1 * 0) + Rabs (h * 1 * 1)) with h
    by (rewrite Rmult_0_r, Rabs_R0, !Rmult_1_r, Rabs_right; lra).
  replace (Rabs (w * 1 * 1) + Rabs (h * 1 * 0)) with w
    by (rewrite Rmult_0_r, Rabs_R0, !Rmult_1_r, Rabs_right; lra).
  unfold toImage, drawImage5, drawImage, createCanvas.
  cbn [width height bitmap].
  unfold w at 1 2, h at 1 2. rewrite !toDimension_IZR by lia.
  replace ((0 <? naturalHeight image)%Z && (0 <? naturalWidth image)%Z)
    with true
    by (symmetry; apply andb_true_intro; split; apply Z.ltb_lt; lia).
  eexists. split; [reflexivity|]. unfold asImage.
  cbn [naturalWidth naturalHeight pixelAt width height bitmap].
  split; [reflexivity|]. split; [reflexivity|].
  intros i j Hi Hj.
  assert (Hi' : 0 <= IZR i /\ IZR i + 1 <= h).
  { split; [apply (IZR_le 0); lia|].
    unfold h. rewrite <- (plus_IZR i 1). apply IZR_le. lia. }
  assert (Hj' : 0 <= IZR j /\ IZR j + 1 <= w).
  { split; [apply (IZR_le 0); lia|].
    unfold w. rewrite <- (plus_IZR j 1). apply IZR_le. lia. }
  rewrite quarter_turn_transform, inverse_quarter_turn. cbn [px py]. fold w h.
  replace (within (- (w * 1) / 2) (- (w * 1) / 2 + w * 1)
             (IZR j + / 2 - w / 2)) with true
    by (symmetry; apply within_spec; lra).
  replace (within (- (h * 1) / 2) (- (h * 1) / 2 + h * 1)
             (h / 2 - (IZR i + / 2))) with true
    by (symmetry; apply within_spec; lra).
  cbn [andb].
  replace (0 + (IZR j + / 2 - w / 2 - - (w * 1) / 2) * (w / (w * 1)))
    with (IZR j + / 2) by (field; lra).
  replace (0 + (h / 2 - (IZR i + / 2) - - (h * 1) / 2) * (h / (h * 1)))
    with (IZR (naturalHeight image - 1 - i) + / 2)
    by (rewrite !minus_IZR; fold h; field; lra).
  replace (within 0 w (IZR j + / 2)) with true
    by (symmetry; apply within_spec; lra).
  replace (within 0 h (IZR (naturalHeight image - 1 - i) + / 2)) with true
    by (symmetry; apply within_spec; rewrite !minus_IZR; fold h; lra).
  cbn [andb].
  change (cssFilter neutralFilter
            (sample image (IZR j + / 2)
                    (IZR (naturalHeight image - 1 - i) + / 2))
          = pixelAt image j (naturalHeight image - 1 - i)).
  rewrite neutral_filter. apply sample_centre; lia.
Qed.

(** Baking after "Flip H" alone mirrors the image left to right, and after
    "Flip V" alone top to bottom; the size stays. *)
Theorem bake_flip (st : EditorState) (image : Image) (horizontal : bool) :
  committedImage st = Some image ->
  plain st -> rotation st = 0 ->
  flipScale st = (if horizontal then mkPoint (-1) 1 else mkPoint 1 (-1)) ->
  (0 < naturalWidth image < 2 ^ 32)%Z ->
  (0 < naturalHeight image < 2 ^ 32)%Z ->
  exists baked,
    getBakedImageData sample cssFilter st = Some baked /\
    naturalWidth baked = naturalWidth image /\
    naturalHeight baked = naturalHeight image /\
    forall i j,
      (0 <= i < naturalWidth image)%Z -> (0 <= j < naturalHeight image)%Z ->
      pixelAt baked i j =
        if horizontal then pixelAt image (naturalWidth image - 1 - i) j
        else pixelAt image i (naturalHeight image - 1 - j).
Proof.
  intros Himg (Hb & Hc & Hs & Hf & Hu) Hr Hfl Hw Hh.
  unfold getBakedImageData.
  rewrite Himg, Hb, Hc, Hs, Hf, Hr, Hu, Hfl.
  replace (0 * PI / 180) with 0 by lra. rewrite cos_0, sin_0.
  set (w := IZR (naturalWidth image)). set (h := IZR (naturalHeight image)).
  assert (Hw' : 0 < w) by (apply (IZR_lt 0); lia).
  assert (Hh' : 0 < h) by (apply (IZR_lt 0); lia).
  replace (Rabs (w * 1 * 1) + Rabs (h * 1 * 0)) with w
    by (rewrite Rmult_0_r, Rabs_R0, !Rmult_1_r, Rabs_right; lra).
  replace (Rabs (w * 1 * 0) + Rabs (h * 1 * 1)) with h
    by (rewrite Rmult_0_r, Rabs_R0, !Rmult_1_r, Rabs_right; lra).
  unfold toImage, drawImage5, drawImage, createCanvas.
  cbn [width height bitmap].
  unfold w at 1 2, h at 1 2. rewrite !toDimension_IZR by lia.
  replace ((0 <? naturalWidth image)%Z && (0 <? naturalHeight image)%Z)
    with true
    by (symmetry; apply andb_true_intro; split; apply Z.ltb_lt; lia).
  eexists. split; [reflexivity|]. unfold asImage.
  cbn [naturalWidth naturalHeight pixelAt width height bitmap].
  split; [reflexivity|]. split; [reflexivity|].
  intros i j Hi Hj.
  assert (Hi' : 0 <= IZR i /\ IZR i + 1 <= w).
  { split; [apply (IZR_le 0); lia|].
    unfold w. rewrite <- (plus_IZR i 1). apply IZR_le. lia. }
  assert (Hj' : 0 <= IZR j /\ IZR j + 1 <= h).
  { split; [apply (IZR_le 0); lia|].
    unfold h. rewrite <- (plus_IZR j 1). apply IZR_le. lia. }
  rewrite flip_transform. fold w h.
  destruct horizontal; cbn [px py];
    rewrite inverse_flip by lra; cbn [px py].
  - replace (within (- (w * 1) / 2) (- (w * 1) / 2 + w * 1)
               ((IZR i + / 2 - w / 2) / -1)) with true
      by (symmetry; apply within_spec; lra).
    replace (within (- (h * 1) / 2) (- (h * 1) / 2 + h * 1)
               ((IZR j + / 2 - h / 2) / 1)) with true
      by (symmetry; apply within_spec; lra).
    cbn [andb].
    replace (0 + ((IZR i + / 2 - w / 2) / -1 - - (w * 1) / 2) * (w / (w * 1)))
      with (IZR (naturalWidth image - 1 - i) + / 2)
      by (rewrite !minus_IZR; fold w; field; lra).
    replace (0 + ((IZR j + / 2 - h / 2) / 1 - - (h * 1) / 2) * (h / (h * 1)))
      with (IZR j + / 2) by (field; lra).
    replace (within 0 w (IZR (naturalWidth image - 1 - i) + / 2)) with true
      by (symmetry; apply within_spec; rewrite !minus_IZR; fold w; lra).
    replace (within 0 h (IZR j + / 2)) with true
      by (symmetry; apply within_spec; lra).
    cbn [andb].
    change (cssFilter neutralFilter
              (sample image (IZR (naturalWidth image - 1 - i) + / 2)
                      (IZR j + / 2))
            = pixelAt image (naturalWidth image - 1 - i) j).
    rewrite neutral_filter. apply sample_centre; lia.
  - replace (within (- (w * 1) / 2) (- (w * 1) / 2 + w * 1)
               ((IZR i + / 2 - w / 2) / 1)) with true
      by (symmetry; apply within_spec; lra).
    replace (within (- (h * 1) / 2) (- (h * 1) / 2 + h * 1)
               ((IZR j + / 2 - h / 2) / -1)) with true
      by (symmetry; apply within_spec; lra).
    cbn [andb].
    replace (0 + ((IZR i + / 2 - w / 2) / 1 - - (w * 1) / 2) * (w / (w * 1)))
      with (IZR i + / 2) by (field; lra).
    replace (0 + ((IZR j + / 2 - h / 2) / -1 - - (h * 1) / 2) * (h / (h * 1)))
      with (IZR (naturalHeight image - 1 - j) + / 2)
      by (rewrite !minus_IZR; fold h; field; lra).
    replace (within 0 w (IZR i + / 2)) with true
      by (symmetry; apply within_spec; lra).
    replace (within 0 h (IZR (naturalHeight image - 1 - j) + / 2)) with true
      by (symmetry; apply within_spec; rewrite !minus_IZR; fold h; lra).
    cbn [andb].
    change (cssFilter neutralFilter
              (sample image (IZR i + / 2)
                      (IZR (naturalHeight image - 1 - j) + / 2))
            = pixelAt image i (naturalHeight image - 1 - j)).
    rewrite neutral_filter. apply sample_centre; lia.
Qed.

End BakeTransforms.

(** A 3 x 2 image whose pixels record their own coordinates. *)
Definition strip : Image :=
  {| naturalWidth := 3; naturalHeight := 2;
     pixelAt := fun i j => mkColor i j 0 255 |}.

(** The flip buttons and the rotation slider. *)
Definition flipHorizontal (st : EditorState) : EditorState :=
  {| committedImage := committedImage st;
     brightness := brightness st; contrast := contrast st;
     saturation := saturation st;
     rotation := rotation st; uniformScale := uniformScale st;
     flipScale := mkPoint (px (flipScale st) * -1) (py (flipScale st));
     activeFilter := activeFilter st;
     crop := crop st; zoom := zoom st; panOffset := panOffset st;
     baseCanvas := baseCanvas st |}.

Definition flipVertical (st : EditorState) : EditorState :=
  {| committedImage := committedImage st;
     brightness := brightness st; contrast := contrast st;
     saturation := saturation st;
     rotation := rotation st; uniformScale := uniformScale st;
     flipScale := mkPoint (px (flipScale st)) (py (flipScale st) * -1);
     activeFilter := activeFilter st;
     crop := crop st; zoom := zoom st; panOffset := panOffset st;
     baseCanvas := baseCanvas st |}.

Definition setRotation (r : R) (st : EditorState) : EditorState :=
  {| committedImage := committedImage st;
     brightness := brightness st; contrast := contrast st;
     saturation := saturation st;
     rotation := r; uniformScale := uniformScale st;
     flipScale := flipScale st;
     activeFilter := activeFilter st;
     crop := crop st; zoom := zoom st; panOffset := panOffset st;
     baseCanvas := baseCanvas st |}.

Lemma bake_quarter_turn_witness :
  exists baked,
    getBakedImageData nearest noFilter (setRotation 90 (untouched strip))
      = Some baked /\
    naturalWidth baked = 2%Z /\ naturalHeight baked = 3%Z /\
    pixelAt baked 1 0 = mkColor 0 0 0 255 /\
    pixelAt baked 0 2 = mkColor 2 1 0 255.
Proof.
  destruct (bake_quarter_turn nearest noFilter nearest_centre
              (fun c => eq_refl) (setRotation 90 (untouched strip)) strip
              eq_refl)
    as (baked & Hb & Hw & Hh & Hp).
  - repeat split.
  - reflexivity.
  - reflexivity.
  - cbn. lia.
  - cbn. lia.
  - exists baked. split; [exact Hb|]. split; [exact Hw|]. split; [exact Hh|].
    split; [apply (Hp 1%Z 0%Z) | apply (Hp 0%Z 2%Z)]; cbn; lia.
Defined.

Lemma bake_flip_witness :
  exists baked,
    getBakedImageData nearest noFilter (flipHorizontal (untouched strip))
      = Some baked /\
    naturalWidth baked = 3%Z /\ naturalHeight baked = 2%Z /\
    pixelAt baked 0 1 = mkColor 2 1 0 255.
Proof.
  destruct (bake_flip nearest noFilter nearest_centre
              (fun c => eq_refl) (flipHorizontal (untouched strip)) strip true
              eq_refl)
    as (baked & Hb & Hw & Hh & Hp).
  - repeat split.
  - reflexivity.
  - cbn. f_equal; lra.
  - cbn. lia.
  - cbn. lia.
  - exists baked. split; [exact Hb|]. split; [exact Hw|]. split; [exact Hh|].
    apply (Hp 0%Z 1%Z); cbn; lia.
Defined.

(** *** Expanding the canvas for outpainting *)

Section Expand.

Variable sample : Image -> R -> R -> Color.
Variable cssFilter : string -> Color -> Color.

(** The 'expand' branch of handleSubmit: the image sent to the service, as
    the image its PNG data decodes to. [None] stands for the thrown
    "Failed to create expanded image data". *)
Definition expandedImage (bakedImageElement : Image) : option Image :=
  let newWidth := IZR (naturalWidth bakedImageElement) * 1.5 in
  let newHeight := IZR (naturalHeight bakedImageElement) * 1.5 in
  let expandedCanvas := createCanvas newWidth newHeight in
  let expandedCtx := freshContext in
  let offsetX := (newWidth - IZR (naturalWidth bakedImageElement)) / 2 in
  let offsetY := (newHeight - IZR (naturalHeight bakedImageElement)) / 2 in
  toImage (drawImage3 sample cssFilter expandedCtx bakedImageElement
                      offsetX offsetY expandedCanvas).

Hypothesis sample_centre : forall image i j,
  (0 <= i < naturalWidth image)%Z -> (0 <= j < naturalHeight image)%Z ->
  sample image (IZR i + / 2) (IZR j + / 2) = pixelAt image i j.

Hypothesis none_filter : forall c, cssFilter "none" c = c.

(** Expanding an image of at least 1 x 1 pixels gives an image of
    floor(1.5 w) x floor(1.5 h) pixels. Every pixel whose centre lies outside
    the rectangle of size w x h at offset (w / 4, h / 4) is transparent, and
    when w and h are multiples of 4 the rectangle holds an exact copy of the
    image. *)
Theorem expand_keeps_image_centred (image : Image) :
  (0 < naturalWidth image)%Z -> (0 < naturalHeight image)%Z ->
  (3 * naturalWidth image < 2 ^ 33)%Z ->
  (3 * naturalHeight image < 2 ^ 33)%Z ->
  exists expanded,
    expandedImage image = Some expanded /\
    naturalWidth expanded = (3 * naturalWidth image / 2)%Z /\
    naturalHeight expanded = (3 * naturalHeight image / 2)%Z /\
    (forall i j,
       ~ (IZR (naturalWidth image) / 4 <= IZR i + / 2
            < IZR (naturalWidth image) / 4 + IZR (naturalWidth image) /\
          IZR (naturalHeight image) / 4 <= IZR j + / 2
            < IZR (naturalHeight image) / 4 + IZR (naturalHeight image)) ->
       pixelAt expanded i j = transparent) /\
    (forall a b,
       naturalWidth image = (4 * a)%Z -> naturalHeight image = (4 * b)%Z ->
       forall i j,
         (0 <= i < naturalWidth image)%Z -> (0 <= j < naturalHeight image)%Z ->
         pixelAt expanded (a + i) (b + j) = pixelAt image i j).
Proof.
  intros Hw Hh Hw32 Hh32.
  set (w := naturalWidth image) in *. set (h := naturalHeight image) in *.
  assert (Hfl : forall n, (0 < n)%Z -> (3 * n < 2 ^ 33)%Z ->
            toDimension (IZR n * 1.5) = (3 * n / 2)%Z).
  { intros n Hn Hn32. unfold toDimension.
    assert (Hf : Zfloor (IZR n * 1.5) = (3 * n / 2)%Z).
    { apply Zfloor_eq.
      pose proof (Z.div_mod (3 * n) 2 ltac:(lia)) as Hdm.
      pose proof (Z.mod_pos_bound (3 * n) 2 ltac:(lia)) as Hm.
      assert (H3 : IZR (3 * n) = 3 * IZR n) by now rewrite mult_IZR.
      assert (Hq : IZR (3 * n) = 2 * IZR (3 * n / 2) + IZR ((3 * n) mod 2)).
      { rewrite <- mult_IZR, <- plus_IZR. f_equal. exact Hdm. }
      assert (H0 : 0 <= IZR ((3 * n) mod 2)) by (apply (IZR_le 0); lia).
      assert (H1 : IZR ((3 * n) mod 2) <= 1) by (apply (IZR_le _ 1); lia).
      lra. }
    rewrite Hf. apply Z.mod_small.
    split; [apply Z.div_pos; lia|].
    apply Z.div_lt_upper_bound; lia. }
  unfold expandedImage, toImage, drawImage3, drawImage5, drawImage,
    createCanvas, freshContext. fold w h.
  cbn [width height bitmap transform filter].
  rewrite !Hfl by assumption.
  assert (Hpw : (0 < 3 * w / 2)%Z)
    by (apply Z.div_str_pos; lia).
  assert (Hph : (0 < 3 * h / 2)%Z)
    by (apply Z.div_str_pos; lia).
  replace ((0 <? 3 * w / 2)%Z && (0 <? 3 * h / 2)%Z) with true
    by (symmetry; apply andb_true_intro; split; apply Z.ltb_lt; assumption).
  eexists. split; [reflexivity|]. unfold asImage.
  cbn [naturalWidth naturalHeight pixelAt width height bitmap].
  assert (HW : 0 < IZR w) by (apply (IZR_lt 0); exact Hw).
  assert (HH : 0 < IZR h) by (apply (IZR_lt 0); exact Hh).
  split; [reflexivity|]. split; [reflexivity|]. split.
  - intros i j Hout. rewrite inverse_identity_point. cbn [px py].
    destruct (within ((IZR w * 1.5 - IZR w) / 2)
                     ((IZR w * 1.5 - IZR w) / 2 + IZR w) (IZR i + / 2))
      eqn:Ex; [|reflexivity].
    destruct (within ((IZR h * 1.5 - IZR h) / 2)
                     ((IZR h * 1.5 - IZR h) / 2 + IZR h) (IZR j + / 2))
      eqn:Ey; [|reflexivity].
    apply within_spec in Ex, Ey. exfalso. apply Hout. lra.
  - intros a b Ha Hb i j Hi Hj. rewrite inverse_identity_point. cbn [px py].
    assert (HWa : IZR w = 4 * IZR a) by (rewrite Ha, mult_IZR; reflexivity).
    assert (HHb : IZR h = 4 * IZR b) by (rewrite Hb, mult_IZR; reflexivity).
    assert (Hi' : 0 <= IZR i /\ IZR i + 1 <= IZR w).
    { split; [apply (IZR_le 0); lia|].
      rewrite <- (plus_IZR i 1). apply IZR_le. lia. }
    assert (Hj' : 0 <= IZR j /\ IZR j + 1 <= IZR h).
    { split; [apply (IZR_le 0); lia|].
      rewrite <- (plus_IZR j 1). apply IZR_le. lia. }
    rewrite !plus_IZR.
    replace (within ((IZR w * 1.5 - IZR w) / 2)
               ((IZR w * 1.5 - IZR w) / 2 + IZR w) (IZR a + IZR i + / 2))
      with true by (symmetry; apply within_spec; lra).
    replace (within ((IZR h * 1.5 - IZR h) / 2)
               ((IZR h * 1.5 - IZR h) / 2 + IZR h) (IZR b + IZR j + / 2))
      with true by (symmetry; apply within_spec; lra).
    cbn [andb].
    replace (0 + (IZR a + IZR i + / 2 - (IZR w * 1.5 - IZR w) / 2)
                 * (IZR w / IZR w))
      with (IZR i + / 2) by (field_simplify_eq; lra).
    replace (0 + (IZR b + IZR j + / 2 - (IZR h * 1.5 - IZR h) / 2)
                 * (IZR h / IZR h))
      with (IZR j + / 2) by (field_simplify_eq; lra).
    replace (within 0 (IZR w) (IZR i + / 2)) with true
      by (symmetry; apply within_spec; lra).
    replace (within 0 (IZR h) (IZR j + / 2)) with true
      by (symmetry; apply within_spec; lra).
    cbn [andb]. rewrite none_filter. apply sample_centre; assumption.
Qed.

End Expand.

(** A 4 x 4 image whose pixels record their own coordinates. *)
Definition tile : Image :=
  {| naturalWidth := 4; naturalHeight := 4;
     pixelAt := fun i j => mkColor i j 0 255 |}.

Lemma expand_keeps_image_centred_witness :
  exists expanded,
    expandedImage nearest noFilter tile = Some expanded /\
    naturalWidth expanded = 6%Z /\ naturalHeight expanded = 6%Z /\
    pixelAt expanded 0 3 = transparent /\
    pixelAt expanded 1 1 = mkColor 0 0 0 255 /\
    pixelAt expanded 4 2 = mkColor 3 1 0 255.
Proof.
  destruct (expand_keeps_image_centred nearest noFilter nearest_centre
              (fun c => eq_refl) tile)
    as (expanded & He & Hw & Hh & Hout & Hin); try (cbn; lia).
  exists expanded. split; [exact He|]. split; [exact Hw|]. split; [exact Hh|].
  split; [|split].
  - apply Hout. cbn. lra.
  - apply (Hin 1%Z 1%Z eq_refl eq_refl 0%Z 0%Z); cbn; lia.
  - apply (Hin 1%Z 1%Z eq_refl eq_refl 3%Z 1%Z); cbn; lia.
Defined.

(** *** Crop apply against the baked raster *)

(** The scale slider and a filter preset. *)
Definition setUniformScale (u : R) (st : EditorState) : EditorState :=
  {| committedImage := committedImage st;
     brightness := brightness st; contrast := contrast st;
     saturation := saturation st;
     rotation := rotation st; uniformScale := u;
     flipScale := flipScale st;
     activeFilter := activeFilter st;
     crop := crop st; zoom := zoom st; panOffset := panOffset st;
     baseCanvas := baseCanvas st |}.

Definition setActiveFilter (f : string) (st : EditorState) : EditorState :=
  {| committedImage := committedImage st;
     brightness := brightness st; contrast := contrast st;
     saturation := saturation st;
     rotation := rotation st; uniformScale := uniformScale st;
     flipScale := flipScale st;
     activeFilter := f;
     crop := crop st; zoom := zoom st; panOffset := panOffset st;
     baseCanvas := baseCanvas st |}.

(** A 200 x 100 image as the editor opens it in a container of 140 x 90:
    nothing adjusted, on a display canvas of 100 x 50. *)
Definition shown : EditorState :=
  {| committedImage := Some (solid 200 100);
     brightness := 100; contrast := 100; saturation := 100;
     rotation := 0; uniformScale := 1; flipScale := mkPoint 1 1;
     activeFilter := "none";
     crop := Crop.mkCropState false None None (mkPoint 0 0);
     zoom := 1; panOffset := mkPoint 0 0;
     baseCanvas := Some (mkCanvas 100 50 (fun _ _ => transparent)) |}.

(** The display canvas of [shown] is the one renderCanvas sizes, at any
    zoom and at the scales 1 and 0.5 alike. *)
Lemma shown_layout (z u : R) :
  0 < u ->
  exists layout,
    renderLayout (setUniformScale u (setZoom z shown)) 140 90 = Some layout /\
    canvasWidth layout = 100 /\ canvasHeight layout = 50.
Proof.
  intros Hu. unfold renderLayout.
  cbn [committedImage setUniformScale setZoom shown rotation uniformScale
       naturalWidth naturalHeight solid].
  replace (0 * PI / 180) with 0 by lra.
  rewrite cos_0, sin_0, Rabs_R1, Rabs_R0.
  destruct (Req_dec_T (200 * u * 1 + 100 * u * 0) 0) as [E|_]; [lra|].
  destruct (Req_dec_T (200 * u * 0 + 100 * u * 1) 0) as [E|_]; [lra|].
  eexists. split; [reflexivity|]. cbn [canvasWidth canvasHeight].
  replace ((140 - 40) / (200 * u * 1 + 100 * u * 0)) with (/ (2 * u))
    by (field; lra).
  replace ((90 - 40) / (200 * u * 0 + 100 * u * 1)) with (/ (2 * u))
    by (field; lra).
  rewrite Rmin_left by lra. split; field; lra.
Qed.

(** The factor of handleApplyCrop is the ratio of the native rotated width
    to the display width, times the zoom. *)
Lemma scaleBetweenDisplayAndBaked_zoom (st : EditorState) (image : Image)
    (displayCanvas : Canvas) :
  zoom st <> 0 -> IZR (width displayCanvas) <> 0 ->
  scaleBetweenDisplayAndBaked st image displayCanvas =
  zoom st * scaleBetweenDisplayAndBaked (setZoom 1 st) image displayCanvas.
Proof.
  intros Hz Hw. unfold scaleBetweenDisplayAndBaked.
  cbn [setZoom rotation zoom]. field. auto.
Qed.

(** handleApplyCrop reads neither the uniform scale nor the preset filter:
    the image it commits is the same whatever they are. *)
Lemma handleApplyCrop_ignores_scale_and_filter
    (sample : Image -> R -> R -> Color) (cssFilter : string -> Color -> Color)
    (st : EditorState) (u : R) (f : string) :
  committedImage
    (handleApplyCrop sample cssFilter (setUniformScale u (setActiveFilter f st)))
  = committedImage (handleApplyCrop sample cssFilter st).
Proof.
  unfold handleApplyCrop.
  cbn [committedImage crop baseCanvas setUniformScale setActiveFilter].
  destruct (committedImage st) as [image|] eqn:Ei; [|now rewrite Ei].
  destruct (Crop.cropBox (crop st)) as [box|]; [|now rewrite Ei].
  destruct (baseCanvas st) as [display|]; [|now rewrite Ei].
  change (transformedCanvas sample cssFilter
            (setUniformScale u (setActiveFilter f st)) image)
    with (transformedCanvas sample cssFilter st image).
  change (scaleBetweenDisplayAndBaked
            (setUniformScale u (setActiveFilter f st)) image display)
    with (scaleBetweenDisplayAndBaked st image display).
  destruct (toImage _) as [newImage|]; [reflexivity|].
  cbn [committedImage setUniformScale setActiveFilter]. reflexivity.
Qed.

(** Sizes of the baked raster of [shown] at the uniform scale [u]. *)
Lemma shown_baked_size (sample : Image -> R -> R -> Color)
    (cssFilter : string -> Color -> Color) (st : EditorState) (u : R)
    (w h : Z) :
  committedImage st = Some (solid 200 100) ->
  rotation st = 0 -> uniformScale st = u ->
  200 * u = IZR w -> 100 * u = IZR h ->
  (0 < w < 2 ^ 32)%Z -> (0 < h < 2 ^ 32)%Z ->
  exists baked,
    getBakedImageData sample cssFilter st = Some baked /\
    naturalWidth baked = w /\ naturalHeight baked = h.
Proof.
  intros Hi Hr Hu Hw Hh Hwr Hhr. unfold getBakedImageData.
  rewrite Hi, Hr, Hu. cbn [naturalWidth naturalHeight solid].
  replace (0 * PI / 180) with 0 by lra. rewrite cos_0, sin_0.
  assert (H0w : 0 < IZR w) by (apply (IZR_lt 0); lia).
  assert (H0h : 0 < IZR h) by (apply (IZR_lt 0); lia).
  replace (Rabs (200 * u * 1) + Rabs (100 * u * 0)) with (IZR w)
    by (rewrite Rmult_0_r, Rabs_R0, Rmult_1_r, Rabs_right; lra).
  replace (Rabs (200 * u * 0) + Rabs (100 * u * 1)) with (IZR h)
    by (rewrite Rmult_0_r, Rabs_R0, Rmult_1_r, Rabs_right; lra).
  unfold toImage, drawImage5, drawImage, createCanvas.
  cbn [width height]. rewrite !toDimension_IZR by lia.
  replace ((0 <? w)%Z && (0 <? h)%Z) with true
    by (symmetry; apply andb_true_intro; split; apply Z.ltb_lt; lia).
  eexists. split; [reflexivity|]. split; reflexivity.
Qed.

(** C6, at the failing inputs. The editor shows a 200 x 100 image on a
    display canvas of 100 x 50, so one display pixel is two pixels of the
    baked raster, and "crop" puts up the box of 80 x 40 at (10, 5).
    After one press of "zoom in", which leaves the display as it is, "apply"
    commits an image of 200 x 100 pixels, cut from (25, 12.5), where the
    box mapped by the ratio of the baked width to the display width is the
    region of 160 x 80 at (20, 10). With the scale slider at 50% instead the
    baked raster has 100 x 50 pixels and the mapped box 80 x 40, but the
    image committed has 160 x 80: it is cut from a raster that is not the
    baked one. *)
Theorem crop_apply_misses_the_baked_region
    (sample : Image -> R -> R -> Color)
    (cssFilter : string -> Color -> Color) :
  (let st := handleStartCrop (zoomIn shown) in
   exists baked displayCanvas box newImage,
     getBakedImageData sample cssFilter st = Some baked /\
     baseCanvas st = Some displayCanvas /\
     Crop.cropBox (crop st) = Some box /\
     let ratio := IZR (naturalWidth baked) / IZR (width displayCanvas) in
     Crop.x box * ratio = 20 /\ Crop.y box * ratio = 10 /\
     Crop.width box * ratio = 160 /\ Crop.height box * ratio = 80 /\
     Crop.x box * scaleBetweenDisplayAndBaked st (solid 200 100) displayCanvas
       = 25 /\
     Crop.y box * scaleBetweenDisplayAndBaked st (solid 200 100) displayCanvas
       = 12.5 /\
     committedImage (handleApplyCrop sample cssFilter st) = Some newImage /\
     naturalWidth newImage = 200%Z /\ naturalHeight newImage = 100%Z /\
     IZR (naturalWidth newImage) <> Crop.width box * ratio) /\
  (let st := handleStartCrop (setUniformScale 0.5 shown) in
   exists baked displayCanvas box newImage,
     getBakedImageData sample cssFilter st = Some baked /\
     naturalWidth baked = 100%Z /\ naturalHeight baked = 50%Z /\
     baseCanvas st = Some displayCanvas /\
     Crop.cropBox (crop st) = Some box /\
     let ratio := IZR (naturalWidth baked) / IZR (width displayCanvas) in
     Crop.width box * ratio = 80 /\ Crop.height box * ratio = 40 /\
     committedImage (handleApplyCrop sample cssFilter st) = Some newImage /\
     naturalWidth newImage = 160%Z /\ naturalHeight newImage = 80%Z /\
     IZR (naturalWidth newImage) <> Crop.width box * ratio).
Proof.
  assert (Ez : Rmin (1 * 1.25) 8 = 1.25) by (rewrite Rmin_left; lra).
  assert (Ec : cos (0 * PI / 180) = 1)
    by (replace (0 * PI / 180) with 0 by lra; apply cos_0).
  assert (Es : sin (0 * PI / 180) = 0)
    by (replace (0 * PI / 180) with 0 by lra; apply sin_0).
  split.
  - cbn zeta.
    destruct (shown_baked_size sample cssFilter
                (handleStartCrop (zoomIn shown)) 1 200 100
                eq_refl eq_refl eq_refl) as (baked & Hb & Hbw & Hbh);
      [lra|lra|lia|lia|].
    pose proof (handleApplyCrop_result sample cssFilter
                  (handleStartCrop (zoomIn shown)) (solid 200 100) _ _
                  eq_refl eq_refl eq_refl) as H.
    cbn [rotation handleStartCrop zoomIn setZoom setCrop shown baseCanvas
         zoom naturalWidth naturalHeight solid width height
         Crop.x Crop.y Crop.width Crop.height] in H.
    rewrite Ec, Es, Ez, Rabs_R1, Rabs_R0 in H. cbn zeta in H.
    set (sW := 100 * 0.8 * ((200 * 1 + 100 * 0) / (100 / 1.25))) in H.
    set (sH := 50 * 0.8 * ((200 * 1 + 100 * 0) / (100 / 1.25))) in H.
    assert (HsW : sW = 200) by (unfold sW; lra).
    assert (HsH : sH = 100) by (unfold sH; lra).
    change (2 ^ 32)%Z with 4294967296%Z in H.
    destruct H as ((newImage & Hn & Hnw & Hnh & _) & _); [lra|lra|].
    rewrite HsW, ZfloorZ in Hnw. rewrite HsH, ZfloorZ in Hnh.
    eexists baked, _, _, newImage.
    split; [exact Hb|]. split; [reflexivity|]. split; [reflexivity|].
    rewrite Hbw. unfold scaleBetweenDisplayAndBaked.
    cbn [rotation handleStartCrop zoomIn setZoom setCrop shown baseCanvas
         zoom naturalWidth naturalHeight solid width height
         Crop.x Crop.y Crop.width Crop.height].
    rewrite Ec, Es, Ez, Rabs_R1, Rabs_R0. rewrite Hnw.
    repeat (split; [lra || field || assumption || reflexivity|]). lra.
  - cbn zeta.
    destruct (shown_baked_size sample cssFilter
                (handleStartCrop (setUniformScale 0.5 shown)) 0.5 100 50
                eq_refl eq_refl eq_refl) as (baked & Hb & Hbw & Hbh);
      [lra|lra|lia|lia|].
    pose proof (handleApplyCrop_result sample cssFilter
                  (handleStartCrop (setUniformScale 0.5 shown))
                  (solid 200 100) _ _ eq_refl eq_refl eq_refl) as H.
    cbn [rotation handleStartCrop setUniformScale setCrop shown baseCanvas
         zoom naturalWidth naturalHeight solid width height
         Crop.x Crop.y Crop.width Crop.height] in H.
    rewrite Ec, Es, Rabs_R1, Rabs_R0 in H. cbn zeta in H.
    set (sW := 100 * 0.8 * ((200 * 1 + 100 * 0) / (100 / 1))) in H.
    set (sH := 50 * 0.8 * ((200 * 1 + 100 * 0) / (100 / 1))) in H.
    assert (HsW : sW = 160) by (unfold sW; lra).
    assert (HsH : sH = 80) by (unfold sH; lra).
    change (2 ^ 32)%Z with 4294967296%Z in H.
    destruct H as ((newImage & Hn & Hnw & Hnh & _) & _); [lra|lra|].
    rewrite HsW, ZfloorZ in Hnw. rewrite HsH, ZfloorZ in Hnh.
    eexists baked, _, _, newImage.
    split; [exact Hb|]. split; [exact Hbw|]. split; [exact Hbh|].
    split; [reflexivity|]. split; [reflexivity|].
    rewrite Hbw.
    cbn [handleStartCrop setUniformScale setCrop shown baseCanvas
         width height Crop.x Crop.y Crop.width Crop.height]. rewrite Hnw.
    repeat (split; [lra || field || assumption || reflexivity|]). lra.
Qed.

End Editor.

(** ** The image viewer: wheel zoom about the mouse position *)

Module Viewer.

Import Canvas2D.
Local Open Scope R_scope.

Record ViewerState := mkViewerState {
  scale : R;
  position : Point
}.

Record WheelEvent := mkWheelEvent {
  deltaY : R;
  clientX : R;
  clientY : R
}.

(** [getBoundingClientRect()] of the image container. *)
Record DOMRect := mkDOMRect {
  left : R;
  top : R;
  width : R;
  height : R
}.

(** handleWheel; [container] is [imageContainerRef.current]. *)
Definition handleWheel (e : WheelEvent) (container : option DOMRect)
    (st : ViewerState) : ViewerState :=
  let delta := if Rlt_dec 0 (deltaY e) then -1 else 1 in
  let zoomIntensity := 0.2 in
  let newScale :=
    Rmin (Rmax (scale st + delta * zoomIntensity * scale st) 0.1) 8 in
  match container with
  | Some rect =>
      let mouseX := clientX e - left rect in
      let mouseY := clientY e - top rect in
      let pointX := (mouseX - px (position st)) / scale st in
      let pointY := (mouseY - py (position st)) / scale st in
      let newX := mouseX - pointX * newScale in
      let newY := mouseY - pointY * newScale in
      {| scale := newScale; position := mkPoint newX newY |}
  | None => st
  end.

Definition handleZoomIn (st : ViewerState) : ViewerState :=
  {| scale := Rmin (scale st * 1.25) 8; position := position st |}.

Definition handleZoomOut (st : ViewerState) : ViewerState :=
  {| scale := Rmax (scale st / 1.25) 0.1; position := position st |}.

Definition handleReset (st : ViewerState) : ViewerState :=
  {| scale := 1; position := mkPoint 0 0 |}.

(** Where the viewer shows a point of the image, in coordinates relative to
    the container. The container is a flex box that centres the image
    (items-center, justify-center) and the image carries the style
    [transform: translate(position) scale(scale)] with no transform origin
    of its own, so that the transform acts about the centre of the image:
    the point at the offset [p] from the centre of the image is shown at the
    centre of the container plus [position] plus [scale] times [p]. *)
Definition shownAt (rect : DOMRect) (st : ViewerState) (p : Point) : Point :=
  {| px := width rect / 2 + px (position st) + scale st * px p;
     py := height rect / 2 + py (position st) + scale st * py p |}.

(** The point of the image, as an offset from its centre, that is shown at
    the container position [m]. *)
Definition contentUnder (rect : DOMRect) (st : ViewerState) (m : Point)
    : Point :=
  {| px := (px m - width rect / 2 - px (position st)) / scale st;
     py := (py m - height rect / 2 - py (position st)) / scale st |}.

(** The point that handleWheel takes to be under the mouse: it measures
    from the top left corner of the container. *)
Definition pointUnderMouse (st : ViewerState) (m : Point) : Point :=
  {| px := (px m - px (position st)) / scale st;
     py := (py m - py (position st)) / scale st |}.

Definition mousePos (e : WheelEvent) (rect : DOMRect) : Point :=
  {| px := clientX e - left rect; py := clientY e - top rect |}.

Lemma shownAt_contentUnder (rect : DOMRect) (st : ViewerState) (m : Point) :
  scale st <> 0 -> shownAt rect st (contentUnder rect st m) = m.
Proof.
  intros Hs. unfold shownAt, contentUnder. cbn [px py].
  destruct m as [mx my]. cbn [px py]. f_equal; field; exact Hs.
Qed.

Lemma newScale_pos (v : R) : 0 < Rmin (Rmax v 0.1) 8.
Proof.
  unfold Rmin, Rmax. repeat destruct (Rle_dec _ _); lra.
Qed.

(** The new position solves the equation of handleWheel: the point that the
    handler takes to be under the mouse is the same before and after. *)
Lemma handleWheel_solves_pan (e : WheelEvent) (rect : DOMRect)
    (st : ViewerState) :
  scale st <> 0 ->
  pointUnderMouse (handleWheel e (Some rect) st) (mousePos e rect) =
  pointUnderMouse st (mousePos e rect).
Proof.
  intros Hs. unfold pointUnderMouse, handleWheel, mousePos.
  cbn [px py scale position].
  set (newScale := Rmin (Rmax _ 0.1) 8).
  assert (Hn : newScale <> 0) by (pose proof (newScale_pos
    (scale st + (if Rlt_dec 0 (deltaY e) then -1 else 1) * 0.2 * scale st));
    fold newScale in H; lra).
  f_equal; field; auto.
Qed.

(** What is shown under the mouse moves by half the container size times
    the difference of the inverse scales. *)
Lemma handleWheel_drift (e : WheelEvent) (rect : DOMRect) (st : ViewerState) :
  scale st <> 0 ->
  let st' := handleWheel e (Some rect) st in
  let m := mousePos e rect in
  px (contentUnder rect st' m) - px (contentUnder rect st m) =
    width rect / 2 * (/ scale st - / scale st') /\
  py (contentUnder rect st' m) - py (contentUnder rect st m) =
    height rect / 2 * (/ scale st - / scale st').
Proof.
  intros Hs. unfold contentUnder, handleWheel, mousePos.
  cbn [px py scale position].
  set (newScale := Rmin (Rmax _ 0.1) 8).
  assert (Hn : newScale <> 0) by (pose proof (newScale_pos
    (scale st + (if Rlt_dec 0 (deltaY e) then -1 else 1) * 0.2 * scale st));
    fold newScale in H; lra).
  split; field; auto.
Qed.

(** A wheel step up with the mouse in the middle of an 800 x 600 container,
    on the view as it is opened. *)
Definition opened : ViewerState := {| scale := 1; position := mkPoint 0 0 |}.
Definition wheelUp : WheelEvent :=
  {| deltaY := -100; clientX := 400; clientY := 300 |}.
Definition container : DOMRect :=
  {| left := 0; top := 0; width := 800; height := 600 |}.

Lemma wheelUp_result :
  handleWheel wheelUp (Some container) opened =
  {| scale := 1.2; position := mkPoint (-80) (-60) |}.
Proof.
  unfold handleWheel, wheelUp, container, opened. cbn [deltaY clientX clientY
    left top scale position px py].
  destruct (Rlt_dec 0 (-100)) as [H|_]; [lra|].
  replace (Rmin (Rmax (1 + 1 * 0.2 * 1) 0.1) 8) with 1.2.
  - f_equal. apply (f_equal2 mkPoint); lra.
  - unfold Rmin, Rmax. repeat destruct (Rle_dec _ _); lra.
Qed.

(** C5 at that input: before the step the centre of the image is under the
    mouse; after it the point 200/3 to the right of and 50 below the centre
    is. The content under the mouse has changed. *)
Theorem handleWheel_focal_point_drifts :
  let m := mousePos wheelUp container in
  contentUnder container opened m = mkPoint 0 0 /\
  contentUnder container (handleWheel wheelUp (Some container) opened) m =
    mkPoint (200 / 3) 50 /\
  contentUnder container (handleWheel wheelUp (Some container) opened) m <>
    contentUnder container opened m.
Proof.
  cbn zeta. rewrite wheelUp_result.
  unfold contentUnder, mousePos, wheelUp, container, opened.
  cbn [px py scale position clientX clientY left top width height].
  assert (E1 : mkPoint ((400 - 0 - 800 / 2 - 0) / 1) ((300 - 0 - 600 / 2 - 0) / 1)
               = mkPoint 0 0) by (apply (f_equal2 mkPoint); lra).
  assert (E2 : mkPoint ((400 - 0 - 800 / 2 - -80) / 1.2)
                       ((300 - 0 - 600 / 2 - -60) / 1.2)
               = mkPoint (200 / 3) 50) by (apply (f_equal2 mkPoint); lra).
  rewrite E1, E2. repeat split. intros [= H1 H2]. lra.
Qed.

(** *** Zoom limits and panning *)

(** The drag state of the viewer beside its view: [isDragging] and
    [startDrag]. *)
Record DragState := mkDragState {
  view : ViewerState;
  isDragging : bool;
  startDrag : Point
}.

(** handleMouseDown; [client] is (e.clientX, e.clientY). *)
Definition handleMouseDown (client : Point) (ds : DragState) : DragState :=
  if Rle_dec (scale (view ds)) 1 then ds
  else {| view := view ds;
          isDragging := true;
          startDrag := mkPoint (px client - px (position (view ds)))
                               (py client - py (position (view ds))) |}.

(** handleMouseUp and handleMouseLeave. *)
Definition handleMouseUp (ds : DragState) : DragState :=
  {| view := view ds; isDragging := false; startDrag := startDrag ds |}.

Definition handleMouseMove (client : Point) (ds : DragState) : DragState :=
  if isDragging ds then
    {| view := {| scale := scale (view ds);
                  position := mkPoint (px client - px (startDrag ds))
                                      (py client - py (startDrag ds)) |};
       isDragging := isDragging ds;
       startDrag := startDrag ds |}
  else ds.

Definition onView (f : ViewerState -> ViewerState) (ds : DragState) : DragState :=
  {| view := f (view ds); isDragging := isDragging ds;
     startDrag := startDrag ds |}.

(** What the user can do in the viewer. *)
Inductive ViewerOp :=
| Wheel (e : WheelEvent) (container : option DOMRect)
| ZoomIn
| ZoomOut
| Reset
| MouseDown (client : Point)
| MouseMove (client : Point)
| MouseUp.

Definition applyOp (op : ViewerOp) (ds : DragState) : DragState :=
  match op with
  | Wheel e container => onView (handleWheel e container) ds
  | ZoomIn => onView handleZoomIn ds
  | ZoomOut => onView handleZoomOut ds
  | Reset => onView handleReset ds
  | MouseDown client => handleMouseDown client ds
  | MouseMove client => handleMouseMove client ds
  | MouseUp => handleMouseUp ds
  end.

Definition runOps (ops : list ViewerOp) (ds : DragState) : DragState :=
  fold_left (fun d op => applyOp op d) ops ds.

Definition scale_in_range (ds : DragState) : Prop :=
  0.1 <= scale (view ds) <= 8.

Lemma applyOp_scale_in_range (op : ViewerOp) (ds : DragState) :
  scale_in_range ds -> scale_in_range (applyOp op ds).
Proof.
  unfold scale_in_range. intros H.
  destruct op as [e [rect|]| | | |client|client|]; cbn [applyOp onView view].
  - unfold handleWheel. cbn [scale].
    unfold Rmin, Rmax. repeat destruct (Rle_dec _ _); lra.
  - exact H.
  - unfold handleZoomIn. cbn [scale].
    unfold Rmin. destruct (Rle_dec _ _); lra.
  - unfold handleZoomOut. cbn [scale].
    unfold Rmax. destruct (Rle_dec _ _); lra.
  - cbn. lra.
  - unfold handleMouseDown. destruct (Rle_dec _ _); cbn [view]; exact H.
  - unfold handleMouseMove. destruct (isDragging ds); cbn [view scale]; exact H.
  - exact H.
Qed.

(** The scale of the viewer never leaves the interval from 0.1 to 8,
    whatever sequence of wheel steps, zoom buttons, resets and mouse
    gestures the user performs. *)
Theorem viewer_scale_stays_in_range (ops : list ViewerOp) (ds : DragState) :
  scale_in_range ds -> scale_in_range (runOps ops ds).
Proof.
  revert ds. induction ops as [|op ops IH]; intros ds H; [exact H|].
  unfold runOps in *. cbn [fold_left]. apply IH.
  now apply applyOp_scale_in_range.
Qed.

Definition atRest : DragState :=
  {| view := opened; isDragging := false; startDrag := mkPoint 0 0 |}.

Lemma viewer_scale_stays_in_range_witness :
  scale_in_range (runOps [ZoomIn; Wheel wheelUp (Some container); ZoomOut] atRest).
Proof.
  apply viewer_scale_stays_in_range. unfold scale_in_range. cbn. lra.
Defined.

Definition moves (clients : list Point) (ds : DragState) : DragState :=
  fold_left (fun d client => handleMouseMove client d) clients ds.

Lemma moves_keep_drag (clients : list Point) : forall ds,
  isDragging ds = true ->
  isDragging (moves clients ds) = true /\
  startDrag (moves clients ds) = startDrag ds /\
  scale (view (moves clients ds)) = scale (view ds).
Proof.
  induction clients as [|c clients IH]; intros ds Hd; [now repeat split|].
  unfold moves in *. cbn [fold_left].
  destruct (IH (handleMouseMove c ds)) as (H1 & H2 & H3);
    unfold handleMouseMove in *; rewrite Hd in *; [reflexivity|].
  now repeat split.
Qed.

Lemma moves_while_idle (clients : list Point) (ds : DragState) :
  isDragging ds = false -> moves clients ds = ds.
Proof.
  intros Hd. induction clients as [|c clients IH]; [reflexivity|].
  unfold moves in *. cbn [fold_left]. unfold handleMouseMove at 2.
  rewrite Hd. exact IH.
Qed.

(** Panning. When zoomed in (scale above 1), pressing the mouse at [down]
    and moving it, through any intermediate positions, to [final] shifts
    the image by exactly final - down and leaves the scale alone. At scale
    1 or below the same gesture leaves the view as it is. *)
Theorem viewer_pan (ds : DragState) (down final : Point) (between : list Point) :
  isDragging ds = false ->
  let ds' := moves (between ++ [final]) (handleMouseDown down ds) in
  (1 < scale (view ds) ->
     scale (view ds') = scale (view ds) /\
     px (position (view ds')) = px (position (view ds)) + (px final - px down) /\
     py (position (view ds')) = py (position (view ds)) + (py final - py down)) /\
  (scale (view ds) <= 1 -> ds' = ds).
Proof.
  intros Hidle ds'. split.
  - intros Hs. unfold ds', handleMouseDown.
    destruct (Rle_dec (scale (view ds)) 1) as [Hle|_]; [lra|].
    set (pressed := mkDragState _ _ _).
    unfold moves. rewrite fold_left_app. cbn [fold_left].
    destruct (moves_keep_drag between pressed eq_refl) as (Hd & Hst & Hsc).
    unfold moves in Hd, Hst, Hsc.
    set (mid := fold_left _ between pressed) in *.
    unfold handleMouseMove. rewrite Hd, Hst, Hsc.
    cbn [view scale position px py startDrag pressed].
    repeat split; lra.
  - intros Hs. unfold ds', handleMouseDown.
    destruct (Rle_dec (scale (view ds)) 1) as [_|Hn]; [|lra].
    now apply moves_while_idle.
Qed.

Definition zoomedIn : DragState :=
  {| view := {| scale := 2; position := mkPoint 10 20 |};
     isDragging := false; startDrag := mkPoint 0 0 |}.

Lemma viewer_pan_witness :
  px (position (view (moves ([mkPoint 105 205] ++ [mkPoint 130 190])
                        (handleMouseDown (mkPoint 100 200) zoomedIn))))
  = 10 + (130 - 100).
Proof.
  destruct (viewer_pan zoomedIn (mkPoint 100 200) (mkPoint 130 190)
              [mkPoint 105 205] eq_refl) as [Hpan _].
  destruct Hpan as (_ & Hx & _); [cbn; lra|]. exact Hx.
Defined.

End Viewer.
